(** * ReasoningBank and MemoryGraph: a shallow embedding

    The associative memory core of claude-flow: the ReasoningBank class
    (retrieve / judge / distill / consolidate, pattern and trajectory
    management, event emission) and the PageRank pass of MemoryGraph.

    Conventions of the embedding.
    - A JavaScript [number] is an exact rational [Q]; rounding of IEEE
      doubles (and of [Float32Array] cells) and NaN are not modelled.
      The one place where the source relies on [-Infinity] has its own
      type [score].
    - [Math.sqrt] and [Math.exp] are library functions: the model takes
      them from the class [MathLib], and the closed examples instantiate
      it with functions that agree with them where the examples evaluate
      them (squares of rationals, and 0).
    - [Date.now()] and [Math.random()] are inputs of the operation that
      reads them.
    - A JavaScript [Map] with string keys is an association list in
      insertion order.
    - [memory-graph.ts] is known through its specification and its
      tests; the module [MemoryGraph] follows the specification. *)

From Stdlib Require Import String Ascii List Bool Arith ZArith QArith Qround Qabs Qminmax.
From Stdlib Require Import Lia Lqa Permutation Sorted DecimalString.
Import ListNotations.

Local Open Scope Q_scope.

(** ** Numbers *)

(** [x < y] on numbers, as a boolean. *)
Definition Qltb (x y : Q) : bool := negb (Qle_bool y x).

(** [a.length], [steps.length] as a number. *)
Definition Qlen {A : Type} (l : list A) : Q := inject_Z (Z.of_nat (length l)).

(** [arr.reduce((a, b) => a + b, 0)]. *)
Definition Qsum (l : list Q) : Q := fold_left Qplus l 0.

(** A score that starts at [-Infinity]. *)
Inductive score : Type :=
| NegInfinity
| Num (q : Q).

(** [x > s] where [s] may still be [-Infinity]. *)
Definition gt_score (x : Q) (s : score) : bool :=
  match s with
  | NegInfinity => true
  | Num b => Qltb b x
  end.

(** ** Errors *)

Inductive result (A : Type) : Type :=
| Ok (a : A)
| Throw (msg : string).
Arguments Ok {A} a.
Arguments Throw {A} msg.

Definition bind {A B : Type} (r : result A) (k : A -> result B) : result B :=
  match r with
  | Ok a => k a
  | Throw e => Throw e
  end.

Notation "x <- c1 ;; c2" := (bind c1 (fun x => c2))
  (at level 61, c1 at next level, right associativity).

(** ** JavaScript [Map] with string keys, in insertion order *)

Section JSMap.
Context {V : Type}.

(** [m.set(k, v)]: an existing key keeps its position. *)
Fixpoint map_set (k : string) (v : V) (m : list (string * V)) : list (string * V) :=
  match m with
  | [] => [(k, v)]
  | (k', v') :: t =>
      if String.eqb k k' then (k, v) :: t else (k', v') :: map_set k v t
  end.

(** [m.delete(k)]. *)
Definition map_delete (k : string) (m : list (string * V)) : list (string * V) :=
  filter (fun kv => negb (String.eqb k (fst kv))) m.

(** [m.get(k)]. *)
Fixpoint map_get (k : string) (m : list (string * V)) : option V :=
  match m with
  | [] => None
  | (k', v) :: t => if String.eqb k k' then Some v else map_get k t
  end.

Definition map_keys (m : list (string * V)) : list string := map fst m.
Definition map_values (m : list (string * V)) : list V := map snd m.
End JSMap.

(** ** Arrays *)

Section Arrays.
Context {A : Type}.

(** [arr.sort(cmp)]: a stable sort; [x] goes before the first [y] with
    [cmp x y <= 0]. *)
Fixpoint sort_insert (cmp : A -> A -> Q) (x : A) (l : list A) : list A :=
  match l with
  | [] => [x]
  | y :: t => if Qle_bool (cmp x y) 0 then x :: y :: t else y :: sort_insert cmp x t
  end.

Definition js_sort (cmp : A -> A -> Q) (l : list A) : list A :=
  fold_right (sort_insert cmp) [] l.

(** [arr.splice(i, 1)]. *)
Fixpoint splice1 (i : nat) (l : list A) : list A :=
  match l, i with
  | [], _ => []
  | _ :: t, O => t
  | x :: t, S i' => x :: splice1 i' t
  end.

(** [arr.slice(-n)]. *)
Definition slice_last (n : nat) (l : list A) : list A :=
  skipn (length l - n) l.

(** The pairs [(l[i], l[j])], [i < j], in the order of
    [for i { for j = i + 1 .. }]. *)
Fixpoint pairs (l : list A) : list (A * A) :=
  match l with
  | [] => []
  | x :: t => map (pair x) t ++ pairs t
  end.

(** [l] with its indices. *)
Definition indexed (l : list A) : list (nat * A) := combine (seq 0 (length l)) l.

(** [l[i] = f(l[i])]. *)
Fixpoint update_nth (i : nat) (f : A -> A) (l : list A) : list A :=
  match l, i with
  | [], _ => []
  | x :: t, O => f x :: t
  | x :: t, S i' => x :: update_nth i' f t
  end.
End Arrays.

(** ** Strings *)

Local Open Scope string_scope.
Local Open Scope list_scope.
Local Open Scope Q_scope.

(** [s.includes(pat)]. *)
Definition includes (s pat : string) : bool :=
  match String.index 0 pat s with
  | Some _ => true
  | None => false
  end.

(** [`${n}`] for an integer. *)
Definition string_of_Z (z : Z) : string := NilZero.string_of_int (Z.to_int z).

(** [[...new Set(l)]]: first occurrences, in order. *)
Fixpoint unique (l : list string) : list string :=
  match l with
  | [] => []
  | x :: t => x :: filter (fun y => negb (String.eqb x y)) (unique t)
  end.

(** [s.split(' ')]. *)
Fixpoint split_spaces_aux (cur : string) (s : string) : list string :=
  match s with
  | EmptyString => [cur]
  | String c t =>
      if Ascii.eqb c " "%char then cur :: split_spaces_aux "" t
      else split_spaces_aux (String.append cur (String c "")) t
  end.
Definition split_spaces (s : string) : list string := split_spaces_aux "" s.

(** [c.toLowerCase()] on an ASCII character. *)
Definition lower_ascii (c : ascii) : ascii :=
  let n := nat_of_ascii c in
  if (65 <=? n)%nat && (n <=? 90)%nat then ascii_of_nat (n + 32) else c.

(** Is [c] in [[a-z0-9_]]? *)
Definition is_name_char (c : ascii) : bool :=
  let n := nat_of_ascii c in
  ((97 <=? n)%nat && (n <=? 122)%nat) || ((48 <=? n)%nat && (n <=? 57)%nat) || (n =? 95)%nat.

Fixpoint string_map (f : ascii -> ascii) (s : string) : string :=
  match s with
  | EmptyString => EmptyString
  | String c t => String (f c) (string_map f t)
  end.

Fixpoint string_filter (f : ascii -> bool) (s : string) : string :=
  match s with
  | EmptyString => EmptyString
  | String c t => if f c then String c (string_filter f t) else string_filter f t
  end.

(** ** Data model (the fields of [types.js] that [ReasoningBank] uses) *)

Record TrajectoryStep : Type := {
  action : string;
  stateAfter : list Q;
  reward : Q
}.

Record TrajectoryVerdict : Type := {
  success : bool;
  confidence : Q;
  strengths : list string;
  weaknesses : list string;
  improvements : list string;
  relevanceScore : Q
}.

Record DistilledMemory : Type := {
  memoryId : string;
  m_trajectoryId : string;
  strategy : string;
  keyLearnings : list string;
  embedding : list Q;
  quality : Q;
  usageCount : Z;
  lastUsed : Z
}.

Record Trajectory : Type := {
  trajectoryId : string;
  domain : string;
  startTime : Z;
  qualityScore : Q;
  isComplete : bool;
  steps : list TrajectoryStep;
  verdict : option TrajectoryVerdict;
  distilledMemory : option DistilledMemory
}.

Inductive EvolutionType : Type := improvement | merge | split | prune.

Record PatternEvolution : Type := {
  timestamp : Z;
  ev_type : EvolutionType;
  previousQuality : Q;
  newQuality : Q;
  description : string
}.

Record Pattern : Type := {
  patternId : string;
  name : string;
  p_domain : string;
  p_embedding : list Q;
  p_strategy : string;
  successRate : Q;
  p_usageCount : Z;
  qualityHistory : list Q;
  evolutionHistory : list PatternEvolution;
  createdAt : Z;
  updatedAt : Z
}.

Inductive NeuralEvent : Type :=
| memory_consolidated (memoriesCount : nat)
| pattern_evolved (patternId : string) (evolutionType : EvolutionType).

(** A listener returns or throws. *)
Definition NeuralEventListener : Type := NeuralEvent -> result unit.

Record ReasoningBankConfig : Type := {
  maxTrajectories : Z;
  distillationThreshold : Q;
  retrievalK : Z;
  mmrLambda : Q;
  maxPatternAgeDays : Q;
  dedupThreshold : Q;
  enableContradictionDetection : bool
}.

Definition DEFAULT_CONFIG : ReasoningBankConfig := {|
  maxTrajectories := 5000;
  distillationThreshold := 0.6;
  retrievalK := 3;
  mmrLambda := 0.7;
  maxPatternAgeDays := 30;
  dedupThreshold := 0.95;
  enableContradictionDetection := true
|}.

(** The trajectory of an entry is the object that was distilled, as it
    was when the entry was created. *)
Record MemoryEntry : Type := {
  memory : DistilledMemory;
  trajectory : Trajectory;
  e_verdict : TrajectoryVerdict;
  consolidated : bool
}.

Record RetrievalResult : Type := {
  r_memory : DistilledMemory;
  r_relevanceScore : Q;
  diversityScore : Q;
  combinedScore : score
}.

Record ConsolidationResult : Type := {
  removedDuplicates : Z;
  contradictionsDetected : Z;
  prunedPatterns : Z;
  mergedPatterns : Z
}.

Record StepAnalysis : Type := {
  totalSteps : nat;
  avgReward : Q;
  positiveRatio : Q;
  sa_trajectory : Q
}.

(** The state of a [ReasoningBank] instance.  The two running totals of
    elapsed time are left out; [console] collects what [console.error]
    prints. *)
Record ReasoningBank : Type := {
  config : ReasoningBankConfig;
  trajectories : list (string * Trajectory);
  memories : list (string * MemoryEntry);
  patterns : list (string * Pattern);
  eventListeners : list NeuralEventListener;
  retrievalCount : Z;
  distillationCount : Z;
  console : list string
}.

(** [new ReasoningBank(config)]. *)
Definition createReasoningBank (cfg : ReasoningBankConfig) : ReasoningBank := {|
  config := cfg;
  trajectories := [];
  memories := [];
  patterns := [];
  eventListeners := [];
  retrievalCount := 0;
  distillationCount := 0;
  console := []
|}.

(** [Math.sqrt] and [Math.exp]. *)
Class MathLib : Type := {
  Math_sqrt : Q -> Q;
  Math_exp : Q -> Q
}.

(** ** The ReasoningBank operations *)

Section Model.
Context {math : MathLib}.

(** *** Private helpers *)

Definition cosineSimilarity (a b : list Q) : Q :=
  if negb (length a =? length b)%nat then 0
  else
    let '(dot, normA, normB) :=
      fold_left
        (fun '(dot, normA, normB) '(x, y) => (dot + x * y, normA + x * x, normB + y * y))
        (combine a b) (0, 0, 0) in
    let denom := Math_sqrt normA * Math_sqrt normB in
    if Qltb 0 denom then dot / denom else 0.

Definition computeMaxSimilarity (entry : MemoryEntry) (selected : list MemoryEntry) : Q :=
  fold_left
    (fun maxSim sel =>
       Qmax maxSim (cosineSimilarity (embedding (memory entry)) (embedding (memory sel))))
    selected 0.

Definition analyzeSteps (steps : list TrajectoryStep) : StepAnalysis :=
  let rewardSum := fold_left (fun s step => s + reward step) steps 0 in
  let positiveSteps := length (filter (fun s => Qltb 0.5 (reward s)) steps) in
  {| totalSteps := length steps;
     avgReward := if (0 <? length steps)%nat then rewardSum / Qlen steps else 0;
     positiveRatio :=
       if (0 <? length steps)%nat
       then inject_Z (Z.of_nat positiveSteps) / Qlen steps else 0;
     sa_trajectory :=
       match steps with
       | first :: _ :: _ => reward (last steps first) - reward first
       | _ => 0
       end |}.

Definition identifyStrengths (t : Trajectory) (analysis : StepAnalysis) : list string :=
  (if Qltb 0.7 (avgReward analysis) then ["High average reward across steps"] else [])
  ++ (if Qltb 0.2 (sa_trajectory analysis) then ["Positive reward trajectory"] else [])
  ++ (if Qltb 0.8 (qualityScore t) then ["High overall quality"] else [])
  ++ (if (totalSteps analysis <? 5)%nat && Qltb 0.6 (qualityScore t)
      then ["Efficient solution (few steps)"] else []).

Definition identifyWeaknesses (t : Trajectory) (analysis : StepAnalysis) : list string :=
  (if Qltb (avgReward analysis) 0.4 then ["Low average reward"] else [])
  ++ (if Qltb (sa_trajectory analysis) (-0.1) then ["Declining reward trajectory"] else [])
  ++ (if Qltb (positiveRatio analysis) 0.5 then ["Many negative/neutral steps"] else [])
  ++ (if (10 <? totalSteps analysis)%nat && Qltb (qualityScore t) 0.7
      then ["Long trajectory with mediocre outcome"] else []).

Definition generateImprovements (weaknesses : list string) : list string :=
  flat_map
    (fun weakness =>
       (if includes weakness "Low average reward"
        then ["Consider alternative strategies for each step"] else [])
       ++ (if includes weakness "Declining"
           then ["Re-evaluate approach when reward decreases"] else [])
       ++ (if includes weakness "negative/neutral"
           then ["Focus on steps with clearer positive signals"] else [])
       ++ (if includes weakness "Long trajectory"
           then ["Look for shortcuts or more direct approaches"] else []))
    weaknesses.

Definition computeRelevanceScore (now : Z) (t : Trajectory) : Q :=
  let qualityFactor := qualityScore t in
  let ageDays := inject_Z (now - startTime t) / inject_Z (1000 * 60 * 60 * 24) in
  let recencyFactor := Math_exp (- ageDays / 30) in
  qualityFactor * 0.7 + recencyFactor * 0.3.

Definition computeConfidence (t : Trajectory) (analysis : StepAnalysis) : Q :=
  let stepFactor := Qmin (inject_Z (Z.of_nat (totalSteps analysis)) / 10) 1 in
  let consistencyFactor := positiveRatio analysis in
  let outcomeFactor := Qabs (qualityScore t - 0.5) * 2 in
  stepFactor * 0.3 + consistencyFactor * 0.4 + outcomeFactor * 0.3.

Definition set_verdict (t : Trajectory) (v : TrajectoryVerdict) : Trajectory :=
  {| trajectoryId := trajectoryId t; domain := domain t; startTime := startTime t;
     qualityScore := qualityScore t; isComplete := isComplete t; steps := steps t;
     verdict := Some v; distilledMemory := distilledMemory t |}.

Definition set_distilledMemory (t : Trajectory) (m : DistilledMemory) : Trajectory :=
  {| trajectoryId := trajectoryId t; domain := domain t; startTime := startTime t;
     qualityScore := qualityScore t; isComplete := isComplete t; steps := steps t;
     verdict := verdict t; distilledMemory := Some m |}.

(** *** Step 2: judge

    Returns the verdict and the trajectory with the verdict attached. *)
Definition judge (cfg : ReasoningBankConfig) (now : Z) (t : Trajectory)
  : result (TrajectoryVerdict * Trajectory) :=
  if negb (isComplete t) then Throw "Cannot judge incomplete trajectory"
  else
    let stepAnalysis := analyzeSteps (steps t) in
    let success :=
      Qle_bool (distillationThreshold cfg) (qualityScore t)
      && Qltb 0.6 (positiveRatio stepAnalysis) in
    let strengths := identifyStrengths t stepAnalysis in
    let weaknesses := identifyWeaknesses t stepAnalysis in
    let improvements := generateImprovements weaknesses in
    let relevanceScore := computeRelevanceScore now t in
    let verdict :=
      {| success := success;
         confidence := computeConfidence t stepAnalysis;
         strengths := strengths;
         weaknesses := weaknesses;
         improvements := improvements;
         relevanceScore := relevanceScore |} in
    Ok (verdict, set_verdict t verdict).

(** *** Step 3: distill *)

Definition extractStrategy (t : Trajectory) : string :=
  let actions := map action (steps t) in
  let uniqueActions := unique actions in
  if (length uniqueActions <=? 3)%nat
  then String.append "Apply " (String.concat " -> " uniqueActions)
  else String.append "Multi-step approach: "
         (String.append (String.concat ", " (firstn 3 uniqueActions)) "...").

(** [trajectory.verdict!]: the callers have set the verdict. *)
Definition extractKeyLearnings (t : Trajectory) : list string :=
  match verdict t with
  | None => []
  | Some verdict =>
      if success verdict
      then String.append (String.append "Successful approach for " (domain t)) " domain"
           :: map (String.append "Strength: ") (firstn 2 (strengths verdict))
      else "Approach needs refinement"
           :: map (String.append "Improvement: ") (firstn 2 (improvements verdict))
  end.

(** A step whose [stateAfter] is shorter than the first step's would
    contribute NaN; such ragged trajectories are outside the model
    (a missing cell reads as 0). *)
Definition computeAggregateEmbedding (t : Trajectory) : list Q :=
  match steps t with
  | [] => repeat 0 768
  | first :: _ =>
      let dim := length (stateAfter first) in
      let '(aggregate, totalWeight) :=
        fold_left
          (fun '(aggregate, totalWeight) '(i, step) =>
             let weight := inject_Z (Z.of_nat i + 1) / Qlen (steps t) in
             (map (fun j => nth j aggregate 0 + nth j (stateAfter step) 0 * weight)
                  (seq 0 dim),
              totalWeight + weight))
          (indexed (steps t)) (repeat 0 dim, 0) in
      map (fun x => x / totalWeight) aggregate
  end.

Definition set_memories (b : ReasoningBank) (m : list (string * MemoryEntry)) : ReasoningBank :=
  {| config := config b; trajectories := trajectories b; memories := m;
     patterns := patterns b; eventListeners := eventListeners b;
     retrievalCount := retrievalCount b; distillationCount := distillationCount b;
     console := console b |}.

Definition set_patterns (b : ReasoningBank) (p : list (string * Pattern)) : ReasoningBank :=
  {| config := config b; trajectories := trajectories b; memories := memories b;
     patterns := p; eventListeners := eventListeners b;
     retrievalCount := retrievalCount b; distillationCount := distillationCount b;
     console := console b |}.

Definition set_trajectories (b : ReasoningBank) (t : list (string * Trajectory)) : ReasoningBank :=
  {| config := config b; trajectories := t; memories := memories b;
     patterns := patterns b; eventListeners := eventListeners b;
     retrievalCount := retrievalCount b; distillationCount := distillationCount b;
     console := console b |}.

Definition set_console (b : ReasoningBank) (c : list string) : ReasoningBank :=
  {| config := config b; trajectories := trajectories b; memories := memories b;
     patterns := patterns b; eventListeners := eventListeners b;
     retrievalCount := retrievalCount b; distillationCount := distillationCount b;
     console := c |}.

Definition incr_distillationCount (b : ReasoningBank) : ReasoningBank :=
  {| config := config b; trajectories := trajectories b; memories := memories b;
     patterns := patterns b; eventListeners := eventListeners b;
     retrievalCount := retrievalCount b; distillationCount := (distillationCount b + 1)%Z;
     console := console b |}.

Definition incr_retrievalCount (b : ReasoningBank) : ReasoningBank :=
  {| config := config b; trajectories := trajectories b; memories := memories b;
     patterns := patterns b; eventListeners := eventListeners b;
     retrievalCount := (retrievalCount b + 1)%Z; distillationCount := distillationCount b;
     console := console b |}.

(** [`mem_${Date.now()}_${Math.random().toString(36).slice(2, 9)}`];
    [rnd] is the random suffix. *)
Definition new_memoryId (now : Z) (rnd : string) : string :=
  String.append "mem_" (String.append (string_of_Z now) (String.append "_" rnd)).

(** [if (!trajectory.verdict) await this.judge(trajectory)]. *)
Definition judge_if_needed (cfg : ReasoningBankConfig) (now : Z) (t : Trajectory)
  : result Trajectory :=
  match verdict t with
  | None => vt <- judge cfg now t ;; Ok (snd vt)
  | Some _ => Ok t
  end.

(** Returns the bank, the trajectory as the call leaves it, and the
    memory or [None] for [null]. *)
Definition distill (now : Z) (rnd : string) (b : ReasoningBank) (t : Trajectory)
  : result (ReasoningBank * Trajectory * option DistilledMemory) :=
  t <- judge_if_needed (config b) now t ;;
  match verdict t with
  | None => Throw "TypeError: Cannot read properties of undefined (reading 'success')"
  | Some v =>
      if negb (success v) || Qltb (qualityScore t) (distillationThreshold (config b))
      then Ok (b, t, None)
      else
        let strategy := extractStrategy t in
        let keyLearnings := extractKeyLearnings t in
        let embedding := computeAggregateEmbedding t in
        let memory :=
          {| memoryId := new_memoryId now rnd;
             m_trajectoryId := trajectoryId t;
             strategy := strategy;
             keyLearnings := keyLearnings;
             embedding := embedding;
             quality := qualityScore t;
             usageCount := 0;
             lastUsed := now |} in
        let entry :=
          {| memory := memory; trajectory := t; e_verdict := v; consolidated := false |} in
        let b := set_memories b (map_set (memoryId memory) entry (memories b)) in
        let t := set_distilledMemory t memory in
        Ok (incr_distillationCount b, t, Some memory)
  end.

(** *** Step 1: retrieve *)

Definition mmrScore (cfg : ReasoningBankConfig) (selected : list MemoryEntry)
    (candidate : MemoryEntry * Q) : Q :=
  let relevance := snd candidate in
  let maxSimilarity :=
    fold_left
      (fun maxSimilarity sel =>
         Qmax maxSimilarity
           (cosineSimilarity (embedding (memory (fst candidate))) (embedding (memory sel))))
      selected 0 in
  let diversityScore := 1 - maxSimilarity in
  mmrLambda cfg * relevance + (1 - mmrLambda cfg) * diversityScore.

(** The inner [for] loop: [(bestIdx, bestScore)]. *)
Definition pick_best (cfg : ReasoningBankConfig) (selected : list MemoryEntry)
    (candidates : list (MemoryEntry * Q)) : nat * score :=
  fold_left
    (fun '(bestIdx, bestScore) '(i, candidate) =>
       let mmr := mmrScore cfg selected candidate in
       if gt_score mmr bestScore then (i, Num mmr) else (bestIdx, bestScore))
    (indexed candidates) (0%nat, NegInfinity).

(** The [while] loop; [remaining] is [retrieveK - results.length]. *)
Fixpoint mmr_loop (cfg : ReasoningBankConfig) (remaining : nat)
    (candidates : list (MemoryEntry * Q)) (selected : list MemoryEntry)
    (results : list RetrievalResult) : list RetrievalResult :=
  match remaining, candidates with
  | O, _ => results
  | _, [] => results
  | S remaining', c0 :: _ =>
      let '(bestIdx, bestScore) := pick_best cfg selected candidates in
      let best := nth bestIdx candidates c0 in
      let selected := selected ++ [fst best] in
      let r :=
        {| r_memory := memory (fst best);
           r_relevanceScore := snd best;
           diversityScore := 1 - computeMaxSimilarity (fst best) (removelast selected);
           combinedScore := bestScore |} in
      mmr_loop cfg remaining' (splice1 bestIdx candidates) selected (results ++ [r])
  end.

(** The candidates with their relevance, sorted by relevance. *)
Definition sorted_candidates (b : ReasoningBank) (queryEmbedding : list Q)
  : list (MemoryEntry * Q) :=
  js_sort (fun a b => snd b - snd a)
    (map (fun entry => (entry, cosineSimilarity queryEmbedding (embedding (memory entry))))
         (map_values (memories b))).

(** [k] is an integer when given. *)
Definition retrieve (b : ReasoningBank) (queryEmbedding : list Q) (k : option Z)
  : ReasoningBank * list RetrievalResult :=
  let retrieveK := match k with Some k => k | None => retrievalK (config b) end in
  match memories b with
  | [] => (b, [])
  | _ =>
      let candidates := sorted_candidates b queryEmbedding in
      let results := mmr_loop (config b) (Z.to_nat retrieveK) candidates [] [] in
      (incr_retrievalCount b, results)
  end.

(** *** Event system *)

(** [try { body } catch (error) { handler(error) }]. *)
Definition try_catch {A : Type} (body : result A) (handler : string -> result A) : result A :=
  match body with
  | Ok a => Ok a
  | Throw error => handler error
  end.

(** [for (const x of l) body(x)] over a state. *)
Fixpoint for_of {A S : Type} (l : list A) (body : A -> S -> result S) (s : S) : result S :=
  match l with
  | [] => Ok s
  | x :: t => s' <- body x s ;; for_of t body s'
  end.

(** The state threaded through is the console. *)
Definition emitEvent (b : ReasoningBank) (event : NeuralEvent) : result ReasoningBank :=
  c <- for_of (eventListeners b)
         (fun listener console =>
            try_catch
              (_ <- listener event ;; Ok console)
              (fun error =>
                 Ok (console
                     ++ [String.append "Error in ReasoningBank event listener: " error])))
         (console b) ;;
  Ok (set_console b c).

Definition addEventListener (b : ReasoningBank) (listener : NeuralEventListener)
  : ReasoningBank :=
  {| config := config b; trajectories := trajectories b; memories := memories b;
     patterns := patterns b; eventListeners := eventListeners b ++ [listener];
     retrievalCount := retrievalCount b; distillationCount := distillationCount b;
     console := console b |}.

(** *** Step 4: consolidate *)

(** One round of the inner loop of [deduplicateMemories], on
    [entries[i]] and [entries[j]]. *)
Definition dedup_step (cfg : ReasoningBankConfig)
    (st : list (string * MemoryEntry) * Z)
    (p : (string * MemoryEntry) * (string * MemoryEntry))
  : list (string * MemoryEntry) * Z :=
  let '(mems, removed) := st in
  let '(ei, ej) := p in
  let sim := cosineSimilarity (embedding (memory (snd ei))) (embedding (memory (snd ej))) in
  if Qltb (dedupThreshold cfg) sim
  then
    ((if Qle_bool (quality (memory (snd ej))) (quality (memory (snd ei)))
      then map_delete (fst ej) mems
      else map_delete (fst ei) mems),
     (removed + 1)%Z)
  else st.

(** [entries] is a snapshot: entries deleted from the map are still
    compared. *)
Definition deduplicateMemories (b : ReasoningBank) : ReasoningBank * Z :=
  let entries := memories b in
  let '(mems, removed) := fold_left (dedup_step (config b)) (pairs entries) (memories b, 0%Z) in
  (set_memories b mems, removed).

Definition set_consolidated (kv : string * MemoryEntry) : string * MemoryEntry :=
  (fst kv,
   {| memory := memory (snd kv); trajectory := trajectory (snd kv);
      e_verdict := e_verdict (snd kv); consolidated := true |}).

(** One round of the inner loop of [detectContradictions].  The array
    holds the entry objects of the map, so [entries[i].consolidated =
    true] is an update of the map's [i]-th entry; the loop writes no
    other field, so embedding and quality are read from the snapshot. *)
Definition contradiction_step
    (st : list (string * MemoryEntry) * Z)
    (p : (nat * MemoryEntry) * (nat * MemoryEntry))
  : list (string * MemoryEntry) * Z :=
  let '(mems, contradictions) := st in
  let '((i, ei), (j, ej)) := p in
  let sim := cosineSimilarity (embedding (memory ei)) (embedding (memory ej)) in
  if Qltb 0.8 sim
  then
    let qualityDiff := Qabs (quality (memory ei) - quality (memory ej)) in
    if Qltb 0.4 qualityDiff
    then
      ((if Qltb (quality (memory ei)) (quality (memory ej))
        then update_nth i set_consolidated mems
        else update_nth j set_consolidated mems),
       (contradictions + 1)%Z)
    else st
  else st.

Definition detectContradictions (b : ReasoningBank) : ReasoningBank * Z :=
  let entries := map_values (memories b) in
  let '(mems, contradictions) :=
    fold_left contradiction_step (pairs (indexed entries)) (memories b, 0%Z) in
  (set_memories b mems, contradictions).

Definition pruneOldPatterns (now : Z) (b : ReasoningBank) : ReasoningBank * Z :=
  let maxAge := maxPatternAgeDays (config b) * 24 * 60 * 60 * 1000 in
  let old (kv : string * Pattern) :=
    Qltb maxAge (inject_Z (now - updatedAt (snd kv))) && (p_usageCount (snd kv) <? 5)%Z in
  (set_patterns b (filter (fun kv => negb (old kv)) (patterns b)),
   Z.of_nat (length (filter old (patterns b)))).

(** [keep] after the three updates of the merge. *)
Definition merge_into (now : Z) (keep remove : Pattern) (removeId : string) : Pattern :=
  {| patternId := patternId keep; name := name keep; p_domain := p_domain keep;
     p_embedding := p_embedding keep; p_strategy := p_strategy keep;
     successRate := successRate keep;
     p_usageCount := (p_usageCount keep + p_usageCount remove)%Z;
     qualityHistory := qualityHistory keep ++ qualityHistory remove;
     evolutionHistory :=
       evolutionHistory keep
       ++ [{| timestamp := now; ev_type := merge;
              previousQuality := successRate keep;
              newQuality := (successRate keep + successRate remove) / 2;
              description := String.append "Merged with pattern " removeId |}];
     createdAt := createdAt keep; updatedAt := updatedAt keep |}.

(** One round of the inner loop of [mergePatterns].  [arr] is the
    snapshot array, whose pattern objects are those of the map: a
    merge updates the object in place and later rounds read it, also
    when its key has been deleted.  [deleted] collects the deleted
    keys. *)
Definition merge_step (now : Z)
    (st : list (string * Pattern) * list string * Z) (ij : nat * nat)
  : list (string * Pattern) * list string * Z :=
  let '(arr, deleted, merged) := st in
  let '(i, j) := ij in
  match nth_error arr i, nth_error arr j with
  | Some (idi, pi), Some (idj, pj) =>
      let sim := cosineSimilarity (p_embedding pi) (p_embedding pj) in
      if Qltb 0.9 sim && String.eqb (p_domain pi) (p_domain pj)
      then
        let keepIdx := if Qle_bool (successRate pj) (successRate pi) then i else j in
        let '(removeId, remove) :=
          if Qltb (successRate pi) (successRate pj) then (idi, pi) else (idj, pj) in
        (update_nth keepIdx (fun kv => (fst kv, merge_into now (snd kv) remove removeId)) arr,
         removeId :: deleted,
         (merged + 1)%Z)
      else st
  | _, _ => st
  end.

(** The map after the loops: the surviving keys, each with its
    object. *)
Definition mergePatterns (now : Z) (b : ReasoningBank) : ReasoningBank * Z :=
  let patterns0 := patterns b in
  let '(arr, deleted, merged) :=
    fold_left (merge_step now) (pairs (seq 0 (length patterns0))) (patterns0, [], 0%Z) in
  (set_patterns b
     (filter (fun kv => negb (existsb (String.eqb (fst kv)) deleted)) arr),
   merged).

Definition consolidate (now : Z) (b : ReasoningBank)
  : result (ReasoningBank * ConsolidationResult) :=
  let '(b, removedDuplicates) := deduplicateMemories b in
  let '(b, contradictionsDetected) :=
    if enableContradictionDetection (config b) then detectContradictions b else (b, 0%Z) in
  let '(b, prunedPatterns) := pruneOldPatterns now b in
  let '(b, mergedPatterns) := mergePatterns now b in
  b <- emitEvent b (memory_consolidated (length (memories b))) ;;
  Ok (b,
      {| removedDuplicates := removedDuplicates;
         contradictionsDetected := contradictionsDetected;
         prunedPatterns := prunedPatterns;
         mergedPatterns := mergedPatterns |}).

(** *** Pattern management *)

(** On ASCII strategies. *)
Definition generatePatternName (m : DistilledMemory) : string :=
  let words := firstn 4 (split_spaces (strategy m)) in
  string_filter is_name_char (string_map lower_ascii (String.concat "_" words)).

(** [trajectory?.domain || 'general']. *)
Definition inferDomain (b : ReasoningBank) (m : DistilledMemory) : string :=
  match map_get (m_trajectoryId m) (trajectories b) with
  | Some t => if String.eqb (domain t) "" then "general" else domain t
  | None => "general"
  end.

Definition memoryToPattern (now : Z) (b : ReasoningBank) (m : DistilledMemory)
  : ReasoningBank * Pattern :=
  let pattern :=
    {| patternId := String.append "pat_" (memoryId m);
       name := generatePatternName m;
       p_domain := inferDomain b m;
       p_embedding := embedding m;
       p_strategy := strategy m;
       successRate := quality m;
       p_usageCount := usageCount m;
       qualityHistory := [quality m];
       evolutionHistory := [];
       createdAt := now;
       updatedAt := now |} in
  (set_patterns b (map_set (patternId pattern) pattern (patterns b)), pattern).

Definition determineEvolutionType (prev curr : Q) : EvolutionType :=
  let delta := curr - prev in
  if Qltb 0.05 delta then improvement
  else if Qltb delta (-0.1) then prune
  else improvement.

(** The pattern object after [evolvePattern] has updated it. *)
Definition evolved (now : Z) (pattern : Pattern) (newExperience : Trajectory) : Pattern :=
  let previousQuality := successRate pattern in
  let history := qualityHistory pattern ++ [qualityScore newExperience] in
  let history := if (100 <? length history)%nat then slice_last 100 history else history in
  let rate := Qsum history / Qlen history in
  let evolutionType := determineEvolutionType previousQuality rate in
  {| patternId := patternId pattern; name := name pattern; p_domain := p_domain pattern;
     p_embedding := p_embedding pattern; p_strategy := p_strategy pattern;
     successRate := rate;
     p_usageCount := (p_usageCount pattern + 1)%Z;
     qualityHistory := history;
     evolutionHistory :=
       evolutionHistory pattern
       ++ [{| timestamp := now; ev_type := evolutionType;
              previousQuality := previousQuality;
              newQuality := rate;
              description :=
                String.append "Updated based on trajectory " (trajectoryId newExperience) |}];
     createdAt := createdAt pattern; updatedAt := now |}.

Definition evolvePattern (now : Z) (b : ReasoningBank) (patternId : string)
    (newExperience : Trajectory) : result ReasoningBank :=
  match map_get patternId (patterns b) with
  | None => Ok b
  | Some pattern =>
      let pattern' := evolved now pattern newExperience in
      let evolutionType :=
        determineEvolutionType (successRate pattern) (successRate pattern') in
      emitEvent (set_patterns b (map_set patternId pattern' (patterns b)))
        (pattern_evolved patternId evolutionType)
  end.

Definition getPatterns (b : ReasoningBank) : list Pattern := map_values (patterns b).

(** *** Trajectory management *)

Definition pruneTrajectories (b : ReasoningBank) : ReasoningBank :=
  let entries :=
    js_sort (fun a b => qualityScore (snd a) - qualityScore (snd b)) (trajectories b) in
  let toRemove :=
    (Z.of_nat (length entries)
     - Qfloor (inject_Z (maxTrajectories (config b)) * 0.8))%Z in
  set_trajectories b
    (fold_left (fun m kv => map_delete (fst kv) m)
       (firstn (Z.to_nat toRemove) entries) (trajectories b)).

Definition storeTrajectory (b : ReasoningBank) (t : Trajectory) : ReasoningBank :=
  let b := set_trajectories b (map_set (trajectoryId t) t (trajectories b)) in
  if (maxTrajectories (config b) <? Z.of_nat (length (trajectories b)))%Z
  then pruneTrajectories b
  else b.

Definition getTrajectory (b : ReasoningBank) (trajectoryId : string) : option Trajectory :=
  map_get trajectoryId (trajectories b).

Definition getTrajectories (b : ReasoningBank) : list Trajectory :=
  map_values (trajectories b).

End Model.

(** ** Closed instances for the examples *)

(** Exact on squares of rationals. *)
Definition sqrt_exact (q : Q) : Q :=
  let r := Qred q in Z.sqrt (Qnum r) # Pos.sqrt (Qden r).

(** A truncated series; exact at 0. *)
Definition exp_series (q : Q) : Q :=
  1 + q + q * q / 2 + q * q * q / 6 + q * q * q * q / 24.

Definition exact_math : MathLib := {| Math_sqrt := sqrt_exact; Math_exp := exp_series |}.

Definition mk_step (a : string) (s : list Q) (r : Q) : TrajectoryStep :=
  {| action := a; stateAfter := s; reward := r |}.

Definition mk_trajectory (id : string) (q : Q) (complete : bool) (st : list TrajectoryStep)
  : Trajectory :=
  {| trajectoryId := id; domain := "code"; startTime := 0; qualityScore := q;
     isComplete := complete; steps := st; verdict := None; distilledMemory := None |}.

(** The trajectory of the end-to-end scenario. *)
Definition scenario_trajectory : Trajectory :=
  mk_trajectory "t-scenario" 0.75 true
    [mk_step "read" [1; 0] 0.2; mk_step "plan" [0; 1] 0.8; mk_step "write" [1; 1] 0.9].

(** ** Notions used to state the properties *)

(** The number of steps with [reward > 0.5]. *)
Fixpoint positive_steps (l : list TrajectoryStep) : nat :=
  match l with
  | [] => 0
  | s :: t => if Qlt_le_dec 0.5 (reward s) then S (positive_steps t) else positive_steps t
  end.

(** The entry that [distill] stores for the judged trajectory [t1]. *)
Definition distilled_entry `{MathLib} (now : Z) (rnd : string) (t1 : Trajectory)
    (v : TrajectoryVerdict) : MemoryEntry :=
  {| memory :=
       {| memoryId := new_memoryId now rnd;
          m_trajectoryId := trajectoryId t1;
          strategy := extractStrategy t1;
          keyLearnings := extractKeyLearnings t1;
          embedding := computeAggregateEmbedding t1;
          quality := qualityScore t1;
          usageCount := 0;
          lastUsed := now |};
     trajectory := t1; e_verdict := v; consolidated := false |}.

(** The stored memories distilled from trajectory [tid]. *)
Definition memories_of (tid : string) (b : ReasoningBank) : list (string * MemoryEntry) :=
  filter (fun kv => String.eqb (m_trajectoryId (memory (snd kv))) tid) (memories b).

(** An incomplete trajectory that has not been judged, of low quality. *)
Definition incomplete_trajectory : Trajectory :=
  mk_trajectory "t-incomplete" 0.1 false [mk_step "read" [1; 0] 0.9].

(** [distill] called twice on the scenario trajectory, the second call on
    the trajectory as the first one left it. *)
Definition distill_twice : result (ReasoningBank * Trajectory * option DistilledMemory) :=
  r <- @distill exact_math 0 "k3x9q2a" (createReasoningBank DEFAULT_CONFIG) scenario_trajectory ;;
  @distill exact_math 1 "p7m4w1z" (fst (fst r)) (snd (fst r)).

(** A bank for two trajectories, filled to capacity. *)
Definition small_config : ReasoningBankConfig := {|
  maxTrajectories := 2;
  distillationThreshold := 0.6;
  retrievalK := 3;
  mmrLambda := 0.7;
  maxPatternAgeDays := 30;
  dedupThreshold := 0.95;
  enableContradictionDetection := true
|}.

Definition full_bank : ReasoningBank :=
  storeTrajectory
    (storeTrajectory (createReasoningBank small_config)
       (mk_trajectory "t-a" 0.1 true []))
    (mk_trajectory "t-b" 0.2 true []).

Definition new_trajectory : Trajectory := mk_trajectory "t-c" 0.9 true [].

(** What [console.error] prints for the listeners that throw on
    [event]. *)
Definition listener_errors (listeners : list NeuralEventListener) (event : NeuralEvent)
  : list string :=
  flat_map
    (fun listener =>
       match listener event with
       | Ok _ => []
       | Throw error => [String.append "Error in ReasoningBank event listener: " error]
       end)
    listeners.

(** What [deduplicateMemories] reads of an entry: its key, embedding and
    quality. *)
Definition dedup_view (kv : string * MemoryEntry) : string * (list Q * Q) :=
  (fst kv, (embedding (memory (snd kv)), quality (memory (snd kv)))).

(** The key that a round of [deduplicateMemories] deletes, if any. *)
Definition dedup_loser `{MathLib} (cfg : ReasoningBankConfig)
    (p : (string * (list Q * Q)) * (string * (list Q * Q))) : list string :=
  let '((ki, (emi, qi)), (kj, (emj, qj))) := p in
  if Qltb (dedupThreshold cfg) (cosineSimilarity emi emj)
  then [if Qle_bool qj qi then kj else ki]
  else [].

(** The keys deleted over the rounds [ps] of [deduplicateMemories], in
    order. *)
Definition dedup_losers `{MathLib} (cfg : ReasoningBankConfig)
    (ps : list ((string * MemoryEntry) * (string * MemoryEntry))) : list string :=
  flat_map (fun p => dedup_loser cfg (dedup_view (fst p), dedup_view (snd p))) ps.

(** The plain relevance ordering of the stored memories for a query:
    the memories by descending cosine similarity to the query, as the
    relevance-sorted scan meets them, cut at [k] ([retrievalK] when [k]
    is not given). *)
Definition relevance_ordering `{MathLib} (b : ReasoningBank) (queryEmbedding : list Q)
    (k : option Z) : list DistilledMemory :=
  let retrieveK := match k with Some k => k | None => retrievalK (config b) end in
  firstn (Z.to_nat retrieveK)
    (map (fun c => memory (fst c)) (sorted_candidates b queryEmbedding)).

(** The default configuration with [mmrLambda = 1]. *)
Definition relevance_config : ReasoningBankConfig := {|
  maxTrajectories := 5000;
  distillationThreshold := 0.6;
  retrievalK := 3;
  mmrLambda := 1;
  maxPatternAgeDays := 30;
  dedupThreshold := 0.95;
  enableContradictionDetection := true
|}.

(** A complete one-step trajectory: its memory has the state of the step
    as embedding and [q] as quality. *)
Definition one_step (id : string) (q : Q) (state : list Q) : Trajectory :=
  mk_trajectory id q true [mk_step "solve" state 1].

(** The bank after [distill] on each trajectory of [ts], in order; every
    call reads the clock at 0 and the [i]-th draws the suffix [r<i>]. *)
Fixpoint distill_all (b : ReasoningBank) (i : Z) (ts : list Trajectory) : ReasoningBank :=
  match ts with
  | [] => b
  | t :: ts' =>
      match @distill exact_math 0 (String.append "r" (string_of_Z i)) b t with
      | Ok (b', _, _) => distill_all b' (i + 1)%Z ts'
      | Throw _ => b
      end
  end.

(** Three memories, stored in ascending relevance to the query
    [[1; 0]]. *)
Definition relevance_bank : ReasoningBank :=
  distill_all (createReasoningBank relevance_config) 0
    [one_step "t-far" 0.7 [0; 1]; one_step "t-near" 0.8 [12; 5]; one_step "t-same" 0.9 [5; 0]].

(** The default configuration with a distillation threshold of 0.1. *)
Definition lenient_config : ReasoningBankConfig := {|
  maxTrajectories := 5000;
  distillationThreshold := 0.1;
  retrievalK := 3;
  mmrLambda := 0.7;
  maxPatternAgeDays := 30;
  dedupThreshold := 0.95;
  enableContradictionDetection := true
|}.

(** Two memories of cosine similarity 12/13 and qualities 0.9 and 0.2. *)
Definition contradiction_bank : ReasoningBank :=
  distill_all (createReasoningBank lenient_config) 0
    [one_step "t-good" 0.9 [5; 0]; one_step "t-bad" 0.2 [12; 5]].

(** The arithmetic mean of a quality history. *)
Definition mean (l : list Q) : Q := Qsum l / Qlen l.

(** [memoryToPattern] on every stored memory, in order. *)
Definition promote_all (now : Z) (b : ReasoningBank) : ReasoningBank :=
  fold_left (fun b kv => fst (memoryToPattern now b (memory (snd kv)))) (memories b) b.

(** Two patterns of the same embedding and domain, promoted from
    memories of quality 0.9 and 0.7. *)
Definition pattern_bank : ReasoningBank :=
  promote_all 2
    (distill_all (createReasoningBank DEFAULT_CONFIG) 0
       [one_step "t-1" 0.9 [5; 0]; one_step "t-2" 0.7 [5; 0]]).

(** A listener that always throws. *)
Definition failing_listener : NeuralEventListener := fun _ => Throw "listener failed".

(** An entry with its [consolidated] flag cleared. *)
Definition clear_consolidated (e : MemoryEntry) : MemoryEntry :=
  {| memory := memory e; trajectory := trajectory e; e_verdict := e_verdict e;
     consolidated := false |}.

(** The bank with the [consolidated] flag of every memory cleared. *)
Definition clear_flags (b : ReasoningBank) : ReasoningBank :=
  {| config := config b; trajectories := trajectories b;
     memories := map (fun kv => (fst kv, clear_consolidated (snd kv))) (memories b);
     patterns := patterns b; eventListeners := eventListeners b;
     retrievalCount := retrievalCount b; distillationCount := distillationCount b;
     console := console b |}.

(** The [consolidated] flag of the [i]-th stored memory. *)
Definition flag_at (mems : list (string * MemoryEntry)) (i : nat) : bool :=
  match nth_error mems i with
  | Some kv => consolidated (snd kv)
  | None => false
  end.

(** ** MemoryGraph: the PageRank pass *)

Module MemoryGraph.

(** Modelled from the spec: a node of the graph, the id of a memory
    entry with its optional category and embedding. *)
Record Node : Type := {
  id : string;
  category : option string;
  node_embedding : option (list Q)
}.

(** Modelled from the spec: a directed, typed, weighted edge. *)
Record Edge : Type := {
  source : string;
  target : string;
  edge_type : string;
  weight : Q
}.

(** Modelled from the spec: the configuration of a [MemoryGraph]; the
    spec leaves the iteration cap and the convergence threshold to the
    implementation. *)
Record Config : Type := {
  maxNodes : nat;
  pageRankDamping : Q;
  maxIterations : nat;
  convergenceThreshold : Q
}.

(** Modelled from the spec: the state of a [MemoryGraph], the class of
    [memory-graph.ts]: the nodes in insertion order, the directed edges
    (at most one per ordered pair), the cached ranks and the flag that
    tells whether they are valid. *)
Record Graph : Type := {
  graph_config : Config;
  nodes : list Node;
  edges : list Edge;
  pageRanks : list (string * Q);
  pageRankComputed : bool
}.

Definition empty (cfg : Config) : Graph :=
  {| graph_config := cfg; nodes := []; edges := []; pageRanks := [];
     pageRankComputed := false |}.

Definition node_ids (g : Graph) : list string := map id (nodes g).

Definition has_node (g : Graph) (i : string) : bool :=
  existsb (String.eqb i) (node_ids g).

(** Modelled from the spec: [MemoryGraph.addNode].  Re-adding an existing
    id refreshes the node in place; a new id is dropped at capacity; the
    caches become dirty. *)
Definition addNode (g : Graph) (n : Node) : Graph :=
  if has_node g (id n)
  then {| graph_config := graph_config g;
          nodes := map (fun m => if String.eqb (id m) (id n) then n else m) (nodes g);
          edges := edges g; pageRanks := pageRanks g; pageRankComputed := false |}
  else if (maxNodes (graph_config g) <=? length (nodes g))%nat then g
  else {| graph_config := graph_config g;
          nodes := nodes g ++ [n];
          edges := edges g; pageRanks := pageRanks g; pageRankComputed := false |}.

(** Modelled from the spec: [MemoryGraph.addEdge].  Nothing happens when
    an end is absent; an existing edge of the pair keeps the larger
    weight. *)
Definition addEdge (g : Graph) (src dst ty : string) (w : Q) : Graph :=
  if negb (has_node g src && has_node g dst) then g
  else
    let same (e : Edge) := String.eqb (source e) src && String.eqb (target e) dst in
    {| graph_config := graph_config g;
       nodes := nodes g;
       edges :=
         if existsb same (edges g)
         then map (fun e =>
                     if same e
                     then {| source := source e; target := target e;
                             edge_type := edge_type e; weight := Qmax (weight e) w |}
                     else e)
                (edges g)
         else edges g ++ [{| source := src; target := dst; edge_type := ty; weight := w |}];
       pageRanks := pageRanks g;
       pageRankComputed := false |}.

(** Modelled from the spec: [MemoryGraph.removeNode].  The node goes with
    every edge that leaves or enters it and with its cached rank. *)
Definition removeNode (g : Graph) (i : string) : Graph :=
  if negb (has_node g i) then g
  else
    {| graph_config := graph_config g;
       nodes := filter (fun n => negb (String.eqb (id n) i)) (nodes g);
       edges :=
         filter (fun e => negb (String.eqb (source e) i || String.eqb (target e) i))
           (edges g);
       pageRanks := map_delete i (pageRanks g);
       pageRankComputed := false |}.

(** The sum of [f] over [l]. *)
Definition sumQ {A : Type} (f : A -> Q) (l : list A) : Q :=
  fold_right (fun x acc => f x + acc) 0 l.

Definition rank_of (ranks : list (string * Q)) (i : string) : Q :=
  match map_get i ranks with
  | Some r => r
  | None => 0
  end.

(** Modelled from the spec: the number of edges that leave [i]. *)
Definition outDegree (g : Graph) (i : string) : nat :=
  length (filter (fun e => String.eqb (source e) i) (edges g)).

(** Modelled from the spec: the predecessors of [i], the sources of the
    edges that enter it. *)
Definition predecessors (g : Graph) (i : string) : list string :=
  map source (filter (fun e => String.eqb (target e) i) (edges g)).

(** Modelled from the spec: the rank held by the dangling nodes, those
    without outgoing edge. *)
Definition danglingMass (g : Graph) (ranks : list (string * Q)) : Q :=
  sumQ (fun i => if (outDegree g i =? 0)%nat then rank_of ranks i else 0) (node_ids g).

(** Modelled from the spec: one round of the power iteration of
    [MemoryGraph.computePageRank]: a node receives [(1 - d) / N], plus [d]
    times what its predecessors send it, [rank / outDegree] each, and
    its uniform share of the rank of the dangling nodes. *)
Definition pageRankRound (g : Graph) (ranks : list (string * Q)) : list (string * Q) :=
  let d := pageRankDamping (graph_config g) in
  let N := Qlen (nodes g) in
  map
    (fun i =>
       (i,
        (1 - d) / N
        + d * (sumQ (fun u => rank_of ranks u / inject_Z (Z.of_nat (outDegree g u)))
                 (predecessors g i)
               + danglingMass g ranks / N)))
    (node_ids g).

(** Modelled from the spec: the total L1 change between two rounds. *)
Definition l1_change (g : Graph) (old new : list (string * Q)) : Q :=
  sumQ (fun i => Qabs (rank_of new i - rank_of old i)) (node_ids g).

(** Modelled from the spec: the rounds of [computePageRank], until the
    change falls below the threshold or [remaining] rounds have run. *)
Fixpoint pageRankIterate (g : Graph) (remaining : nat) (ranks : list (string * Q))
  : list (string * Q) :=
  match remaining with
  | O => ranks
  | S remaining' =>
      let next := pageRankRound g ranks in
      if Qltb (l1_change g ranks next) (convergenceThreshold (graph_config g))
      then next
      else pageRankIterate g remaining' next
  end.

(** Modelled from the spec: the ranks that [MemoryGraph.computePageRank]
    returns: none for the empty graph, else the power iteration from
    the uniform ranks [1 / N]. *)
Definition pageRankValues (g : Graph) : list (string * Q) :=
  match nodes g with
  | [] => []
  | _ =>
      pageRankIterate g (maxIterations (graph_config g))
        (map (fun i => (i, 1 / Qlen (nodes g))) (node_ids g))
  end.

(** Modelled from the spec: [MemoryGraph.computePageRank], which also
    caches the ranks and marks them valid. *)
Definition computePageRank (g : Graph) : Graph * list (string * Q) :=
  let ranks := pageRankValues g in
  ({| graph_config := graph_config g; nodes := nodes g; edges := edges g;
      pageRanks := ranks; pageRankComputed := true |},
   ranks).

(** Modelled from the spec: the invariants of the data model: node ids
    are distinct and every edge joins two nodes of the graph. *)
Definition well_formed (g : Graph) : Prop :=
  NoDup (node_ids g)
  /\ Forall (fun e => In (source e) (node_ids g) /\ In (target e) (node_ids g)) (edges g).

Definition default_config : Config :=
  {| maxNodes := 5000; pageRankDamping := 0.85; maxIterations := 50;
     convergenceThreshold := 0.000001 |}.

Definition mk_node (i : string) : Node :=
  {| id := i; category := None; node_embedding := None |}.

(** The graph of the test with two disconnected components. *)
Definition two_components : Graph :=
  let g := fold_left addNode (map mk_node ["a"; "b"; "c"; "d"]) (empty default_config) in
  addEdge (addEdge g "a" "b" "reference" 1) "c" "d" "reference" 1.

Definition single_node : Graph := addNode (empty default_config) (mk_node "a").

End MemoryGraph.


(** ** Further notions, for the properties of the operations *)

(** [l[i]] is the first element of [l] where [f] is greatest, and [v]
    is that value. *)
Definition first_best {A : Type} (f : A -> Q) (l : list A) (i : nat) (v : Q) : Prop :=
  exists c,
    nth_error l i = Some c /\ v = f c
    /\ (forall c', In c' l -> f c' <= v)
    /\ (forall j c', (j < i)%nat -> nth_error l j = Some c' -> f c' < v).



(** A complete trajectory of low quality with a declining reward. *)
Definition weak_trajectory : Trajectory :=
  mk_trajectory "t-weak" 0.3 true
    [mk_step "a" [1] 0.6; mk_step "b" [1] 0.1; mk_step "c" [1] 0.1].

(** Three memories of the same embedding and decreasing quality. *)
Definition triple_bank : ReasoningBank :=
  distill_all (createReasoningBank DEFAULT_CONFIG) 0
    [one_step "t-1" 0.9 [5; 0]; one_step "t-2" 0.8 [5; 0]; one_step "t-3" 0.7 [5; 0]].

(** The memory at [x] is the lower-quality member of a contradictory
    pair of the store [m]. *)
Definition contradicted `{MathLib} (m : list (string * MemoryEntry)) (x : nat) : Prop :=
  exists y kx ky,
    nth_error m x = Some kx /\ nth_error m y = Some ky
    /\ quality (memory (snd kx)) < quality (memory (snd ky))
    /\ 0.4 < quality (memory (snd ky)) - quality (memory (snd kx))
    /\ 0.8 < cosineSimilarity (embedding (memory (snd kx))) (embedding (memory (snd ky))).

(** [new] is [old] after merges: the same pattern, its success rate
    included, with longer histories. *)
Definition pattern_extends (old new : Pattern) : Prop :=
  patternId new = patternId old /\ name new = name old /\ p_domain new = p_domain old
  /\ p_embedding new = p_embedding old /\ p_strategy new = p_strategy old
  /\ successRate new = successRate old
  /\ createdAt new = createdAt old /\ updatedAt new = updatedAt old
  /\ (exists q, qualityHistory new = qualityHistory old ++ q)
  /\ (exists e, evolutionHistory new = evolutionHistory old ++ e).

(** The test of [pruneOldPatterns]: last updated more than
    [maxPatternAgeDays] ago and used fewer than five times. *)
Definition stale_pattern (cfg : ReasoningBankConfig) (now : Z) (kv : string * Pattern) : bool :=
  Qltb (maxPatternAgeDays cfg * 24 * 60 * 60 * 1000) (inject_Z (now - updatedAt (snd kv)))
  && (p_usageCount (snd kv) <? 5)%Z.

(** The banks that the operations of the class build from a new bank of
    configuration [cfg]. *)
Inductive reachable `{MathLib} (cfg : ReasoningBankConfig) : ReasoningBank -> Prop :=
| reach_new : reachable cfg (createReasoningBank cfg)
| reach_storeTrajectory b t :
    reachable cfg b -> reachable cfg (storeTrajectory b t)
| reach_retrieve b queryEmbedding k :
    reachable cfg b -> reachable cfg (fst (retrieve b queryEmbedding k))
| reach_distill b now rnd t b' t' om :
    reachable cfg b -> distill now rnd b t = Ok (b', t', om) -> reachable cfg b'
| reach_consolidate b now b' r :
    reachable cfg b -> consolidate now b = Ok (b', r) -> reachable cfg b'
| reach_memoryToPattern b now m :
    reachable cfg b -> reachable cfg (fst (memoryToPattern now b m))
| reach_evolvePattern b now id t b' :
    reachable cfg b -> evolvePattern now b id t = Ok b' -> reachable cfg b'
| reach_addEventListener b listener :
    reachable cfg b -> reachable cfg (addEventListener b listener).

(** A stored memory as [distill] made it: filed under its own id, never
    used, of a successful verdict and a quality that passed the
    threshold. *)
Definition memory_entry_ok (cfg : ReasoningBankConfig) (kv : string * MemoryEntry) : Prop :=
  memoryId (memory (snd kv)) = fst kv
  /\ usageCount (memory (snd kv)) = 0%Z
  /\ success (e_verdict (snd kv)) = true
  /\ distillationThreshold cfg <= quality (memory (snd kv)).

(** A stored pattern: filed under its own id, with at least one quality
    sample. *)
Definition pattern_entry_ok (kv : string * Pattern) : Prop :=
  patternId (snd kv) = fst kv /\ qualityHistory (snd kv) <> [].

(** The same key, memory and verdict; the [consolidated] flag may
    differ. *)
Definition same_memory (old new : string * MemoryEntry) : Prop :=
  fst new = fst old /\ memory (snd new) = memory (snd old)
  /\ e_verdict (snd new) = e_verdict (snd old).

(** * Facts about the embedding *)

(** ** Numbers *)

Lemma Qltb_lt (x y : Q) : Qltb x y = true <-> x < y.
Proof.
  unfold Qltb. rewrite negb_true_iff.
  split; intro H.
  - apply Qnot_le_lt. intro Hle. apply Qle_bool_iff in Hle. congruence.
  - destruct (Qle_bool y x) eqn:E; [|reflexivity].
    apply Qle_bool_iff in E. exfalso. exact (Qlt_not_le _ _ H E).
Qed.

Lemma Qltb_ge (x y : Q) : Qltb x y = false <-> y <= x.
Proof.
  unfold Qltb. rewrite negb_false_iff. apply Qle_bool_iff.
Qed.


(** A ratio of two counts exceeds 0.6 exactly when the counts do. *)
Lemma ratio_gt_06 (c n : nat) :
  (0 < n)%nat ->
  (0.6 < inject_Z (Z.of_nat c) / inject_Z (Z.of_nat n)
   <-> (6 * Z.of_nat n < 10 * Z.of_nat c)%Z).
Proof.
  intro Hn.
  assert (Hpos : 0 < inject_Z (Z.of_nat n)).
  { change 0 with (inject_Z 0). rewrite <- Zlt_Qlt. lia. }
  assert (Hnz : ~ inject_Z (Z.of_nat n) == 0).
  { intro E. rewrite E in Hpos. exact (Qlt_irrefl _ Hpos). }
  split; intro H.
  - assert (H2 : 0.6 * inject_Z (Z.of_nat n) < inject_Z (Z.of_nat c)).
    { setoid_replace (inject_Z (Z.of_nat c))
        with (inject_Z (Z.of_nat c) / inject_Z (Z.of_nat n) * inject_Z (Z.of_nat n))
        by (field; exact Hnz).
      apply Qmult_lt_compat_r; assumption. }
    unfold Qlt in H2. cbn -[Z.mul Z.of_nat] in H2. lia.
  - apply Qlt_shift_div_l; [exact Hpos|].
    unfold Qlt. cbn -[Z.mul Z.of_nat]. lia.
Qed.

(** ** judge *)

Lemma positive_steps_filter (l : list TrajectoryStep) :
  length (filter (fun s => Qltb 0.5 (reward s)) l) = positive_steps l.
Proof.
  induction l as [|s t IH]; simpl; [reflexivity|].
  destruct (Qlt_le_dec 0.5 (reward s)) as [Hlt|Hle].
  - apply Qltb_lt in Hlt. rewrite Hlt. simpl. now rewrite IH.
  - apply Qltb_ge in Hle. rewrite Hle. exact IH.
Qed.

Lemma positiveRatio_gt_06 `{MathLib} (l : list TrajectoryStep) :
  Qltb 0.6 (positiveRatio (analyzeSteps l)) = true
  <-> (6 * Z.of_nat (length l) < 10 * Z.of_nat (positive_steps l))%Z.
Proof.
  unfold analyzeSteps. cbn [positiveRatio]. rewrite positive_steps_filter.
  destruct (0 <? length l)%nat eqn:E.
  - apply Nat.ltb_lt in E. rewrite Qltb_lt. unfold Qlen. now apply ratio_gt_06.
  - apply Nat.ltb_ge in E. assert (length l = 0%nat) as -> by lia.
    split; [intro H0; discriminate H0|].
    assert (Hp : (positive_steps l <= length l)%nat).
    { rewrite <- positive_steps_filter. apply filter_length_le. }
    lia.
Qed.

(** C5: on a complete trajectory [judge] returns a verdict, and the
    verdict has [success = true] exactly when [qualityScore >=
    distillationThreshold] and more than 0.6 of the steps have [reward >
    0.5] (stated on the two counts: [6 * steps < 10 * positive steps],
    false when there is no step).  In particular a trajectory with the
    three rewards 0.2, 0.8, 0.9 and quality 0.75 is a success under
    threshold 0.6. *)
Theorem judge_success_iff `{MathLib} (cfg : ReasoningBankConfig) (now : Z) (t : Trajectory) :
  isComplete t = true ->
  exists v,
    judge cfg now t = Ok (v, set_verdict t v)
    /\ (success v = true
        <-> distillationThreshold cfg <= qualityScore t
            /\ (6 * Z.of_nat (length (steps t)) < 10 * Z.of_nat (positive_steps (steps t)))%Z)
    /\ (map reward (steps t) = [0.2; 0.8; 0.9] ->
        qualityScore t = 0.75 ->
        distillationThreshold cfg = 0.6 ->
        success v = true).
Proof.
  intro Hc. unfold judge. rewrite Hc. cbn [negb].
  eexists. split; [reflexivity|].
  cbn [success].
  assert (Hiff :
    Qle_bool (distillationThreshold cfg) (qualityScore t)
    && Qltb 0.6 (positiveRatio (analyzeSteps (steps t))) = true
    <-> distillationThreshold cfg <= qualityScore t
        /\ (6 * Z.of_nat (length (steps t)) < 10 * Z.of_nat (positive_steps (steps t)))%Z).
  { rewrite andb_true_iff, Qle_bool_iff, positiveRatio_gt_06. reflexivity. }
  split; [exact Hiff|].
  intros Hr Hq Ht. apply Hiff. rewrite Hq, Ht. split.
  - unfold Qle. simpl. lia.
  - destruct (steps t) as [|s1 [|s2 [|s3 [|s4 l]]]]; try discriminate Hr.
    injection Hr as H1 H2 H3. simpl. rewrite H1, H2, H3.
    destruct (Qlt_le_dec 0.5 0.2) as [Hbad|_]; [discriminate Hbad|].
    destruct (Qlt_le_dec 0.5 0.8) as [_|Hbad]; [|exfalso; apply Hbad; reflexivity].
    destruct (Qlt_le_dec 0.5 0.9) as [_|Hbad]; [|exfalso; apply Hbad; reflexivity].
    simpl. lia.
Qed.

Lemma judge_success_iff_witness :
  isComplete scenario_trajectory = true
  /\ exists v,
       @judge exact_math DEFAULT_CONFIG 0 scenario_trajectory
       = Ok (v, set_verdict scenario_trajectory v)
       /\ success v = true.
Proof.
  split; [reflexivity|].
  destruct (@judge_success_iff exact_math DEFAULT_CONFIG 0 scenario_trajectory eq_refl)
    as [v [Hj [_ Hs]]].
  exists v. split; [exact Hj|].
  apply Hs; reflexivity.
Defined.

(** ** The map operations *)

Section JSMapFacts.
Context {V : Type}.
Implicit Types (m : list (string * V)) (k : string) (v : V).

Lemma map_get_set_same m k v : map_get k (map_set k v m) = Some v.
Proof.
  induction m as [|[k' v'] t IH]; simpl.
  - now rewrite String.eqb_refl.
  - destruct (String.eqb k k') eqn:E; simpl.
    + now rewrite String.eqb_refl.
    + now rewrite E.
Qed.

Lemma map_get_In m k v : map_get k m = Some v -> In (k, v) m.
Proof.
  induction m as [|[k' v'] t IH]; simpl; [discriminate|].
  destruct (String.eqb k k') eqn:E.
  - apply String.eqb_eq in E. subst k'. intro He. injection He as ->. now left.
  - intro He. right. auto.
Qed.

Lemma map_get_None_notin m k : map_get k m = None <-> ~ In k (map_keys m).
Proof.
  induction m as [|[k' v'] t IH]; simpl.
  - split; [intros _ []|reflexivity].
  - destruct (String.eqb k k') eqn:E.
    + apply String.eqb_eq in E. subst. split; [discriminate|]. intro Hn. exfalso. auto.
    + apply String.eqb_neq in E. rewrite IH. split.
      * intros Hn [Heq|Hin]; [congruence|auto].
      * intros Hn Hin. auto.
Qed.

(** A fresh key goes to the end. *)
Lemma map_set_fresh m k v : map_get k m = None -> map_set k v m = m ++ [(k, v)].
Proof.
  induction m as [|[k' v'] t IH]; simpl; [reflexivity|].
  destruct (String.eqb k k'); [discriminate|].
  intro Hn. now rewrite IH.
Qed.
End JSMapFacts.

(** ** distill *)

Lemma judge_if_needed_verdict `{MathLib} cfg now t :
  (verdict t = None -> isComplete t = true) ->
  exists t1 v,
    judge_if_needed cfg now t = Ok t1 /\ verdict t1 = Some v
    /\ qualityScore t1 = qualityScore t /\ trajectoryId t1 = trajectoryId t
    /\ (forall v0, verdict t = Some v0 -> t1 = t).
Proof.
  intro Hc. unfold judge_if_needed.
  destruct (verdict t) as [v0|] eqn:Ev.
  - exists t, v0. repeat split; auto.
  - unfold judge. rewrite (Hc eq_refl). cbn [negb bind snd].
    eexists _, _. repeat split; try reflexivity. intros v0 Hv0. discriminate Hv0.
Qed.

Lemma distill_unfold `{MathLib} now rnd b t t1 v :
  judge_if_needed (config b) now t = Ok t1 ->
  verdict t1 = Some v ->
  distill now rnd b t =
    if negb (success v) || Qltb (qualityScore t1) (distillationThreshold (config b))
    then Ok (b, t1, None)
    else
      let e := distilled_entry now rnd t1 v in
      Ok (incr_distillationCount
            (set_memories b (map_set (new_memoryId now rnd) e (memories b))),
          set_distilledMemory t1 (memory e), Some (memory e)).
Proof.
  intros Hj Hv. unfold distill. rewrite Hj. cbn [bind]. rewrite Hv. reflexivity.
Qed.

(** [distill] on a trajectory that [judge] accepts or that is already
    judged. *)
Lemma distill_gating_judged `{MathLib} (now : Z) (rnd : string) (b : ReasoningBank)
    (t : Trajectory) :
  (verdict t = None -> isComplete t = true) ->
  exists t1 v,
    judge_if_needed (config b) now t = Ok t1 /\ verdict t1 = Some v
    /\ ((exists b' t', distill now rnd b t = Ok (b', t', None))
        <-> (success v = false \/ qualityScore t < distillationThreshold (config b)))
    /\ (success v = false \/ qualityScore t < distillationThreshold (config b) ->
        distill now rnd b t = Ok (b, t1, None))
    /\ (~ (success v = false \/ qualityScore t < distillationThreshold (config b)) ->
        exists b' m,
          distill now rnd b t = Ok (b', set_distilledMemory t1 m, Some m)
          /\ map_get (memoryId m) (memories b') = Some (distilled_entry now rnd t1 v)
          /\ memory (distilled_entry now rnd t1 v) = m).
Proof.
  intro Hc.
  destruct (judge_if_needed_verdict (config b) now t Hc) as [t1 [v [Hj [Hv [Hq _]]]]].
  exists t1, v. split; [exact Hj|]. split; [exact Hv|].
  rewrite (distill_unfold now rnd b t t1 v Hj Hv). rewrite Hq.
  destruct (negb (success v) || Qltb (qualityScore t) (distillationThreshold (config b)))
    eqn:Eg.
  - assert (Hgate : success v = false
                    \/ qualityScore t < distillationThreshold (config b)).
    { apply orb_true_iff in Eg as [Hs|Hl].
      - left. now apply negb_true_iff.
      - right. now apply Qltb_lt. }
    split; [|split].
    + split; [intros _; exact Hgate|intros _; eauto].
    + intros _. reflexivity.
    + intro Hn. contradiction.
  - assert (Hgate : ~ (success v = false
                       \/ qualityScore t < distillationThreshold (config b))).
    { apply orb_false_iff in Eg as [Hs Hl]. apply negb_false_iff in Hs.
      intros [Hs'|Hl']; [congruence|].
      apply Qltb_lt in Hl'. congruence. }
    split; [|split].
    + split; [intros [b' [t' Hd]]; discriminate Hd|intro Hg; contradiction].
    + intro Hg. contradiction.
    + intros _. eexists _, _. split; [reflexivity|].
      split; [|reflexivity].
      cbn [memories set_memories incr_distillationCount distilled_entry memory memoryId].
      apply map_get_set_same.
Qed.

Lemma distill_incomplete `{MathLib} (now : Z) (rnd : string) (b : ReasoningBank)
    (t : Trajectory) :
  verdict t = None -> isComplete t = false ->
  distill now rnd b t = Throw "Cannot judge incomplete trajectory".
Proof.
  intros Hv Hc. unfold distill, judge_if_needed, judge. rewrite Hv, Hc. reflexivity.
Qed.

(** C6, as the code has it: when the trajectory carries a verdict or is
    complete, [distill] returns normally; it returns [null], leaving the
    bank as it was, exactly when the verdict (the one [judge] computes
    when none is attached) has [success = false] or [qualityScore <
    distillationThreshold]; otherwise it returns the memory it has
    stored.  On an incomplete trajectory without verdict it fails with
    the error of [judge]. *)
Theorem distill_gating `{MathLib} (now : Z) (rnd : string) (b : ReasoningBank)
    (t : Trajectory) :
  ((verdict t = None -> isComplete t = true) ->
   exists t1 v,
     judge_if_needed (config b) now t = Ok t1 /\ verdict t1 = Some v
     /\ ((exists b' t', distill now rnd b t = Ok (b', t', None))
         <-> (success v = false \/ qualityScore t < distillationThreshold (config b)))
     /\ (success v = false \/ qualityScore t < distillationThreshold (config b) ->
         distill now rnd b t = Ok (b, t1, None))
     /\ (~ (success v = false \/ qualityScore t < distillationThreshold (config b)) ->
         exists b' m,
           distill now rnd b t = Ok (b', set_distilledMemory t1 m, Some m)
           /\ map_get (memoryId m) (memories b') = Some (distilled_entry now rnd t1 v)
           /\ memory (distilled_entry now rnd t1 v) = m))
  /\ (verdict t = None -> isComplete t = false ->
      distill now rnd b t = Throw "Cannot judge incomplete trajectory").
Proof.
  split.
  - apply distill_gating_judged.
  - apply distill_incomplete.
Qed.

Lemma distill_gating_witness :
  (verdict scenario_trajectory = None -> isComplete scenario_trajectory = true)
  /\ exists b' t' m,
       @distill exact_math 0 "k3x9q2a" (createReasoningBank DEFAULT_CONFIG) scenario_trajectory
       = Ok (b', t', Some m).
Proof.
  split; [reflexivity|].
  destruct (proj1 (@distill_gating exact_math 0 "k3x9q2a"
                     (createReasoningBank DEFAULT_CONFIG) scenario_trajectory)
              (fun _ => eq_refl))
    as [t1 [v [Hj [Hv [_ [_ Hsome]]]]]].
  injection Hj as <-. injection Hv as <-.
  destruct Hsome as [b' [m [Hd _]]].
  - intros [Hs|Hq]; [discriminate Hs|discriminate Hq].
  - eauto.
Defined.

(** C6 as stated fails: an incomplete trajectory without verdict, of
    quality below the threshold, does not make [distill] return [null];
    the call fails with the error of [judge]. *)
Lemma distill_incomplete_throws :
  qualityScore incomplete_trajectory < distillationThreshold DEFAULT_CONFIG
  /\ @distill exact_math 0 "k3x9q2a" (createReasoningBank DEFAULT_CONFIG) incomplete_trajectory
     = Throw "Cannot judge incomplete trajectory"
  /\ ~ (exists b' t',
          @distill exact_math 0 "k3x9q2a" (createReasoningBank DEFAULT_CONFIG)
            incomplete_trajectory = Ok (b', t', None)).
Proof.
  split; [reflexivity|]. split; [reflexivity|].
  intros [b' [t' Hd]]. discriminate Hd.
Qed.

Lemma distill_Some_inv `{MathLib} now rnd b t b1 t1 m :
  distill now rnd b t = Ok (b1, t1, Some m) ->
  exists t0 v,
    judge_if_needed (config b) now t = Ok t0 /\ verdict t0 = Some v
    /\ negb (success v) || Qltb (qualityScore t0) (distillationThreshold (config b)) = false
    /\ b1 = incr_distillationCount
              (set_memories b
                 (map_set (new_memoryId now rnd) (distilled_entry now rnd t0 v) (memories b)))
    /\ t1 = set_distilledMemory t0 m
    /\ m = memory (distilled_entry now rnd t0 v)
    /\ trajectoryId t0 = trajectoryId t.
Proof.
  intro Hd.
  assert (Hc : verdict t = None -> isComplete t = true).
  { intro Hv. destruct (isComplete t) eqn:Ec; [reflexivity|].
    rewrite (distill_incomplete now rnd b t Hv Ec) in Hd. discriminate Hd. }
  destruct (judge_if_needed_verdict (config b) now t Hc) as [t0 [v [Hj [Hv [_ [Hid _]]]]]].
  exists t0, v. rewrite (distill_unfold now rnd b t t0 v Hj Hv) in Hd.
  destruct (negb (success v) || Qltb (qualityScore t0) (distillationThreshold (config b)));
    [discriminate Hd|].
  cbv zeta in Hd. injection Hd as Hb Ht Hm.
  repeat split; auto. now rewrite <- Hm.
Qed.

(** C4, as the code has it: [distill] has no guard against a second
    call.  After a call that returned a memory, a further call on the
    same trajectory returns a new memory under the newly generated
    [memoryId], and, when that id is not yet a key of the store, adds it
    as one more memory of the same [trajectoryId], next to the first. *)
Theorem distill_again `{MathLib} (now : Z) (rnd : string) (b : ReasoningBank) (t : Trajectory)
    (b1 : ReasoningBank) (t1 : Trajectory) (m : DistilledMemory) (now' : Z) (rnd' : string) :
  distill now rnd b t = Ok (b1, t1, Some m) ->
  map_get (new_memoryId now' rnd') (memories b1) = None ->
  exists b2 m' e',
    distill now' rnd' b1 t1 = Ok (b2, set_distilledMemory t1 m', Some m')
    /\ memory e' = m'
    /\ memoryId m' = new_memoryId now' rnd'
    /\ m_trajectoryId m' = trajectoryId t
    /\ In (memoryId m) (map_keys (memories_of (trajectoryId t) b1))
    /\ memories_of (trajectoryId t) b2
       = memories_of (trajectoryId t) b1 ++ [(memoryId m', e')].
Proof.
  intros Hd Hfresh.
  destruct (distill_Some_inv _ _ _ _ _ _ _ Hd) as [t0 [v [Hj [Hv [Hg [Hb1 [Ht1 [Hm Hid]]]]]]]].
  assert (Hv1 : verdict t1 = Some v) by (rewrite Ht1; exact Hv).
  assert (Hj1 : judge_if_needed (config b1) now' t1 = Ok t1).
  { unfold judge_if_needed. now rewrite Hv1. }
  assert (Hcfg : config b1 = config b) by (rewrite Hb1; reflexivity).
  assert (Hq1 : qualityScore t1 = qualityScore t0) by (rewrite Ht1; reflexivity).
  assert (Hid1 : trajectoryId t1 = trajectoryId t) by (rewrite Ht1; exact Hid).
  rewrite (distill_unfold now' rnd' b1 t1 t1 v Hj1 Hv1).
  rewrite Hcfg, Hq1, Hg. cbv zeta.
  eexists _, _, (distilled_entry now' rnd' t1 v).
  split; [reflexivity|]. split; [reflexivity|]. split; [reflexivity|].
  split; [exact Hid1|]. split.
  - unfold map_keys, memories_of. apply in_map_iff.
    exists (memoryId m, distilled_entry now rnd t0 v). split; [reflexivity|].
    apply filter_In. split.
    + rewrite Hb1. cbn [memories set_memories incr_distillationCount].
      assert (Hk : memoryId m = new_memoryId now rnd) by (rewrite Hm; reflexivity).
      rewrite Hk.
      apply map_get_In, map_get_set_same.
    + cbn [snd distilled_entry memory m_trajectoryId]. rewrite Hid. apply String.eqb_refl.
  - unfold memories_of. cbn [memories set_memories incr_distillationCount].
    rewrite (map_set_fresh _ _ _ Hfresh), filter_app. f_equal.
    cbn [filter snd distilled_entry memory m_trajectoryId memoryId].
    rewrite Hid1, String.eqb_refl. reflexivity.
Qed.

Lemma distill_again_witness :
  exists b1 t1 m b2 m',
    @distill exact_math 0 "k3x9q2a" (createReasoningBank DEFAULT_CONFIG) scenario_trajectory
    = Ok (b1, t1, Some m)
    /\ map_get (new_memoryId 1 "p7m4w1z") (memories b1) = None
    /\ @distill exact_math 1 "p7m4w1z" b1 t1 = Ok (b2, set_distilledMemory t1 m', Some m')
    /\ length (memories_of "t-scenario" b2) = 2%nat.
Proof.
  destruct (@distill exact_math 0 "k3x9q2a" (createReasoningBank DEFAULT_CONFIG)
              scenario_trajectory) as [[[b1 t1] [m|]]|] eqn:Hd;
    try (exfalso; vm_compute in Hd; discriminate Hd).
  assert (Hfresh : map_get (new_memoryId 1 "p7m4w1z") (memories b1) = None).
  { vm_compute in Hd. injection Hd as <- _ _. reflexivity. }
  destruct (@distill_again exact_math 0 "k3x9q2a" (createReasoningBank DEFAULT_CONFIG)
              scenario_trajectory b1 t1 m 1 "p7m4w1z" Hd Hfresh)
    as [b2 [m' [e' [Hd2 [_ [_ [_ [Hin Hmem]]]]]]]].
  exists b1, t1, m, b2, m'.
  split; [reflexivity|]. split; [exact Hfresh|]. split; [exact Hd2|].
  change (trajectoryId scenario_trajectory) with "t-scenario" in Hmem.
  rewrite Hmem, length_app. cbn [length].
  vm_compute in Hd. injection Hd as <- _ _. reflexivity.
Defined.

(** C4 as stated fails: two calls on the same trajectory leave two
    memories of that trajectory in the store. *)
Lemma distill_twice_two_memories :
  match distill_twice with
  | Ok (b, _, Some _) => map_keys (memories_of "t-scenario" b)
  | _ => []
  end = ["mem_0_k3x9q2a"; "mem_1_p7m4w1z"].
Proof. vm_compute. reflexivity. Qed.

(** ** Arrays: the stable sort *)

Section SortFacts.
Context {A : Type} (cmp : A -> A -> Q).

(** [x] may stand before [y]. *)
Let before (x y : A) : Prop := cmp x y <= 0.

Hypothesis before_total : forall x y, before x y \/ before y x.
Hypothesis before_trans : forall x y z, before x y -> before y z -> before x z.

Lemma sort_insert_perm (x : A) (l : list A) : Permutation (sort_insert cmp x l) (x :: l).
Proof.
  induction l as [|y t IH]; simpl; [reflexivity|].
  destruct (Qle_bool (cmp x y) 0); [reflexivity|].
  rewrite IH. apply perm_swap.
Qed.

Lemma js_sort_perm (l : list A) : Permutation (js_sort cmp l) l.
Proof.
  induction l as [|x t IH]; simpl; [reflexivity|].
  rewrite sort_insert_perm. now constructor.
Qed.

Lemma sort_insert_sorted (x : A) (l : list A) :
  StronglySorted before l -> StronglySorted before (sort_insert cmp x l).
Proof.
  induction 1 as [|y t Hs IH Hall]; simpl.
  - constructor; constructor.
  - destruct (Qle_bool (cmp x y) 0) eqn:E.
    + apply Qle_bool_iff in E. constructor; [now constructor|].
      constructor; [exact E|].
      eapply Forall_impl; [|exact Hall]. intros z Hz. exact (before_trans _ _ _ E Hz).
    + constructor; [exact IH|].
      assert (Hyx : before y x).
      { destruct (before_total x y) as [Hxy|Hyx]; [|exact Hyx].
        apply Qle_bool_iff in Hxy. unfold before in *. congruence. }
      apply (Permutation_Forall (Permutation_sym (sort_insert_perm x t))).
      constructor; assumption.
Qed.

Lemma js_sort_sorted (l : list A) : StronglySorted before (js_sort cmp l).
Proof.
  induction l as [|x t IH]; simpl; [constructor|].
  now apply sort_insert_sorted.
Qed.

Lemma js_sort_length (l : list A) : length (js_sort cmp l) = length l.
Proof. apply Permutation_length, js_sort_perm. Qed.
End SortFacts.

(** ** Deleting a batch of keys *)

Lemma existsb_eqb_In (k : string) (ks : list string) :
  existsb (String.eqb k) ks = true <-> In k ks.
Proof.
  rewrite existsb_exists. split.
  - intros [x [Hin He]]. apply String.eqb_eq in He. now subst.
  - intro Hin. exists k. split; [exact Hin|apply String.eqb_refl].
Qed.

Lemma filter_filter {A : Type} (f g : A -> bool) (l : list A) :
  filter f (filter g l) = filter (fun x => g x && f x) l.
Proof.
  induction l as [|x t IH]; simpl; [reflexivity|].
  destruct (g x); simpl; [destruct (f x)|]; now rewrite IH.
Qed.

Lemma Permutation_filter {A : Type} (f : A -> bool) (l l' : list A) :
  Permutation l l' -> Permutation (filter f l) (filter f l').
Proof.
  induction 1 as [| x l l' _ IH | x y l | l l' l'' _ IH1 _ IH2]; simpl.
  - constructor.
  - destruct (f x); [now constructor|exact IH].
  - destruct (f x), (f y); try reflexivity. apply perm_swap.
  - now transitivity (filter f l').
Qed.

Section DeleteFacts.
Context {V : Type}.
Implicit Types (m vs : list (string * V)).

(** Deleting the keys of [vs] one by one keeps the entries whose key
    is not among them. *)
Lemma fold_delete_filter vs m :
  fold_left (fun m kv => map_delete (fst kv) m) vs m
  = filter (fun kv => negb (existsb (String.eqb (fst kv)) (map fst vs))) m.
Proof.
  revert m. induction vs as [|v vs IH]; intro m; simpl.
  - symmetry. apply filter_true.
  - rewrite IH. unfold map_delete. rewrite filter_filter.
    apply filter_ext. intro kv. rewrite negb_orb, (String.eqb_sym (fst v)). reflexivity.
Qed.

(** In a map, deleting the keys of a part leaves the other part. *)
Lemma delete_part vs rest m :
  NoDup (map_keys m) ->
  Permutation m (vs ++ rest) ->
  Permutation (fold_left (fun m kv => map_delete (fst kv) m) vs m) rest.
Proof.
  intros Hnd Hp. rewrite fold_delete_filter.
  rewrite (Permutation_filter _ _ _ Hp), filter_app.
  assert (Hnd' : NoDup (map fst vs ++ map fst rest)).
  { rewrite <- map_app. eapply Permutation_NoDup; [|exact Hnd].
    unfold map_keys. now apply Permutation_map. }
  assert (H1 : filter (fun kv => negb (existsb (String.eqb (fst kv)) (map fst vs))) vs = []).
  { rewrite <- (filter_false vs). apply filter_ext_in. intros kv Hin.
    apply negb_false_iff, existsb_eqb_In. now apply in_map. }
  assert (H2 : filter (fun kv => negb (existsb (String.eqb (fst kv)) (map fst vs))) rest
               = rest).
  { rewrite <- (filter_true rest) at 2. apply filter_ext_in. intros kv Hin.
    apply negb_true_iff. destruct (existsb _ _) eqn:E; [|reflexivity].
    apply existsb_eqb_In in E. exfalso.
    clear - Hnd' E Hin. induction (map fst vs) as [|k ks IH]; [contradiction|].
    simpl in Hnd'. inversion Hnd' as [|? ? Hnk Hnd'']; subst.
    destruct E as [->|E]; [|auto].
    apply Hnk, in_or_app. right. now apply in_map. }
  rewrite H1, H2. reflexivity.
Qed.
End DeleteFacts.

Lemma StronglySorted_app_le {A : Type} (R : A -> A -> Prop) (l1 l2 : list A) :
  StronglySorted R (l1 ++ l2) -> forall x y, In x l1 -> In y l2 -> R x y.
Proof.
  induction l1 as [|a l1 IH]; simpl; intros Hs x y Hx Hy; [contradiction|].
  apply StronglySorted_inv in Hs as [Hs Hall].
  destruct Hx as [->|Hx]; [|eauto].
  rewrite Forall_forall in Hall. apply Hall, in_or_app. now right.
Qed.

(** ** storeTrajectory *)

(** C2 as stated fails: in a store that holds [maxTrajectories = 2]
    trajectories, storing a third one under a new id is not dropped; it
    evicts the two stored ones. *)
Lemma storeTrajectory_full_not_dropped :
  Z.of_nat (length (trajectories full_bank)) = maxTrajectories (config full_bank)
  /\ map_keys (trajectories full_bank) = ["t-a"; "t-b"]
  /\ map_keys (trajectories (storeTrajectory full_bank new_trajectory)) = ["t-c"].
Proof. vm_compute. repeat split; reflexivity. Qed.

Lemma floor_08_bounds (n : Z) :
  (0 <= n)%Z -> (0 <= Qfloor (inject_Z n * 0.8) <= n)%Z.
Proof.
  intro Hn. split.
  - change 0%Z with (Qfloor 0). apply Qfloor_resp_le.
    unfold Qle. cbn -[Z.mul]. lia.
  - rewrite <- (Qfloor_Z n) at 2. apply Qfloor_resp_le.
    unfold Qle. cbn -[Z.mul]. lia.
Qed.

(** C2, as the code has it: when the store holds [maxTrajectories]
    trajectories, [storeTrajectory] with a new id returns normally; the
    new trajectory is inserted and the pool is then trimmed to
    [floor (0.8 * maxTrajectories)] trajectories, all taken from the
    stored ones and the new one, every evicted one of quality at most
    that of every one kept. *)
Theorem storeTrajectory_at_capacity (b : ReasoningBank) (t : Trajectory) :
  NoDup (map_keys (trajectories b)) ->
  Z.of_nat (length (trajectories b)) = maxTrajectories (config b) ->
  map_get (trajectoryId t) (trajectories b) = None ->
  let stored := trajectories b ++ [(trajectoryId t, t)] in
  let b' := storeTrajectory b t in
  Z.of_nat (length (trajectories b')) = Qfloor (inject_Z (maxTrajectories (config b)) * 0.8)
  /\ incl (trajectories b') stored
  /\ (forall kept evicted,
        In kept (trajectories b') -> In evicted stored -> ~ In evicted (trajectories b') ->
        qualityScore (snd evicted) <= qualityScore (snd kept)).
Proof.
  intros Hnd Hlen Hfresh stored b'.
  set (cmp := fun a b : string * Trajectory => qualityScore (snd a) - qualityScore (snd b)).
  set (entries := js_sort cmp stored).
  set (n := Z.to_nat (Z.of_nat (length entries)
                      - Qfloor (inject_Z (maxTrajectories (config b)) * 0.8))).
  assert (Hb' : trajectories b'
                = fold_left (fun m kv => map_delete (fst kv) m) (firstn n entries) stored).
  { subst b'. unfold storeTrajectory.
    cbn [trajectories set_trajectories config].
    rewrite (map_set_fresh _ _ _ Hfresh). fold stored.
    assert (Hbig : (maxTrajectories (config b) <? Z.of_nat (length stored))%Z = true).
    { apply Z.ltb_lt. subst stored. rewrite length_app. simpl. lia. }
    rewrite Hbig. reflexivity. }
  assert (Hnd' : NoDup (map_keys stored)).
  { subst stored. unfold map_keys. rewrite map_app. simpl.
    apply NoDup_app_remove_l with (l := []). simpl.
    apply Permutation_NoDup with (l := trajectoryId t :: map fst (trajectories b)).
    - apply Permutation_cons_append.
    - constructor; [|exact Hnd]. now apply map_get_None_notin. }
  assert (Hperm : Permutation stored (firstn n entries ++ skipn n entries)).
  { rewrite firstn_skipn. symmetry. apply js_sort_perm. }
  assert (Hrest : Permutation (trajectories b') (skipn n entries)).
  { rewrite Hb'. now apply delete_part. }
  assert (Hsorted : StronglySorted (fun x y => cmp x y <= 0) (firstn n entries ++ skipn n entries)).
  { rewrite firstn_skipn. apply js_sort_sorted.
    - intros x y. unfold cmp. destruct (Qlt_le_dec (qualityScore (snd x)) (qualityScore (snd y))).
      + left. lra.
      + right. lra.
    - intros x y z. unfold cmp. lra. }
  split; [|split].
  - rewrite (Permutation_length Hrest), length_skipn.
    assert (Hle : length entries = S (length (trajectories b))).
    { unfold entries. rewrite js_sort_length. subst stored. rewrite length_app. simpl. lia. }
    assert (Hfl := floor_08_bounds (maxTrajectories (config b))).
    subst n. lia.
  - intros x Hx. apply (Permutation_in _ Hrest) in Hx.
    apply (Permutation_in _ (Permutation_sym Hperm)), in_or_app. now right.
  - intros kept evicted Hk He Hne.
    apply (Permutation_in _ Hrest) in Hk.
    apply (Permutation_in _ Hperm), in_app_or in He.
    destruct He as [He|He].
    + assert (H := StronglySorted_app_le _ _ _ Hsorted evicted kept He Hk).
      unfold cmp in H. lra.
    + exfalso. apply Hne. now apply (Permutation_in _ (Permutation_sym Hrest)).
Qed.

Lemma storeTrajectory_at_capacity_witness :
  NoDup (map_keys (trajectories full_bank))
  /\ Z.of_nat (length (trajectories full_bank)) = maxTrajectories (config full_bank)
  /\ map_get (trajectoryId new_trajectory) (trajectories full_bank) = None
  /\ Z.of_nat (length (trajectories (storeTrajectory full_bank new_trajectory))) = 1%Z.
Proof.
  assert (Hnd : NoDup (map_keys (trajectories full_bank))).
  { vm_compute. repeat constructor; simpl; intuition discriminate. }
  split; [exact Hnd|]. split; [reflexivity|]. split; [reflexivity|].
  exact (proj1 (storeTrajectory_at_capacity full_bank new_trajectory
                  Hnd eq_refl eq_refl)).
Defined.

(** ** emitEvent *)

Lemma emitEvent_ok `{MathLib} (b : ReasoningBank) (event : NeuralEvent) :
  emitEvent b event
  = Ok (set_console b (console b ++ listener_errors (eventListeners b) event)).
Proof.
  unfold emitEvent.
  assert (Hloop : forall ls c,
    for_of ls
      (fun listener console =>
         try_catch (_ <- listener event ;; Ok console)
           (fun error =>
              Ok (console ++ [String.append "Error in ReasoningBank event listener: " error])))
      c
    = Ok (c ++ listener_errors ls event)).
  { induction ls as [|l ls IH]; intro c; simpl.
    - now rewrite app_nil_r.
    - destruct (l event) as [u|e]; cbn [bind try_catch].
      + apply IH.
      + rewrite IH, <- app_assoc. reflexivity. }
  rewrite Hloop. reflexivity.
Qed.

Lemma consolidate_ok `{MathLib} (now : Z) (b : ReasoningBank) :
  exists b' r, consolidate now b = Ok (b', r).
Proof.
  unfold consolidate.
  destruct (deduplicateMemories b) as [b1 n1].
  destruct (if enableContradictionDetection (config b1) then detectContradictions b1
            else (b1, 0%Z)) as [b2 n2].
  destruct (pruneOldPatterns now b2) as [b3 n3].
  destruct (mergePatterns now b3) as [b4 n4].
  rewrite emitEvent_ok. cbn [bind]. eauto.
Qed.

Lemma evolvePattern_ok `{MathLib} (now : Z) (b : ReasoningBank) (id : string)
    (newExperience : Trajectory) :
  exists b', evolvePattern now b id newExperience = Ok b'.
Proof.
  unfold evolvePattern.
  destruct (map_get id (patterns b)); [|eauto].
  rewrite emitEvent_ok. eauto.
Qed.

(** C10: whatever the registered listeners do, [emitEvent] returns
    normally, having called every listener and logged the error of each
    one that threw; hence [consolidate] and [evolvePattern] return
    normally with their result. *)
Theorem listener_errors_do_not_propagate `{MathLib} (now : Z) (b : ReasoningBank)
    (id : string) (newExperience : Trajectory) (event : NeuralEvent) :
  emitEvent b event
  = Ok (set_console b (console b ++ listener_errors (eventListeners b) event))
  /\ (exists b' r, consolidate now b = Ok (b', r))
  /\ (exists b', evolvePattern now b id newExperience = Ok b').
Proof.
  split; [apply emitEvent_ok|]. split; [apply consolidate_ok|apply evolvePattern_ok].
Qed.

(** ** deduplicateMemories *)

Lemma fold_delete_keys {V : Type} (ks : list string) (m : list (string * V)) :
  fold_left (fun m k => map_delete k m) ks m
  = filter (fun kv => negb (existsb (String.eqb (fst kv)) ks)) m.
Proof.
  revert m. induction ks as [|k ks IH]; intro m; simpl.
  - symmetry. apply filter_true.
  - rewrite IH. unfold map_delete. rewrite filter_filter.
    apply filter_ext. intro kv. rewrite negb_orb, (String.eqb_sym k). reflexivity.
Qed.

Lemma pairs_map {A B : Type} (f : A -> B) (l : list A) :
  pairs (map f l) = map (fun p => (f (fst p), f (snd p))) (pairs l).
Proof.
  induction l as [|x t IH]; simpl; [reflexivity|].
  rewrite map_app, IH, !map_map. reflexivity.
Qed.

(** The pairs of a filtered array are pairs of the array, between kept
    elements. *)
Lemma pairs_filter_in {A : Type} (f : A -> bool) (l : list A) (p : A * A) :
  In p (pairs (filter f l)) -> In p (pairs l) /\ f (fst p) = true /\ f (snd p) = true.
Proof.
  induction l as [|x t IH]; simpl; [intros []|].
  destruct (f x) eqn:E; simpl.
  - intro Hin. apply in_app_or in Hin as [Hin|Hin].
    + apply in_map_iff in Hin as [y [<- Hy]]. apply filter_In in Hy as [Hy Hfy].
      simpl. split; [|now split]. apply in_or_app. left. now apply in_map.
    + destruct (IH Hin) as [H1 H2]. split; [|exact H2]. apply in_or_app. now right.
  - intro Hin. destruct (IH Hin) as [H1 H2]. split; [|exact H2]. apply in_or_app. now right.
Qed.

Lemma flat_map_nil {A B : Type} (f : A -> list B) (l : list A) :
  (forall x, In x l -> f x = []) -> flat_map f l = [].
Proof.
  induction l as [|x t IH]; intro Hf; cbn [flat_map]; [reflexivity|].
  rewrite (Hf x) by now left. apply IH. intros y Hy. apply Hf. now right.
Qed.

Section DedupFacts.
Context {math : MathLib} (cfg : ReasoningBankConfig).


Lemma dedup_step_loser (m : list (string * MemoryEntry)) (r : Z) p :
  dedup_step cfg (m, r) p
  = (fold_left (fun m k => map_delete k m)
       (dedup_loser cfg (dedup_view (fst p), dedup_view (snd p))) m,
     (r + Z.of_nat (length (dedup_loser cfg (dedup_view (fst p), dedup_view (snd p)))))%Z).
Proof.
  destruct p as [[ki ei] [kj ej]]. cbn [dedup_step dedup_view dedup_loser fst snd].
  destruct (Qltb (dedupThreshold cfg) _).
  - destruct (Qle_bool _ _); reflexivity.
  - cbn [fold_left length]. f_equal. lia.
Qed.

Lemma dedup_fold ps (m : list (string * MemoryEntry)) (r : Z) :
  fold_left (dedup_step cfg) ps (m, r)
  = (fold_left (fun m k => map_delete k m) (dedup_losers cfg ps) m,
     (r + Z.of_nat (length (dedup_losers cfg ps)))%Z).
Proof.
  revert m r. induction ps as [|p ps IH]; intros m r.
  - simpl. f_equal. lia.
  - cbn [fold_left]. rewrite dedup_step_loser, IH.
    unfold dedup_losers. cbn [flat_map]. rewrite fold_left_app, length_app, Nat2Z.inj_add.
    f_equal. lia.
Qed.

Lemma losers_in_pair p k :
  In k (dedup_loser cfg (dedup_view (fst p), dedup_view (snd p))) ->
  k = fst (fst p) \/ k = fst (snd p).
Proof.
  destruct p as [[ki ei] [kj ej]]. cbn [dedup_view dedup_loser fst snd].
  destruct (Qltb _ _); [|intros []].
  destruct (Qle_bool _ _); intros [<-|[]]; auto.
Qed.

(** After the rounds over [m], no pair of surviving entries is a
    duplicate. *)
Lemma losers_after_dedup (m : list (string * MemoryEntry)) :
  dedup_losers cfg (pairs (filter (fun kv => negb (existsb (String.eqb (fst kv)) (dedup_losers cfg (pairs m)))) m))
  = [].
Proof.
  set (keep := fun kv : string * MemoryEntry =>
                 negb (existsb (String.eqb (fst kv)) (dedup_losers cfg (pairs m)))).
  assert (Hnone : forall p, In p (pairs (filter keep m)) ->
                  dedup_loser cfg (dedup_view (fst p), dedup_view (snd p)) = []).
  { intros p Hp. apply pairs_filter_in in Hp as [Hin [Hk1 Hk2]].
    destruct (dedup_loser cfg (dedup_view (fst p), dedup_view (snd p))) as [|k ks] eqn:El;
      [reflexivity|].
    exfalso.
    assert (Hk : In k (dedup_losers cfg (pairs m))).
    { unfold dedup_losers. apply in_flat_map. exists p. split; [exact Hin|].
      rewrite El. now left. }
    apply existsb_eqb_In in Hk.
    assert (Hor : k = fst (fst p) \/ k = fst (snd p)).
    { apply losers_in_pair. rewrite El. now left. }
    unfold keep in Hk1, Hk2.
    destruct Hor as [->| ->]; [rewrite Hk in Hk1|rewrite Hk in Hk2]; discriminate. }
  unfold dedup_losers at 1. now apply flat_map_nil.
Qed.

(** The deleted keys depend on keys, embeddings and qualities only. *)
Lemma losers_view (m m' : list (string * MemoryEntry)) :
  map dedup_view m = map dedup_view m' -> dedup_losers cfg (pairs m) = dedup_losers cfg (pairs m').
Proof.
  intro Hv. unfold dedup_losers.
  rewrite !flat_map_concat_map.
  assert (Hmm : forall l : list (string * MemoryEntry),
            map (fun p => dedup_loser cfg (dedup_view (fst p), dedup_view (snd p))) (pairs l)
            = map (dedup_loser cfg) (pairs (map dedup_view l))).
  { intro l. rewrite pairs_map, map_map. reflexivity. }
  now rewrite !Hmm, Hv.
Qed.
End DedupFacts.

Lemma deduplicateMemories_spec `{MathLib} (b : ReasoningBank) :
  deduplicateMemories b
  = (set_memories b
       (filter
          (fun kv =>
             negb (existsb (String.eqb (fst kv))
                     (dedup_losers (config b) (pairs (memories b)))))
          (memories b)),
     Z.of_nat (length (dedup_losers (config b) (pairs (memories b))))).
Proof.
  unfold deduplicateMemories. rewrite dedup_fold, fold_delete_keys. reflexivity.
Qed.

(** ** detectContradictions *)

Lemma fold_left_preserves {S X : Type} (P : S -> Prop) (f : S -> X -> S) (l : list X) (s : S) :
  (forall s x, P s -> P (f s x)) -> P s -> P (fold_left f l s).
Proof.
  intro Hf. revert s. induction l as [|x t IH]; intros s Hs; simpl; auto.
Qed.

Lemma update_nth_map {A B : Type} (g : A -> B) (f : A -> A) (i : nat) (l : list A) :
  (forall x, g (f x) = g x) -> map g (update_nth i f l) = map g l.
Proof.
  intro Hg. revert i. induction l as [|x t IH]; intros [|i]; simpl; try reflexivity.
  - now rewrite Hg.
  - now rewrite IH.
Qed.

Lemma detectContradictions_view `{MathLib} (b : ReasoningBank) :
  map dedup_view (memories (fst (detectContradictions b))) = map dedup_view (memories b)
  /\ config (fst (detectContradictions b)) = config b.
Proof.
  unfold detectContradictions.
  pose (P := fun st : list (string * MemoryEntry) * Z =>
               map dedup_view (fst st) = map dedup_view (memories b)).
  assert (HP : P (fold_left contradiction_step
                    (pairs (indexed (map_values (memories b)))) (memories b, 0%Z))).
  { apply fold_left_preserves; [|reflexivity].
    intros [mems c] [[i ei] [j ej]] Hs. unfold P in *. cbn [contradiction_step fst] in *.
    destruct (Qltb 0.8 _); [|exact Hs].
    destruct (Qltb 0.4 _); [|exact Hs].
    destruct (Qltb _ _); cbn [fst]; rewrite update_nth_map; auto. }
  destruct (fold_left contradiction_step _ _) as [mems c].
  split; [exact HP|reflexivity].
Qed.

Lemma mergePatterns_memories `{MathLib} (now : Z) (b : ReasoningBank) :
  memories (fst (mergePatterns now b)) = memories b
  /\ config (fst (mergePatterns now b)) = config b.
Proof.
  unfold mergePatterns.
  destruct (fold_left _ _ _) as [[arr deleted] merged]. split; reflexivity.
Qed.

(** What a [consolidate] leaves of the memories, for the next
    deduplication. *)
Lemma consolidate_memories `{MathLib} (now : Z) (b b' : ReasoningBank)
    (r : ConsolidationResult) :
  consolidate now b = Ok (b', r) ->
  removedDuplicates r = snd (deduplicateMemories b)
  /\ config b' = config b
  /\ map dedup_view (memories b')
     = map dedup_view (memories (fst (deduplicateMemories b))).
Proof.
  unfold consolidate.
  rewrite (deduplicateMemories_spec b).
  set (b1 := set_memories b _). set (n1 := Z.of_nat _).
  destruct (if enableContradictionDetection (config b1) then detectContradictions b1
            else (b1, 0%Z)) as [b2 n2] eqn:E2.
  assert (H2 : map dedup_view (memories b2) = map dedup_view (memories b1)
               /\ config b2 = config b1).
  { destruct (enableContradictionDetection (config b1)).
    - replace b2 with (fst (detectContradictions b1)) by now rewrite E2.
      apply detectContradictions_view.
    - injection E2 as <- _. split; reflexivity. }
  destruct H2 as [Hm2 Hc2].
  destruct (mergePatterns_memories now (fst (pruneOldPatterns now b2))) as [Hm4 Hc4].
  destruct (pruneOldPatterns now b2) as [b3 n3] eqn:E3.
  assert (H3 : memories b3 = memories b2 /\ config b3 = config b2).
  { unfold pruneOldPatterns in E3. injection E3 as <- _. split; reflexivity. }
  destruct H3 as [Hm3 Hc3]. cbn [fst] in Hm4, Hc4.
  destruct (mergePatterns now b3) as [b4 n4].
  rewrite emitEvent_ok. cbn [bind fst]. intro Hok. injection Hok as <- <-.
  cbn [removedDuplicates snd config memories set_console] in *.
  cbn [fst] in Hm4, Hc4.
  assert (Hc1 : config b1 = config b) by reflexivity.
  split; [reflexivity|]. split; congruence.
Qed.

(** C7: when [consolidate] is run twice in a row, the second run removes
    no duplicate. *)
Theorem dedup_idempotent `{MathLib} (now now' : Z) (b : ReasoningBank) :
  exists b1 r1 b2 r2,
    consolidate now b = Ok (b1, r1)
    /\ consolidate now' b1 = Ok (b2, r2)
    /\ removedDuplicates r2 = 0%Z.
Proof.
  destruct (consolidate_ok now b) as [b1 [r1 H1]].
  destruct (consolidate_ok now' b1) as [b2 [r2 H2]].
  exists b1, r1, b2, r2. split; [exact H1|]. split; [exact H2|].
  destruct (consolidate_memories _ _ _ _ H1) as [_ [Hc Hv]].
  destruct (consolidate_memories _ _ _ _ H2) as [Hr _].
  rewrite Hr, deduplicateMemories_spec. cbn [snd].
  rewrite deduplicateMemories_spec in Hv. cbn [fst memories set_memories] in Hv.
  rewrite Hc, (losers_view (config b) _ _ Hv), losers_after_dedup. reflexivity.
Qed.

(** ** retrieve *)

Section RetrieveFacts.
Context {math : MathLib} (cfg : ReasoningBankConfig).
Hypothesis lambda_one : mmrLambda cfg == 1.

Lemma mmrScore_lambda_one (selected : list MemoryEntry) (c : MemoryEntry * Q) :
  mmrScore cfg selected c == snd c.
Proof.
  unfold mmrScore. cbv zeta. rewrite lambda_one. ring.
Qed.

(** On candidates in descending relevance the scan settles on index 0. *)
Lemma pick_best_sorted (selected : list MemoryEntry) (c0 : MemoryEntry * Q)
    (rest : list (MemoryEntry * Q)) :
  Forall (fun c => snd c <= snd c0) rest ->
  pick_best cfg selected (c0 :: rest) = (0%nat, Num (mmrScore cfg selected c0)).
Proof.
  intro Hle. unfold pick_best, indexed. cbn [length seq combine fold_left gt_score].
  generalize (seq 1 (length rest)). intro idx.
  revert idx. induction rest as [|c rest IH]; intros [|i idx]; try reflexivity.
  cbn [combine fold_left gt_score].
  apply Forall_cons_iff in Hle as [Hc Hrest].
  assert (Hno : Qltb (mmrScore cfg selected c0) (mmrScore cfg selected c) = false).
  { apply Qltb_ge. rewrite !mmrScore_lambda_one. exact Hc. }
  rewrite Hno. now apply IH.
Qed.

Lemma mmr_loop_sorted (n : nat) (candidates : list (MemoryEntry * Q))
    (selected : list MemoryEntry) (results : list RetrievalResult) :
  StronglySorted (fun a b => snd b - snd a <= 0) candidates ->
  map (fun r => (r_memory r, r_relevanceScore r))
    (mmr_loop cfg n candidates selected results)
  = map (fun r => (r_memory r, r_relevanceScore r)) results
    ++ map (fun c => (memory (fst c), snd c)) (firstn n candidates).
Proof.
  revert candidates selected results.
  induction n as [|n IH]; intros candidates selected results Hs.
  - destruct candidates; cbn [mmr_loop firstn map]; now rewrite app_nil_r.
  - destruct candidates as [|c0 rest].
    + cbn [mmr_loop map firstn]. now rewrite app_nil_r.
    + apply StronglySorted_inv in Hs as [Hs Hall].
      cbn [mmr_loop]. rewrite pick_best_sorted.
      * cbn [nth splice1]. rewrite (IH _ _ _ Hs), map_app.
        cbn [map firstn app r_memory r_relevanceScore].
        now rewrite <- app_assoc.
      * eapply Forall_impl; [|exact Hall]. cbv beta. intros c Hc. lra.
Qed.
End RetrieveFacts.

Lemma sorted_candidates_sorted `{MathLib} (b : ReasoningBank) (q : list Q) :
  StronglySorted (fun a b : MemoryEntry * Q => snd b - snd a <= 0) (sorted_candidates b q).
Proof.
  unfold sorted_candidates. apply js_sort_sorted.
  - intros x y. destruct (Qlt_le_dec (snd x) (snd y)); [right|left]; lra.
  - intros x y z. lra.
Qed.

Lemma sorted_candidates_relevance `{MathLib} (b : ReasoningBank) (q : list Q) :
  Forall (fun c => snd c = cosineSimilarity q (embedding (memory (fst c))))
    (sorted_candidates b q).
Proof.
  unfold sorted_candidates.
  eapply Permutation_Forall; [symmetry; apply js_sort_perm|].
  apply Forall_forall. intros c Hc. apply in_map_iff in Hc as [e [<- _]]. reflexivity.
Qed.

Lemma StronglySorted_firstn {A : Type} (R : A -> A -> Prop) (n : nat) (l : list A) :
  StronglySorted R l -> StronglySorted R (firstn n l).
Proof.
  intro Hs. revert n. induction Hs as [|x l Hs IH Hall]; intros [|n]; simpl; try constructor.
  - apply IH.
  - apply Forall_forall. intros y Hy. rewrite Forall_forall in Hall.
    apply Hall. rewrite <- (firstn_skipn n l). apply in_or_app. now left.
Qed.

Lemma StronglySorted_map {A B : Type} (R : B -> B -> Prop) (f : A -> B) (l : list A) :
  StronglySorted (fun a b => R (f a) (f b)) l <-> StronglySorted R (map f l).
Proof.
  induction l as [|x t IH]; simpl.
  - split; constructor.
  - split; intro Hs; apply StronglySorted_inv in Hs as [Hs Hall]; constructor;
      try (apply IH; exact Hs).
    + rewrite Forall_forall in *. intros y Hy. apply in_map_iff in Hy as [a [<- Ha]]. auto.
    + rewrite Forall_forall in *. intros a Ha. apply Hall. now apply in_map.
Qed.

(** C8: with [mmrLambda = 1] the memories that [retrieve] returns are, in
    order, the plain relevance ordering: the first [k] candidates of the
    relevance-sorted scan.  Their reported relevance is the cosine
    similarity to the query and descends along the result. *)
Theorem retrieve_lambda_one `{MathLib} (b : ReasoningBank) (queryEmbedding : list Q)
    (k : option Z) :
  mmrLambda (config b) == 1 ->
  let results := snd (retrieve b queryEmbedding k) in
  map r_memory results = relevance_ordering b queryEmbedding k
  /\ StronglySorted (fun r r' => r_relevanceScore r' <= r_relevanceScore r) results
  /\ Forall
       (fun r => r_relevanceScore r
                 = cosineSimilarity queryEmbedding (embedding (r_memory r)))
       results.
Proof.
  intros Hl results.
  set (retrieveK := match k with Some k => k | None => retrievalK (config b) end).
  set (cands := sorted_candidates b queryEmbedding).
  assert (Hres : map (fun r => (r_memory r, r_relevanceScore r)) results
                 = map (fun c => (memory (fst c), snd c))
                     (firstn (Z.to_nat retrieveK) cands)).
  { subst results. unfold retrieve.
    destruct (memories b) as [|e m] eqn:Em.
    - cbn [snd map]. subst cands. unfold sorted_candidates. rewrite Em.
      cbn [map_values map js_sort fold_right]. now rewrite firstn_nil.
    - cbn [snd]. fold retrieveK. fold cands.
      rewrite (mmr_loop_sorted (config b) Hl); [reflexivity|].
      apply sorted_candidates_sorted. }
  assert (Hsorted : StronglySorted (fun a c : MemoryEntry * Q => snd c <= snd a)
                      (firstn (Z.to_nat retrieveK) cands)).
  { apply StronglySorted_firstn.
    assert (Hs := sorted_candidates_sorted b queryEmbedding). fold cands in Hs.
    clear - Hs. induction Hs as [|x l Hs IH Hall]; constructor; [exact IH|].
    eapply Forall_impl; [|exact Hall]. cbv beta. intros c Hc. lra. }
  assert (Hrel : Forall (fun c : MemoryEntry * Q =>
                           snd c = cosineSimilarity queryEmbedding (embedding (memory (fst c))))
                   (firstn (Z.to_nat retrieveK) cands)).
  { apply Forall_forall. intros c Hc.
    assert (Hall := sorted_candidates_relevance b queryEmbedding).
    rewrite Forall_forall in Hall. apply Hall.
    fold cands. rewrite <- (firstn_skipn (Z.to_nat retrieveK) cands).
    apply in_or_app. now left. }
  split; [|split].
  - unfold relevance_ordering. fold retrieveK. fold cands.
    transitivity (map fst (map (fun r => (r_memory r, r_relevanceScore r)) results)).
    { rewrite map_map. reflexivity. }
    rewrite Hres, map_map. cbn [fst]. symmetry. apply firstn_map.
  - apply (StronglySorted_map (fun x y : DistilledMemory * Q => snd y <= snd x)
             (fun r => (r_memory r, r_relevanceScore r))).
    rewrite Hres.
    apply (StronglySorted_map (fun x y : DistilledMemory * Q => snd y <= snd x)
             (fun c : MemoryEntry * Q => (memory (fst c), snd c))).
    exact Hsorted.
  - assert (Hpairs : Forall (fun p : DistilledMemory * Q =>
                               snd p = cosineSimilarity queryEmbedding (embedding (fst p)))
                       (map (fun r => (r_memory r, r_relevanceScore r)) results)).
    { rewrite Hres. rewrite Forall_forall in *. intros p Hp.
      apply in_map_iff in Hp as [c [<- Hc]]. cbn [fst snd]. auto. }
    rewrite Forall_forall in *. intros r Hr.
    apply (Hpairs (r_memory r, r_relevanceScore r)).
    apply (in_map (fun r => (r_memory r, r_relevanceScore r))). exact Hr.
Qed.

Lemma retrieve_lambda_one_witness :
  mmrLambda (config relevance_bank) == 1
  /\ map memoryId (map r_memory (snd (@retrieve exact_math relevance_bank [1; 0] (Some 2%Z))))
     = ["mem_0_r2"; "mem_0_r1"].
Proof.
  split; [reflexivity|].
  rewrite (proj1 (@retrieve_lambda_one exact_math relevance_bank [1; 0] (Some 2%Z)
                    (Qeq_refl 1))).
  vm_compute. reflexivity.
Defined.

(** ** MemoryGraph: PageRank *)

Module MemoryGraphFacts.
Import MemoryGraph.

(** *** Sums *)

Lemma sumQ_ext {A : Type} (f g : A -> Q) (l : list A) :
  (forall x, In x l -> f x == g x) -> sumQ f l == sumQ g l.
Proof.
  induction l as [|x t IH]; intro Hfg; simpl; [reflexivity|].
  rewrite (Hfg x) by now left. rewrite IH; [reflexivity|].
  intros y Hy. apply Hfg. now right.
Qed.

Lemma sumQ_plus {A : Type} (f g : A -> Q) (l : list A) :
  sumQ (fun x => f x + g x) l == sumQ f l + sumQ g l.
Proof.
  induction l as [|x t IH]; simpl; [reflexivity|]. rewrite IH. ring.
Qed.

Lemma sumQ_scal {A : Type} (c : Q) (f : A -> Q) (l : list A) :
  sumQ (fun x => c * f x) l == c * sumQ f l.
Proof.
  induction l as [|x t IH]; simpl; [ring|]. rewrite IH. ring.
Qed.

Lemma sumQ_const {A : Type} (c : Q) (l : list A) :
  sumQ (fun _ => c) l == Qlen l * c.
Proof.
  unfold Qlen. induction l as [|x t IH]; [simpl; ring|].
  cbn [sumQ fold_right length]. fold (sumQ (fun _ : A => c) t).
  rewrite IH, Nat2Z.inj_succ. unfold Z.succ. rewrite inject_Z_plus. ring.
Qed.

Lemma sumQ_zero {A : Type} (l : list A) : sumQ (fun _ => 0) l == 0.
Proof. induction l as [|x t IH]; simpl; [reflexivity|]. rewrite IH. ring. Qed.

Lemma sumQ_map {A B : Type} (f : B -> Q) (g : A -> B) (l : list A) :
  sumQ f (map g l) = sumQ (fun x => f (g x)) l.
Proof.
  induction l as [|x t IH]; simpl; [reflexivity|]. now rewrite IH.
Qed.

Lemma sumQ_filter {A : Type} (f : A -> Q) (p : A -> bool) (l : list A) :
  sumQ f (filter p l) == sumQ (fun x => if p x then f x else 0) l.
Proof.
  induction l as [|x t IH]; simpl; [reflexivity|].
  destruct (p x); simpl; rewrite IH; ring.
Qed.

Lemma sumQ_swap {A B : Type} (h : A -> B -> Q) (l1 : list A) (l2 : list B) :
  sumQ (fun x => sumQ (fun y => h x y) l2) l1
  == sumQ (fun y => sumQ (fun x => h x y) l1) l2.
Proof.
  induction l1 as [|x t IH]; simpl.
  - symmetry. apply sumQ_zero.
  - rewrite IH. symmetry. apply sumQ_plus.
Qed.

(** A value attached to one element of a duplicate-free list. *)
Lemma sumQ_indicator (x : string) (c : Q) (l : list string) :
  NoDup l -> In x l -> sumQ (fun v => if String.eqb x v then c else 0) l == c.
Proof.
  induction 1 as [|y t Hny Hnd IH]; intro Hin; [contradiction|].
  simpl. destruct (String.eqb x y) eqn:E.
  - apply String.eqb_eq in E. subst y.
    rewrite (sumQ_ext _ (fun _ => 0)); [rewrite sumQ_zero; ring|].
    intros v Hv. destruct (String.eqb x v) eqn:E; [|reflexivity].
    apply String.eqb_eq in E. subst v. contradiction.
  - apply String.eqb_neq in E. destruct Hin as [Heq|Hin]; [congruence|].
    rewrite IH by exact Hin. ring.
Qed.

(** Grouping the terms of a sum over [l] by a key that lies in the
    duplicate-free [keys]. *)
Lemma sumQ_group {A : Type} (key : A -> string) (f : A -> Q) (l : list A)
    (keys : list string) :
  NoDup keys -> Forall (fun x => In (key x) keys) l ->
  sumQ (fun k => sumQ f (filter (fun x => String.eqb (key x) k) l)) keys == sumQ f l.
Proof.
  intros Hnd Hall.
  rewrite (sumQ_ext _ (fun k => sumQ (fun x => if String.eqb (key x) k then f x else 0) l)).
  2: { intros k _. apply sumQ_filter. }
  rewrite sumQ_swap. apply sumQ_ext. intros x Hx.
  rewrite Forall_forall in Hall. now apply sumQ_indicator; [|apply Hall].
Qed.

(** *** One round conserves the total rank *)

Lemma rank_of_keys (ranks : list (string * Q)) :
  NoDup (map fst ranks) -> sumQ (rank_of ranks) (map fst ranks) == sumQ snd ranks.
Proof.
  induction ranks as [|[k v] t IH]; intro Hnd; [reflexivity|].
  cbn [map fst] in Hnd. inversion Hnd as [|? ? Hnk Hnd']; subst.
  cbn [map fst sumQ fold_right snd].
  fold (sumQ (rank_of ((k, v) :: t)) (map fst t)). fold (sumQ snd t).
  assert (Hk : rank_of ((k, v) :: t) k = v).
  { unfold rank_of. simpl. now rewrite String.eqb_refl. }
  rewrite Hk, <- (IH Hnd').
  rewrite (sumQ_ext (rank_of ((k, v) :: t)) (rank_of t)); [reflexivity|].
  intros u Hu. unfold rank_of. simpl.
  destruct (String.eqb u k) eqn:E; [|reflexivity].
  apply String.eqb_eq in E. subst u. contradiction.
Qed.

Section Round.
Variable g : Graph.
Variable ranks : list (string * Q).
Hypothesis wf : well_formed g.

Lemma received_sum :
  sumQ (fun i =>
          sumQ (fun u => rank_of ranks u / inject_Z (Z.of_nat (outDegree g u)))
            (predecessors g i))
    (node_ids g)
  == sumQ (fun u => if (outDegree g u =? 0)%nat then 0 else rank_of ranks u) (node_ids g).
Proof.
  destruct wf as [Hnd Hedges].
  set (h := fun e : Edge =>
              rank_of ranks (source e) / inject_Z (Z.of_nat (outDegree g (source e)))).
  transitivity (sumQ h (edges g)).
  - rewrite <- (sumQ_group target h (edges g) (node_ids g) Hnd).
    + apply sumQ_ext. intros i _. unfold predecessors. rewrite sumQ_map. reflexivity.
    + eapply Forall_impl; [|exact Hedges]. intros e [_ Ht]. exact Ht.
  - rewrite <- (sumQ_group source h (edges g) (node_ids g) Hnd).
    2: { eapply Forall_impl; [|exact Hedges]. intros e [Hs _]. exact Hs. }
    apply sumQ_ext. intros u _.
    rewrite (sumQ_ext h
               (fun _ => rank_of ranks u / inject_Z (Z.of_nat (outDegree g u)))).
    2: { intros e He. apply filter_In in He as [_ He]. apply String.eqb_eq in He.
         unfold h. rewrite He. reflexivity. }
    rewrite sumQ_const. unfold Qlen. fold (outDegree g u).
    destruct (outDegree g u =? 0)%nat eqn:E.
    + apply Nat.eqb_eq in E. rewrite E. simpl. ring.
    + apply Nat.eqb_neq in E. field.
      intro H0. apply E.
      assert (Hz : Z.of_nat (outDegree g u) = 0%Z).
      { unfold Qeq in H0. simpl in H0. lia. }
      lia.
Qed.

Lemma round_total :
  nodes g <> [] ->
  sumQ snd (pageRankRound g ranks)
  == (1 - pageRankDamping (graph_config g))
     + pageRankDamping (graph_config g) * sumQ (rank_of ranks) (node_ids g).
Proof.
  intro Hne. unfold pageRankRound. cbv zeta. rewrite sumQ_map. cbn [snd].
  set (d := pageRankDamping (graph_config g)).
  set (N := Qlen (nodes g)).
  assert (HN : ~ N == 0).
  { unfold N, Qlen. intro H0. unfold Qeq in H0. simpl in H0.
    destruct (nodes g); [contradiction|]. simpl in H0. lia. }
  assert (Hlen : Qlen (node_ids g) = N).
  { unfold N, Qlen, node_ids. now rewrite length_map. }
  rewrite sumQ_plus, sumQ_const, Hlen.
  rewrite sumQ_scal, sumQ_plus, sumQ_const, Hlen, received_sum.
  assert (Hsplit :
    sumQ (fun u => if (outDegree g u =? 0)%nat then 0 else rank_of ranks u) (node_ids g)
    + danglingMass g ranks
    == sumQ (rank_of ranks) (node_ids g)).
  { unfold danglingMass. rewrite <- sumQ_plus. apply sumQ_ext. intros u _.
    destruct (outDegree g u =? 0)%nat; ring. }
  rewrite <- Hsplit. field. exact HN.
Qed.

Lemma round_keys : map fst (pageRankRound g ranks) = node_ids g.
Proof.
  unfold pageRankRound. cbv zeta. rewrite map_map. cbn [fst]. apply map_id.
Qed.
End Round.

Lemma iterate_total (g : Graph) (n : nat) (ranks : list (string * Q)) :
  well_formed g -> nodes g <> [] ->
  map fst ranks = node_ids g -> sumQ snd ranks == 1 ->
  map fst (pageRankIterate g n ranks) = node_ids g
  /\ sumQ snd (pageRankIterate g n ranks) == 1.
Proof.
  intros Hwf Hne. revert ranks.
  induction n as [|n IH]; intros ranks Hk Hs; [now split|].
  assert (Hnext : map fst (pageRankRound g ranks) = node_ids g
                  /\ sumQ snd (pageRankRound g ranks) == 1).
  { split; [apply round_keys|].
    rewrite (round_total g ranks Hwf Hne), <- Hk, rank_of_keys.
    - rewrite Hs. ring.
    - rewrite Hk. apply Hwf. }
  cbn [pageRankIterate].
  destruct (Qltb _ _); [exact Hnext|].
  now apply IH.
Qed.

(** *** The invariants hold in every graph built by the operations *)

Lemma has_node_In (g : Graph) (i : string) : has_node g i = true <-> In i (node_ids g).
Proof. apply existsb_eqb_In. Qed.

Lemma empty_well_formed (cfg : Config) : well_formed (empty cfg).
Proof. split; constructor. Qed.

Lemma addNode_well_formed (g : Graph) (n : Node) :
  well_formed g -> well_formed (addNode g n).
Proof.
  intros [Hnd He]. unfold addNode.
  destruct (has_node g (id n)) eqn:Eh.
  - assert (Hids : map id (map (fun m => if String.eqb (id m) (id n) then n else m) (nodes g))
                   = node_ids g).
    { unfold node_ids. rewrite map_map. apply map_ext. intro m.
      destruct (String.eqb (id m) (id n)) eqn:E; [|reflexivity].
      apply String.eqb_eq in E. now rewrite E. }
    split; unfold node_ids; cbn [nodes edges]; rewrite Hids; assumption.
  - destruct (maxNodes (graph_config g) <=? length (nodes g))%nat; [now split|].
    assert (Hn : ~ In (id n) (node_ids g)).
    { intro Hin. apply has_node_In in Hin. congruence. }
    split; unfold node_ids; cbn [nodes edges]; rewrite map_app; cbn [map].
    + apply NoDup_app_remove_l with (l := []). simpl.
      apply Permutation_NoDup with (l := id n :: node_ids g).
      * apply Permutation_cons_append.
      * now constructor.
    + eapply Forall_impl; [|exact He]. intros e [Hs Ht].
      split; apply in_or_app; now left.
Qed.

Lemma addEdge_well_formed (g : Graph) (src dst ty : string) (w : Q) :
  well_formed g -> well_formed (addEdge g src dst ty w).
Proof.
  intros [Hnd He]. unfold addEdge.
  destruct (has_node g src && has_node g dst) eqn:Eh; cbn [negb]; [|now split].
  apply andb_true_iff in Eh as [Hs Hd]. apply has_node_In in Hs, Hd.
  split; [exact Hnd|]. unfold node_ids in *. cbn [nodes edges].
  destruct (existsb _ (edges g)).
  - apply Forall_forall. intros e Hin. apply in_map_iff in Hin as [e0 [<- Hin0]].
    rewrite Forall_forall in He. specialize (He e0 Hin0).
    destruct (String.eqb (source e0) src && String.eqb (target e0) dst); exact He.
  - apply Forall_app. split; [exact He|]. constructor; [|constructor]. now split.
Qed.

Lemma removeNode_well_formed (g : Graph) (i : string) :
  well_formed g -> well_formed (removeNode g i).
Proof.
  intros [Hnd He]. unfold removeNode.
  destruct (has_node g i); cbn [negb]; [|now split].
  assert (Hids : forall k, In k (node_ids g) -> k <> i ->
                 In k (map id (filter (fun n => negb (String.eqb (id n) i)) (nodes g)))).
  { intros k Hk Hki. unfold node_ids in Hk. apply in_map_iff in Hk as [n [<- Hn]].
    apply in_map, filter_In. split; [exact Hn|].
    apply negb_true_iff, String.eqb_neq. exact Hki. }
  split; unfold node_ids; cbn [nodes edges].
  - clear - Hnd. unfold node_ids in Hnd.
    induction (nodes g) as [|n t IH]; simpl; [constructor|].
    simpl in Hnd. inversion Hnd as [|? ? Hn Hnd']; subst.
    destruct (String.eqb (id n) i); simpl; [now apply IH|].
    constructor; [|now apply IH].
    intro Hin. apply Hn. apply in_map_iff in Hin as [m [Hm Hin]].
    apply filter_In in Hin as [Hin _]. rewrite <- Hm. now apply in_map.
  - apply Forall_forall. intros e Hin. apply filter_In in Hin as [Hin Hf].
    rewrite Forall_forall in He. destruct (He e Hin) as [Hs Ht].
    apply negb_true_iff, orb_false_iff in Hf as [Hfs Hft].
    apply String.eqb_neq in Hfs, Hft. split; now apply Hids.
Qed.

(** *** Conservation *)

Lemma pageRankValues_total (g : Graph) :
  well_formed g -> nodes g <> [] ->
  map fst (pageRankValues g) = node_ids g /\ sumQ snd (pageRankValues g) == 1.
Proof.
  intros Hwf Hne. unfold pageRankValues.
  destruct (nodes g) as [|n0 t] eqn:En; [contradiction|]. rewrite <- En.
  apply iterate_total; [exact Hwf|now rewrite En| |].
  - rewrite map_map. cbn [fst]. apply map_id.
  - rewrite sumQ_map. cbn [snd]. rewrite sumQ_const.
    assert (Hlen : Qlen (node_ids g) = Qlen (nodes g)).
    { unfold Qlen, node_ids. now rewrite length_map. }
    rewrite Hlen. field.
    unfold Qlen. rewrite En. intro H0. unfold Qeq in H0. simpl in H0. lia.
Qed.

(** C9: on a non-empty graph that satisfies the invariants of the data
    model, the ranks that [computePageRank] returns, one per node, sum
    to 1 (exactly, so within 0.01); when the graph is a single node
    without edge, the rank of that node is 1 (so within 0.00001). *)
Theorem pageRank_conservation (g : Graph) :
  well_formed g -> nodes g <> [] ->
  let ranks := snd (computePageRank g) in
  map fst ranks = node_ids g
  /\ sumQ snd ranks == 1
  /\ Qabs (sumQ snd ranks - 1) <= 0.01
  /\ (forall n, nodes g = [n] -> edges g = [] ->
      exists r, ranks = [(id n, r)] /\ r == 1 /\ Qabs (r - 1) <= 0.00001).
Proof.
  intros Hwf Hne ranks. subst ranks. cbn [computePageRank snd].
  destruct (pageRankValues_total g Hwf Hne) as [Hk Hs].
  split; [exact Hk|]. split; [exact Hs|]. split.
  - rewrite Hs. apply Qabs_Qle_condition. split; lra.
  - intros n Hn _. unfold node_ids in Hk. rewrite Hn in Hk. cbn [map] in Hk.
    destruct (pageRankValues g) as [|[k r] [|p t]]; try discriminate Hk.
    injection Hk as ->. exists r. split; [reflexivity|].
    assert (Hr : r == 1) by (cbn [sumQ fold_right snd] in Hs; lra).
    split; [exact Hr|]. rewrite Hr. apply Qabs_Qle_condition. split; lra.
Qed.

Lemma two_components_well_formed : well_formed two_components.
Proof.
  unfold two_components. cbn [map fold_left].
  repeat first [apply addEdge_well_formed | apply addNode_well_formed
               | apply empty_well_formed].
Qed.

Lemma pageRank_conservation_witness :
  well_formed two_components /\ nodes two_components <> []
  /\ sumQ snd (snd (computePageRank two_components)) == 1.
Proof.
  split; [exact two_components_well_formed|]. split; [discriminate|].
  apply (pageRank_conservation two_components two_components_well_formed).
  discriminate.
Defined.
End MemoryGraphFacts.

(** ** retrieve does not read the [consolidated] flag *)

Lemma sort_insert_map {A B : Type} (h : A -> B) (cmpA : A -> A -> Q) (cmpB : B -> B -> Q)
    (x : A) (l : list A) :
  (forall a b, cmpB (h a) (h b) = cmpA a b) ->
  sort_insert cmpB (h x) (map h l) = map h (sort_insert cmpA x l).
Proof.
  intro Hc. induction l as [|y t IH]; simpl; [reflexivity|].
  rewrite Hc. destruct (Qle_bool (cmpA x y) 0); simpl; [reflexivity|]. now rewrite IH.
Qed.

Lemma js_sort_map {A B : Type} (h : A -> B) (cmpA : A -> A -> Q) (cmpB : B -> B -> Q)
    (l : list A) :
  (forall a b, cmpB (h a) (h b) = cmpA a b) ->
  js_sort cmpB (map h l) = map h (js_sort cmpA l).
Proof.
  intro Hc. induction l as [|x t IH]; simpl; [reflexivity|].
  rewrite IH. now apply sort_insert_map.
Qed.

Lemma splice1_map {A B : Type} (h : A -> B) (i : nat) (l : list A) :
  splice1 i (map h l) = map h (splice1 i l).
Proof.
  revert i. induction l as [|x t IH]; intros [|i]; simpl; try reflexivity. now rewrite IH.
Qed.

Section ClearedCandidates.
Context {math : MathLib} (cfg : ReasoningBankConfig).

Let hc (c : MemoryEntry * Q) : MemoryEntry * Q := (clear_consolidated (fst c), snd c).

Lemma max_similarity_clear (em : list Q) (selected : list MemoryEntry) (acc : Q) :
  fold_left
    (fun maxSimilarity sel => Qmax maxSimilarity (cosineSimilarity em (embedding (memory sel))))
    (map clear_consolidated selected) acc
  = fold_left
      (fun maxSimilarity sel => Qmax maxSimilarity (cosineSimilarity em (embedding (memory sel))))
      selected acc.
Proof.
  revert acc. induction selected as [|s t IH]; intro acc; simpl; [reflexivity|]. apply IH.
Qed.

Lemma mmrScore_clear (selected : list MemoryEntry) (c : MemoryEntry * Q) :
  mmrScore cfg (map clear_consolidated selected) (hc c) = mmrScore cfg selected c.
Proof.
  unfold mmrScore. cbv zeta. cbn [hc fst snd clear_consolidated memory].
  now rewrite max_similarity_clear.
Qed.

Lemma computeMaxSimilarity_clear (e : MemoryEntry) (selected : list MemoryEntry) :
  computeMaxSimilarity (clear_consolidated e) (map clear_consolidated selected)
  = computeMaxSimilarity e selected.
Proof.
  unfold computeMaxSimilarity. cbn [clear_consolidated memory].
  apply max_similarity_clear.
Qed.

Lemma pick_best_clear (selected : list MemoryEntry) (candidates : list (MemoryEntry * Q)) :
  pick_best cfg (map clear_consolidated selected) (map hc candidates)
  = pick_best cfg selected candidates.
Proof.
  unfold pick_best, indexed. rewrite length_map.
  generalize (seq 0 (length candidates)) (0%nat, NegInfinity).
  induction candidates as [|c t IH]; intros idx acc; destruct idx as [|i idx];
    try reflexivity.
  cbn [map combine fold_left]. destruct acc as [bestIdx bestScore].
  rewrite mmrScore_clear. apply IH.
Qed.

Lemma mmr_loop_clear (n : nat) (candidates : list (MemoryEntry * Q))
    (selected : list MemoryEntry) (results : list RetrievalResult) :
  mmr_loop cfg n (map hc candidates) (map clear_consolidated selected) results
  = mmr_loop cfg n candidates selected results.
Proof.
  revert candidates selected results.
  induction n as [|n IH]; intros candidates selected results;
    [destruct candidates; reflexivity|].
  destruct candidates as [|c0 rest]; [reflexivity|].
  cbn [map mmr_loop]. change (hc c0 :: map hc rest) with (map hc (c0 :: rest)).
  rewrite pick_best_clear.
  destruct (pick_best cfg selected (c0 :: rest)) as [bestIdx bestScore].
  rewrite (map_nth hc (c0 :: rest) c0 bestIdx).
  set (best := nth bestIdx (c0 :: rest) c0).
  cbn [hc fst snd]. rewrite splice1_map.
  change [clear_consolidated (fst best)] with (map clear_consolidated [fst best]).
  rewrite <- map_app, IH.
  rewrite map_app. cbn [map].
  rewrite !removelast_last, computeMaxSimilarity_clear. reflexivity.
Qed.

Lemma sorted_candidates_clear (b : ReasoningBank) (q : list Q) :
  sorted_candidates (clear_flags b) q = map hc (sorted_candidates b q).
Proof.
  unfold sorted_candidates, clear_flags, map_values. cbn [memories].
  rewrite <- (js_sort_map hc (fun a b0 => snd b0 - snd a) (fun a b0 => snd b0 - snd a))
    by reflexivity.
  f_equal. rewrite !map_map. reflexivity.
Qed.
End ClearedCandidates.

(** The results of [retrieve] are those on the bank with every flag
    cleared: a memory marked as consolidated is returned like any
    other. *)
Lemma retrieve_ignores_consolidated `{MathLib} (b : ReasoningBank) (q : list Q)
    (k : option Z) :
  snd (retrieve (clear_flags b) q k) = snd (retrieve b q k).
Proof.
  unfold retrieve. cbn [config clear_flags memories].
  destruct (memories b) as [|e m] eqn:Em; [reflexivity|].
  cbn [map snd].
  rewrite (sorted_candidates_clear b q).
  exact (mmr_loop_clear (config b) _ _ [] []).
Qed.

(** ** detectContradictions marks the lower-quality memory of each pair *)

Lemma in_combine_seq {A : Type} (l : list A) (s j : nat) (y : A) :
  nth_error l j = Some y -> In ((s + j)%nat, y) (combine (seq s (length l)) l).
Proof.
  revert s j. induction l as [|x t IH]; intros s [|j] Hj; try discriminate Hj.
  - injection Hj as ->. left. f_equal. lia.
  - right. cbn [length seq combine]. replace (s + S j)%nat with (S s + j)%nat by lia.
    now apply IH.
Qed.

Lemma pairs_combine_seq {A : Type} (l : list A) (s i j : nat) (x y : A) :
  (i < j)%nat -> nth_error l i = Some x -> nth_error l j = Some y ->
  In (((s + i)%nat, x), ((s + j)%nat, y)) (pairs (combine (seq s (length l)) l)).
Proof.
  revert s i j. induction l as [|a t IH]; intros s i j Hij Hi Hj;
    [destruct i; discriminate Hi|].
  cbn [length seq combine pairs]. apply in_or_app.
  destruct i as [|i].
  - injection Hi as ->. left. destruct j as [|j]; [lia|].
    replace (s + 0)%nat with s by lia. apply in_map.
    replace (s + S j)%nat with (S s + j)%nat by lia. now apply in_combine_seq.
  - right. destruct j as [|j]; [lia|].
    replace (s + S i)%nat with (S s + i)%nat by lia.
    replace (s + S j)%nat with (S s + j)%nat by lia.
    apply IH; [lia|exact Hi|exact Hj].
Qed.

Lemma update_nth_length {A : Type} (f : A -> A) (i : nat) (l : list A) :
  length (update_nth i f l) = length l.
Proof.
  revert i. induction l as [|x t IH]; intros [|i]; simpl; try reflexivity. now rewrite IH.
Qed.

Lemma nth_error_update_nth_same {A : Type} (f : A -> A) (i : nat) (l : list A) :
  nth_error (update_nth i f l) i = option_map f (nth_error l i).
Proof.
  revert i. induction l as [|x t IH]; intros [|i]; simpl; try reflexivity. apply IH.
Qed.

Lemma nth_error_update_nth_other {A : Type} (f : A -> A) (i x : nat) (l : list A) :
  x <> i -> nth_error (update_nth i f l) x = nth_error l x.
Proof.
  revert i x. induction l as [|a t IH]; intros [|i] [|x] Hx; simpl; try reflexivity.
  - contradiction.
  - apply IH. lia.
Qed.

Lemma flag_at_mark_same (mems : list (string * MemoryEntry)) (i : nat) :
  (i < length mems)%nat -> flag_at (update_nth i set_consolidated mems) i = true.
Proof.
  intro Hi. unfold flag_at. rewrite nth_error_update_nth_same.
  destruct (nth_error mems i) eqn:E; [reflexivity|].
  apply nth_error_None in E. lia.
Qed.

Lemma flag_at_mark_mono (mems : list (string * MemoryEntry)) (i x : nat) :
  flag_at mems x = true -> flag_at (update_nth i set_consolidated mems) x = true.
Proof.
  unfold flag_at. destruct (Nat.eq_dec x i) as [->|Hx].
  - rewrite nth_error_update_nth_same. destruct (nth_error mems i); [reflexivity|discriminate].
  - now rewrite nth_error_update_nth_other.
Qed.

Section ContradictionFacts.
Context {math : MathLib}.

Lemma contradiction_step_length st p :
  length (fst (contradiction_step st p)) = length (fst st).
Proof.
  destruct st as [mems c], p as [[i ei] [j ej]]. cbn [contradiction_step fst].
  destruct (Qltb 0.8 _); [|reflexivity].
  destruct (Qltb 0.4 _); [|reflexivity].
  destruct (Qltb _ _); cbn [fst]; apply update_nth_length.
Qed.

Lemma contradiction_step_mono st p x :
  flag_at (fst st) x = true -> flag_at (fst (contradiction_step st p)) x = true.
Proof.
  destruct st as [mems c], p as [[i ei] [j ej]]. cbn [contradiction_step fst].
  destruct (Qltb 0.8 _); [|auto].
  destruct (Qltb 0.4 _); [|auto].
  destruct (Qltb _ _); cbn [fst]; apply flag_at_mark_mono.
Qed.

Lemma contradiction_fold_length ps st :
  length (fst (fold_left contradiction_step ps st)) = length (fst st).
Proof.
  revert st. induction ps as [|p ps IH]; intro st; [reflexivity|].
  cbn [fold_left]. rewrite IH. apply contradiction_step_length.
Qed.

Lemma contradiction_fold_mono ps st x :
  flag_at (fst st) x = true -> flag_at (fst (fold_left contradiction_step ps st)) x = true.
Proof.
  revert st. induction ps as [|p ps IH]; intros st Hx; [exact Hx|].
  cbn [fold_left]. apply IH. now apply contradiction_step_mono.
Qed.

(** The index that a round marks on a contradictory pair. *)
Let lower (i j : nat) (ei ej : MemoryEntry) : nat :=
  if Qlt_le_dec (quality (memory ei)) (quality (memory ej)) then i else j.

Lemma contradiction_step_marks st i j ei ej :
  (i < length (fst st))%nat -> (j < length (fst st))%nat ->
  0.8 < cosineSimilarity (embedding (memory ei)) (embedding (memory ej)) ->
  0.4 < Qabs (quality (memory ei) - quality (memory ej)) ->
  flag_at (fst (contradiction_step st ((i, ei), (j, ej)))) (lower i j ei ej) = true.
Proof.
  intros Hi Hj Hsim Hq. destruct st as [mems c]. cbn [contradiction_step fst] in *.
  apply Qltb_lt in Hsim, Hq. rewrite Hsim, Hq. unfold lower.
  destruct (Qlt_le_dec (quality (memory ei)) (quality (memory ej))) as [Hlt|Hge].
  - apply Qltb_lt in Hlt. rewrite Hlt. cbn [fst]. now apply flag_at_mark_same.
  - apply Qltb_ge in Hge. rewrite Hge. cbn [fst]. now apply flag_at_mark_same.
Qed.

Lemma contradiction_fold_marks ps st i j ei ej :
  In ((i, ei), (j, ej)) ps ->
  (i < length (fst st))%nat -> (j < length (fst st))%nat ->
  0.8 < cosineSimilarity (embedding (memory ei)) (embedding (memory ej)) ->
  0.4 < Qabs (quality (memory ei) - quality (memory ej)) ->
  flag_at (fst (fold_left contradiction_step ps st)) (lower i j ei ej) = true.
Proof.
  intros Hin Hi Hj Hsim Hq. revert st Hi Hj.
  induction ps as [|p ps IH]; intros st Hi Hj; [contradiction|].
  cbn [fold_left]. destruct Hin as [->|Hin].
  - apply contradiction_fold_mono. now apply contradiction_step_marks.
  - apply IH; [exact Hin| |]; now rewrite contradiction_step_length.
Qed.

(** For every pair of stored memories with similarity above 0.8 and
    qualities more than 0.4 apart, [detectContradictions] leaves the one
    of lower quality marked, in its place in the store. *)
Lemma detectContradictions_marks (b : ReasoningBank) (i j : nat)
    (kvi kvj : string * MemoryEntry) :
  (i < j)%nat ->
  nth_error (memories b) i = Some kvi -> nth_error (memories b) j = Some kvj ->
  0.8 < cosineSimilarity (embedding (memory (snd kvi))) (embedding (memory (snd kvj))) ->
  0.4 < Qabs (quality (memory (snd kvi)) - quality (memory (snd kvj))) ->
  flag_at (memories (fst (detectContradictions b))) (lower i j (snd kvi) (snd kvj)) = true.
Proof.
  intros Hij Hi Hj Hsim Hq. unfold detectContradictions.
  assert (Hin : In ((i, snd kvi), (j, snd kvj)) (pairs (indexed (map_values (memories b))))).
  { unfold indexed, map_values.
    apply (pairs_combine_seq (map snd (memories b)) 0 i j); [exact Hij| |].
    - rewrite nth_error_map, Hi. reflexivity.
    - rewrite nth_error_map, Hj. reflexivity. }
  assert (Hli : (i < length (memories b))%nat) by (apply nth_error_Some; congruence).
  assert (Hlj : (j < length (memories b))%nat) by (apply nth_error_Some; congruence).
  assert (H := contradiction_fold_marks _ (memories b, 0%Z) i j (snd kvi) (snd kvj)
                 Hin Hli Hlj Hsim Hq).
  destruct (fold_left contradiction_step _ _) as [mems c]. exact H.
Qed.
End ContradictionFacts.

(** The marking half of C1 for [consolidate]: with contradiction
    detection enabled, the memories left by the deduplication step stay
    in the store, keys, embeddings and qualities unchanged, and of every
    two of them with similarity above 0.8 and qualities more than 0.4
    apart the one of lower quality is marked as consolidated. *)
Lemma consolidate_marks_contradictions `{MathLib} (now : Z) (b b' : ReasoningBank)
    (r : ConsolidationResult) (i j : nat) (kvi kvj : string * MemoryEntry) :
  enableContradictionDetection (config b) = true ->
  consolidate now b = Ok (b', r) ->
  let deduplicated := memories (fst (deduplicateMemories b)) in
  map dedup_view (memories b') = map dedup_view deduplicated
  /\ ((i < j)%nat ->
      nth_error deduplicated i = Some kvi -> nth_error deduplicated j = Some kvj ->
      0.8 < cosineSimilarity (embedding (memory (snd kvi))) (embedding (memory (snd kvj))) ->
      0.4 < Qabs (quality (memory (snd kvi)) - quality (memory (snd kvj))) ->
      flag_at (memories b')
        (if Qlt_le_dec (quality (memory (snd kvi))) (quality (memory (snd kvj)))
         then i else j) = true).
Proof.
  intros Hen Hc deduplicated.
  split; [apply (consolidate_memories now b b' r Hc)|].
  intros Hij Hi Hj Hsim Hq.
  assert (Hm : memories b' = memories (fst (detectContradictions (fst (deduplicateMemories b))))).
  { revert Hc. unfold consolidate.
    destruct (deduplicateMemories b) as [b1 n1] eqn:E1. cbn [fst].
    assert (Hc1 : config b1 = config b).
    { rewrite deduplicateMemories_spec in E1. injection E1 as <- _. reflexivity. }
    rewrite Hc1, Hen.
    destruct (detectContradictions b1) as [b2 n2].
    unfold pruneOldPatterns.
    destruct (mergePatterns_memories now
                (set_patterns b2
                   (filter
                      (fun kv : string * Pattern =>
                         negb (Qltb (maxPatternAgeDays (config b2) * 24 * 60 * 60 * 1000)
                                 (inject_Z (now - updatedAt (snd kv)))
                               && (p_usageCount (snd kv) <? 5)%Z))
                      (patterns b2)))) as [Hm4 _].
    destruct (mergePatterns now _) as [b4 n4].
    rewrite emitEvent_ok. cbn [bind fst] in *. intro Hok. injection Hok as <- _.
    cbn [memories set_console]. exact Hm4. }
  rewrite Hm. now apply detectContradictions_marks.
Qed.

(** ** Contradictions and retrieval *)

(** C1, what the code does: after [consolidate] has marked the
    lower-quality memory of a contradictory pair as consolidated, the
    memory is still in the store, and [retrieve] still returns it:
    [retrieve] never reads the flag. *)
Theorem consolidated_memory_still_retrieved :
  match @consolidate exact_math 2 contradiction_bank with
  | Ok (b, r) =>
      (contradictionsDetected r,
       map (fun kv => (fst kv, consolidated (snd kv))) (memories b),
       map (fun r => memoryId (r_memory r)) (snd (@retrieve exact_math b [5; 0] None)))
  | Throw _ => (0%Z, [], [])
  end
  = (1%Z, [("mem_0_r0", false); ("mem_0_r1", true)], ["mem_0_r0"; "mem_0_r1"]).
Proof. vm_compute. reflexivity. Qed.

(** ** Patterns *)

(** A merge leaves the success rate of the survivor as it was and
    appends the absorbed history. *)
Lemma merge_into_successRate (now : Z) (keep remove : Pattern) (removeId : string) :
  successRate (merge_into now keep remove removeId) = successRate keep
  /\ qualityHistory (merge_into now keep remove removeId)
     = qualityHistory keep ++ qualityHistory remove.
Proof. split; reflexivity. Qed.

(** [evolvePattern] leaves the success rate at the mean of the history. *)
Lemma evolved_successRate (now : Z) (pattern : Pattern) (newExperience : Trajectory) :
  successRate (evolved now pattern newExperience)
  = mean (qualityHistory (evolved now pattern newExperience)).
Proof. reflexivity. Qed.

Lemma evolved_history_length (now : Z) (pattern : Pattern) (newExperience : Trajectory) :
  (length (qualityHistory pattern) <= 100 ->
   length (qualityHistory (evolved now pattern newExperience)) <= 100)%nat.
Proof.
  intro Hl. cbn [evolved qualityHistory].
  destruct (100 <? length (qualityHistory pattern ++ [qualityScore newExperience]))%nat eqn:E.
  - unfold slice_last. rewrite length_skipn. lia.
  - apply Nat.ltb_ge in E. exact E.
Qed.

(** In the bank, [evolvePattern] replaces the pattern by the evolved one,
    whose success rate is the mean of its history. *)
Lemma evolvePattern_stored `{MathLib} (now : Z) (b b' : ReasoningBank) (id : string)
    (newExperience : Trajectory) (pattern : Pattern) :
  map_get id (patterns b) = Some pattern ->
  evolvePattern now b id newExperience = Ok b' ->
  exists pattern',
    map_get id (patterns b') = Some pattern'
    /\ pattern' = evolved now pattern newExperience
    /\ successRate pattern' = mean (qualityHistory pattern').
Proof.
  intros Hget. unfold evolvePattern. rewrite Hget, emitEvent_ok.
  intro Hok. injection Hok as <-. cbn [patterns set_console set_patterns].
  exists (evolved now pattern newExperience).
  split; [apply map_get_set_same|]. split; reflexivity.
Qed.

Lemma memoryToPattern_successRate `{MathLib} (now : Z) (b : ReasoningBank)
    (m : DistilledMemory) :
  successRate (snd (memoryToPattern now b m))
  == mean (qualityHistory (snd (memoryToPattern now b m))).
Proof.
  cbn [memoryToPattern snd successRate qualityHistory].
  unfold mean, Qsum, Qlen. cbn [fold_left length]. change (inject_Z (Z.of_nat 1)) with 1.
  field.
Qed.

(** C3, what the code does: the merge step of [consolidate] appends the
    history of the absorbed pattern to the survivor and leaves the
    survivor's success rate as it was; the rate is then not the mean of
    the history. *)
Theorem merge_breaks_successRate_mean :
  match @consolidate exact_math 3 pattern_bank with
  | Ok (b, r) =>
      (mergedPatterns r,
       map (fun kv => (fst kv, successRate (snd kv), qualityHistory (snd kv))) (patterns b),
       map (fun kv => Qeq_bool (successRate (snd kv)) (mean (qualityHistory (snd kv))))
         (patterns b),
       map (fun kv => Qeq_bool (mean (qualityHistory (snd kv))) 0.8) (patterns b))
  | Throw _ => (0%Z, [], [], [])
  end
  = (1%Z, [("pat_mem_0_r0", 0.9, [0.9; 0.7])], [false], [true]).
Proof. vm_compute. reflexivity. Qed.

(** ** Examples *)

(** The first [consolidate] removes the duplicate memory, the second
    removes none. *)
Example consolidate_twice_example :
  match @consolidate exact_math 3 pattern_bank with
  | Ok (b, r) =>
      match @consolidate exact_math 4 b with
      | Ok (_, r') => (removedDuplicates r, removedDuplicates r')
      | Throw _ => (0%Z, 1%Z)
      end
  | Throw _ => (0%Z, 1%Z)
  end = (1%Z, 0%Z).
Proof. vm_compute. reflexivity. Qed.

(** A listener that throws is logged and [consolidate] returns. *)
Example consolidate_failing_listener :
  match @consolidate exact_math 3 (addEventListener pattern_bank failing_listener) with
  | Ok (b, r) => (mergedPatterns r, console b)
  | Throw _ => (0%Z, [])
  end = (1%Z, ["Error in ReasoningBank event listener: listener failed"]).
Proof. vm_compute. reflexivity. Qed.

(** * Further properties of the operations *)

(** ** The scan of [retrieve] for the best candidate *)

Section ScanFacts.
Context {A : Type} (f : A -> Q).

Lemma scan_step_best (pre : list A) (x : A) (bi : nat) (v : Q) :
  first_best f pre bi v ->
  (Qltb v (f x) = true -> first_best f (pre ++ [x]) (length pre) (f x))
  /\ (Qltb v (f x) = false -> first_best f (pre ++ [x]) bi v).
Proof.
  intros [c [Hn [Hv [Hmax Hfirst]]]].
  assert (Hbi : (bi < length pre)%nat) by (apply nth_error_Some; congruence).
  split; intro Hcmp.
  - apply Qltb_lt in Hcmp. exists x. split; [|split; [reflexivity|split]].
    + rewrite nth_error_app2 by lia. now rewrite Nat.sub_diag.
    + intros c' Hin. apply in_app_or in Hin as [Hin|[<-|[]]].
      * apply Qlt_le_weak. eapply Qle_lt_trans; [apply Hmax, Hin|exact Hcmp].
      * apply Qle_refl.
    + intros j c' Hj Hc'. rewrite nth_error_app1 in Hc' by exact Hj.
      apply nth_error_In in Hc'. eapply Qle_lt_trans; [apply Hmax, Hc'|exact Hcmp].
  - apply Qltb_ge in Hcmp. exists c. split; [|split; [exact Hv|split]].
    + rewrite nth_error_app1 by exact Hbi. exact Hn.
    + intros c' Hin. apply in_app_or in Hin as [Hin|[<-|[]]]; [now apply Hmax|exact Hcmp].
    + intros j c' Hj Hc'. rewrite nth_error_app1 in Hc' by lia. eauto.
Qed.

Lemma scan_best (l pre : list A) (bi : nat) (v : Q) :
  first_best f pre bi v ->
  exists i v',
    fold_left
      (fun '(bestIdx, bestScore) '(i, c) =>
         if gt_score (f c) bestScore then (i, Num (f c)) else (bestIdx, bestScore))
      (combine (seq (length pre) (length l)) l) (bi, Num v)
    = (i, Num v')
    /\ first_best f (pre ++ l) i v'.
Proof.
  revert pre bi v. induction l as [|x l IH]; intros pre bi v Hb.
  - exists bi, v. rewrite app_nil_r. now split.
  - cbn [length seq combine fold_left gt_score].
    destruct (scan_step_best pre x bi v Hb) as [Hyes Hno].
    assert (Hlen : S (length pre) = length (pre ++ [x])).
    { rewrite length_app. simpl. lia. }
    assert (Happ : pre ++ x :: l = (pre ++ [x]) ++ l) by now rewrite <- app_assoc.
    rewrite Hlen, Happ.
    destruct (Qltb v (f x)); apply IH; auto.
Qed.

(** On a non-empty array the scan returns the first index of the
    greatest score, with that score. *)
Lemma scan_first_best (x : A) (l : list A) :
  exists i v,
    fold_left
      (fun '(bestIdx, bestScore) '(i, c) =>
         if gt_score (f c) bestScore then (i, Num (f c)) else (bestIdx, bestScore))
      (indexed (x :: l)) (0%nat, NegInfinity)
    = (i, Num v)
    /\ first_best f (x :: l) i v.
Proof.
  unfold indexed. cbn [length seq combine fold_left gt_score].
  apply (scan_best l [x] 0 (f x)).
  exists x. split; [reflexivity|]. split; [reflexivity|]. split.
  - intros c' [<-|[]]. apply Qle_refl.
  - intros j c' Hj. lia.
Qed.
End ScanFacts.

(** On a non-empty candidate array the scan of [retrieve] returns the
    first index of the greatest MMR score, with that score. *)
Lemma pick_best_scan `{MathLib} (cfg : ReasoningBankConfig)
    (selected : list MemoryEntry) (candidates : list (MemoryEntry * Q)) :
  candidates <> [] ->
  exists bestIdx bestScore,
    pick_best cfg selected candidates = (bestIdx, Num bestScore)
    /\ first_best (mmrScore cfg selected) candidates bestIdx bestScore.
Proof.
  intro Hne. destruct candidates as [|c0 rest]; [contradiction|].
  exact (scan_first_best (mmrScore cfg selected) c0 rest).
Qed.

(** X1: tie-break of the MMR scan.  On a non-empty candidate array the
    inner loop of [retrieve] returns an index of the array and the MMR
    score of the candidate there; no candidate has a greater score, and
    every candidate before that index has a strictly smaller one: among
    equal scores the first one met wins. *)
Theorem pick_best_first_max `{MathLib} (cfg : ReasoningBankConfig)
    (selected : list MemoryEntry) (candidates : list (MemoryEntry * Q)) :
  candidates <> [] ->
  exists bestIdx bestScore,
    pick_best cfg selected candidates = (bestIdx, Num bestScore)
    /\ first_best (mmrScore cfg selected) candidates bestIdx bestScore.
Proof.
  intro Hne. destruct candidates as [|c0 rest]; [contradiction|].
  exact (scan_first_best (mmrScore cfg selected) c0 rest).
Qed.

Lemma pick_best_first_max_witness :
  @sorted_candidates exact_math relevance_bank [1; 0] <> []
  /\ exists bestScore,
       @pick_best exact_math (config relevance_bank) []
         (@sorted_candidates exact_math relevance_bank [1; 0])
       = (0%nat, Num bestScore).
Proof.
  assert (Hne : @sorted_candidates exact_math relevance_bank [1; 0] <> []).
  { vm_compute. discriminate. }
  split; [exact Hne|].
  destruct (@pick_best_first_max exact_math (config relevance_bank) []
              (@sorted_candidates exact_math relevance_bank [1; 0]) Hne)
    as [i [v [Hp _]]].
  exists v. rewrite Hp. f_equal.
  assert (Hi : fst (@pick_best exact_math (config relevance_bank) []
                      (@sorted_candidates exact_math relevance_bank [1; 0])) = 0%nat)
    by (vm_compute; reflexivity).
  rewrite Hp in Hi. exact Hi.
Defined.

(** ** The rounds of [retrieve] *)

Lemma splice1_perm {A : Type} (i : nat) (l : list A) (c : A) :
  nth_error l i = Some c -> Permutation l (c :: splice1 i l).
Proof.
  revert i. induction l as [|x t IH]; intros [|i] Hn; try discriminate Hn.
  - injection Hn as ->. reflexivity.
  - simpl in Hn. cbn [splice1]. rewrite (IH i Hn) at 1. apply perm_swap.
Qed.


Section LoopFacts.
Context {math : MathLib} (cfg : ReasoningBankConfig).

(** The loop picks [min n (length candidates)] distinct candidates and
    appends one result for each, in order. *)
Lemma mmr_loop_picks (n : nat) (candidates : list (MemoryEntry * Q))
    (selected : list MemoryEntry) (results : list RetrievalResult) :
  exists picked rest,
    Permutation candidates (picked ++ rest)
    /\ length picked = Nat.min n (length candidates)
    /\ map (fun r => (r_memory r, r_relevanceScore r))
         (mmr_loop cfg n candidates selected results)
       = map (fun r => (r_memory r, r_relevanceScore r)) results
         ++ map (fun c => (memory (fst c), snd c)) picked.
Proof.
  revert candidates selected results.
  induction n as [|n IH]; intros candidates selected results.
  - exists [], candidates. split; [reflexivity|]. split; [reflexivity|].
    destruct candidates; cbn [mmr_loop map]; now rewrite app_nil_r.
  - destruct candidates as [|c0 rest0].
    + exists [], []. split; [reflexivity|]. split; [reflexivity|].
      cbn [mmr_loop map]. now rewrite app_nil_r.
    + destruct (pick_best_scan cfg selected (c0 :: rest0)) as [i [v [Hp Hb]]];
        [discriminate|].
      destruct Hb as [c [Hn _]].
      cbn [mmr_loop]. rewrite Hp. rewrite (nth_error_nth _ _ c0 Hn).
      destruct (IH (splice1 i (c0 :: rest0)) (selected ++ [fst c])
                  (results
                   ++ [{| r_memory := memory (fst c);
                          r_relevanceScore := snd c;
                          diversityScore :=
                            1 - computeMaxSimilarity (fst c)
                                  (removelast (selected ++ [fst c]));
                          combinedScore := Num v |}]))
        as [picked [rest [Hperm [Hlen Hres]]]].
      exists (c :: picked), rest. split; [|split].
      * rewrite (splice1_perm i _ c Hn). cbn [app]. now constructor.
      * cbn [length]. rewrite Hlen.
        assert (Hl := Permutation_length (splice1_perm i _ c Hn)).
        cbn [length] in Hl. injection Hl as Hl. rewrite <- Hl. reflexivity.
      * rewrite Hres, map_app. cbn [map r_memory r_relevanceScore].
        now rewrite <- app_assoc.
Qed.

End LoopFacts.

Lemma mmr_loop_prefix `{MathLib} (cfg : ReasoningBankConfig) (n : nat)
    (candidates : list (MemoryEntry * Q)) (selected : list MemoryEntry)
    (results : list RetrievalResult) :
  exists more, mmr_loop cfg n candidates selected results = results ++ more.
Proof.
  revert candidates selected results.
  induction n as [|n IH]; intros candidates selected results.
  - exists []. destruct candidates; cbn [mmr_loop]; now rewrite app_nil_r.
  - destruct candidates as [|c0 rest0].
    + exists []. cbn [mmr_loop]. now rewrite app_nil_r.
    + cbn [mmr_loop]. destruct (pick_best cfg selected (c0 :: rest0)) as [i v].
      match goal with
      | |- exists more, mmr_loop _ _ ?cs ?sel (_ ++ [?r]) = _ =>
          destruct (IH cs sel (results ++ [r])) as [more Hm]; exists (r :: more);
          rewrite Hm, <- app_assoc; reflexivity
      end.
Qed.

Lemma sorted_candidates_perm `{MathLib} (b : ReasoningBank) (q : list Q) :
  Permutation
    (map (fun c => (memory (fst c), snd c)) (sorted_candidates b q))
    (map (fun e => (memory e, cosineSimilarity q (embedding (memory e))))
       (map_values (memories b))).
Proof.
  unfold sorted_candidates.
  rewrite (Permutation_map _ (js_sort_perm _ _)), map_map. reflexivity.
Qed.

(** X2: [retrieve] returns [min k n] results, [n] being the number of
    stored memories ([retrievalK] stands for [k] when it is not given;
    none for [k <= 0]). *)
Theorem retrieve_length `{MathLib} (b : ReasoningBank) (queryEmbedding : list Q)
    (k : option Z) :
  length (snd (retrieve b queryEmbedding k))
  = Nat.min (Z.to_nat (match k with Some k => k | None => retrievalK (config b) end))
      (length (memories b)).
Proof.
  unfold retrieve.
  destruct (memories b) as [|e m] eqn:Em; [cbn [snd length]; now rewrite Nat.min_0_r|].
  cbn [snd]. rewrite <- Em.
  destruct (mmr_loop_picks (config b)
              (Z.to_nat (match k with Some k => k | None => retrievalK (config b) end))
              (sorted_candidates b queryEmbedding) [] [])
    as [picked [rest [_ [Hlen Hres]]]].
  cbn [map app] in Hres. apply (f_equal (@length _)) in Hres. rewrite !length_map in Hres.
  rewrite Hres, Hlen. f_equal.
  unfold sorted_candidates. rewrite js_sort_length. unfold map_values.
  now rewrite !length_map.
Qed.

(** X3: the results of [retrieve] are distinct stored memories, each
    with its cosine similarity to the query as relevance: the stored
    memories with their similarities are the results and a rest, up to
    order. *)
Theorem retrieve_from_store `{MathLib} (b : ReasoningBank) (queryEmbedding : list Q)
    (k : option Z) :
  exists rest,
    Permutation
      (map (fun e => (memory e, cosineSimilarity queryEmbedding (embedding (memory e))))
         (map_values (memories b)))
      (map (fun r => (r_memory r, r_relevanceScore r)) (snd (retrieve b queryEmbedding k))
       ++ rest).
Proof.
  unfold retrieve.
  destruct (memories b) as [|e m] eqn:Em.
  - exists []. reflexivity.
  - cbn [snd]. rewrite <- Em.
    destruct (mmr_loop_picks (config b)
                (Z.to_nat (match k with Some k => k | None => retrievalK (config b) end))
                (sorted_candidates b queryEmbedding) [] [])
      as [picked [rest [Hperm [_ Hres]]]].
    exists (map (fun c => (memory (fst c), snd c)) rest).
    rewrite Hres. cbn [map app]. rewrite <- map_app.
    rewrite <- (sorted_candidates_perm b queryEmbedding).
    now apply Permutation_map.
Qed.


Lemma mmrScore_first_round `{MathLib} (cfg : ReasoningBankConfig) (c : MemoryEntry * Q) :
  mmrScore cfg [] c == mmrLambda cfg * snd c + (1 - mmrLambda cfg).
Proof. unfold mmrScore. cbn [fold_left]. ring. Qed.

(** X5: with [mmrLambda >= 0], a non-empty store and [k >= 1], the first
    result of [retrieve] is the head of the relevance-sorted candidates:
    no stored memory is more similar to the query, and its diversity
    score is 1. *)
Theorem retrieve_first_most_relevant `{MathLib} (b : ReasoningBank)
    (queryEmbedding : list Q) (k : option Z) :
  0 <= mmrLambda (config b) ->
  memories b <> [] ->
  (0 < match k with Some k => k | None => retrievalK (config b) end)%Z ->
  exists r more c cs,
    snd (retrieve b queryEmbedding k) = r :: more
    /\ sorted_candidates b queryEmbedding = c :: cs
    /\ r_memory r = memory (fst c)
    /\ r_relevanceScore r = cosineSimilarity queryEmbedding (embedding (r_memory r))
    /\ diversityScore r == 1
    /\ (forall kv, In kv (memories b) ->
        cosineSimilarity queryEmbedding (embedding (memory (snd kv))) <= r_relevanceScore r).
Proof.
  intros Hl Hne Hk. unfold retrieve.
  destruct (memories b) as [|e0 m0] eqn:Em; [contradiction|]. rewrite <- Em. cbn [snd].
  set (K := match k with Some k => k | None => retrievalK (config b) end) in *.
  destruct (Z.to_nat K) as [|n] eqn:En; [lia|].
  assert (Hsorted := sorted_candidates_sorted b queryEmbedding).
  assert (Hrel := sorted_candidates_relevance b queryEmbedding).
  assert (Hperm := sorted_candidates_perm b queryEmbedding).
  destruct (sorted_candidates b queryEmbedding) as [|c cs] eqn:Ec.
  { apply Permutation_length in Hperm. unfold map_values in Hperm.
    rewrite !length_map, Em in Hperm. discriminate Hperm. }
  apply StronglySorted_inv in Hsorted as [_ Hall].
  assert (Hpick : pick_best (config b) [] (c :: cs)
                  = (0%nat, Num (mmrScore (config b) [] c))).
  { destruct (pick_best_scan (config b) [] (c :: cs)) as [i [v [Hp Hb]]];
      [discriminate|].
    destruct Hb as [ci [Hn [Hv [_ Hfirst]]]].
    destruct i as [|i].
    - injection Hn as <-. now rewrite Hp, Hv.
    - exfalso. specialize (Hfirst 0%nat c (Nat.lt_0_succ i) eq_refl).
      simpl in Hn. apply nth_error_In in Hn.
      rewrite Forall_forall in Hall. specialize (Hall ci Hn). cbv beta in Hall.
      rewrite Hv, !mmrScore_first_round in Hfirst. nra. }
  cbn [mmr_loop]. rewrite Hpick. cbn [nth splice1 app].
  match goal with
  | |- exists r more c' cs', mmr_loop _ _ ?cands ?sel [?r0] = _ /\ _ =>
      destruct (mmr_loop_prefix (config b) n cands sel [r0]) as [more Hm];
      exists r0, more, c, cs
  end.
  rewrite Hm. cbn [app r_memory r_relevanceScore diversityScore].
  apply Forall_cons_iff in Hrel as [Hc _].
  split; [reflexivity|]. split; [reflexivity|]. split; [reflexivity|].
  split; [exact Hc|]. split.
  - unfold computeMaxSimilarity. cbn [removelast fold_left]. ring.
  - intros kv Hin.
    assert (Hin' : In (memory (snd kv),
                       cosineSimilarity queryEmbedding (embedding (memory (snd kv))))
                     (map (fun c => (memory (fst c), snd c)) (c :: cs))).
    { apply (Permutation_in _ (Permutation_sym Hperm)).
      unfold map_values. rewrite map_map.
      apply (in_map (fun x => (memory (snd x),
                               cosineSimilarity queryEmbedding (embedding (memory (snd x)))))).
      exact Hin. }
    apply in_map_iff in Hin' as [c' [Heq [<-|Hc']]].
    + injection Heq as _ Hs. rewrite <- Hs. apply Qle_refl.
    + injection Heq as _ Hs. rewrite <- Hs.
      rewrite Forall_forall in Hall. specialize (Hall c' Hc'). cbv beta in Hall. lra.
Qed.

Lemma retrieve_first_most_relevant_witness :
  0 <= mmrLambda (config contradiction_bank)
  /\ memories contradiction_bank <> []
  /\ (0 < retrievalK (config contradiction_bank))%Z
  /\ exists r more,
       snd (@retrieve exact_math contradiction_bank [12; 5] None) = r :: more
       /\ memoryId (r_memory r) = "mem_0_r1".
Proof.
  assert (H0 : 0 <= mmrLambda (config contradiction_bank)) by (vm_compute; discriminate).
  assert (H1 : memories contradiction_bank <> []) by (vm_compute; discriminate).
  assert (H2 : (0 < retrievalK (config contradiction_bank))%Z) by reflexivity.
  split; [exact H0|]. split; [exact H1|]. split; [exact H2|].
  destruct (@retrieve_first_most_relevant exact_math contradiction_bank [12; 5] None
              H0 H1 H2) as [r [more [c [cs [Hr [Hc [Hm _]]]]]]].
  exists r, more. split; [exact Hr|]. rewrite Hm.
  assert (Hhead : map (fun c => memoryId (memory (fst c)))
                    (@sorted_candidates exact_math contradiction_bank [12; 5])
                  = ["mem_0_r1"; "mem_0_r0"]) by (vm_compute; reflexivity).
  rewrite Hc in Hhead. cbn [map] in Hhead. now injection Hhead.
Defined.

(** ** cosineSimilarity *)

Lemma cosine_sums_sym (a b : list Q) (d d' na nb : Q) :
  d == d' ->
  let s := fold_left
             (fun '(dot, normA, normB) '(x, y) => (dot + x * y, normA + x * x, normB + y * y))
             (combine a b) (d, na, nb) in
  let s' := fold_left
              (fun '(dot, normA, normB) '(x, y) => (dot + x * y, normA + x * x, normB + y * y))
              (combine b a) (d', nb, na) in
  fst (fst s) == fst (fst s') /\ snd (fst s) = snd s' /\ snd s = snd (fst s').
Proof.
  revert b d d' na nb. induction a as [|x a IH]; intros [|y b] d d' na nb Hd;
    cbv zeta; cbn [combine fold_left fst snd];
    try (split; [exact Hd|split; reflexivity]).
  apply IH. rewrite Hd. ring.
Qed.

Lemma cosineSimilarity_comm `{MathLib} (a b : list Q) :
  cosineSimilarity a b == cosineSimilarity b a.
Proof.
  unfold cosineSimilarity. rewrite (Nat.eqb_sym (length b) (length a)).
  destruct (length a =? length b)%nat; cbn [negb]; [|reflexivity].
  assert (Hs := cosine_sums_sym a b 0 0 0 0 (Qeq_refl 0)). cbv zeta in Hs.
  destruct (fold_left _ (combine a b) _) as [[dot normA] normB].
  destruct (fold_left _ (combine b a) _) as [[dot' normA'] normB'].
  cbn [fst snd] in Hs. destruct Hs as [Hd [Ha Hb]]. subst normA normB.
  assert (Hden : Math_sqrt normB' * Math_sqrt normA' == Math_sqrt normA' * Math_sqrt normB')
    by ring.
  unfold Qltb. rewrite Hden.
  destruct (Qle_bool (Math_sqrt normA' * Math_sqrt normB') 0); cbn [negb]; [reflexivity|].
  now rewrite Hd, Hden.
Qed.

(** X6: [cosineSimilarity] is symmetric: the similarity of two vectors
    does not depend on which one is given first. *)
Theorem cosineSimilarity_sym `{MathLib} (a b : list Q) :
  cosineSimilarity a b == cosineSimilarity b a.
Proof.
  unfold cosineSimilarity. rewrite (Nat.eqb_sym (length b) (length a)).
  destruct (length a =? length b)%nat; cbn [negb]; [|reflexivity].
  assert (Hs := cosine_sums_sym a b 0 0 0 0 (Qeq_refl 0)). cbv zeta in Hs.
  destruct (fold_left _ (combine a b) _) as [[dot normA] normB].
  destruct (fold_left _ (combine b a) _) as [[dot' normA'] normB'].
  cbn [fst snd] in Hs. destruct Hs as [Hd [Ha Hb]]. subst normA normB.
  assert (Hden : Math_sqrt normB' * Math_sqrt normA' == Math_sqrt normA' * Math_sqrt normB')
    by ring.
  unfold Qltb. rewrite Hden.
  destruct (Qle_bool (Math_sqrt normA' * Math_sqrt normB') 0); cbn [negb]; [reflexivity|].
  now rewrite Hd, Hden.
Qed.

(** ** The verdict of [judge] *)

Lemma positive_steps_le (l : list TrajectoryStep) : (positive_steps l <= length l)%nat.
Proof. rewrite <- positive_steps_filter. apply filter_length_le. Qed.

Lemma positiveRatio_bounds `{MathLib} (l : list TrajectoryStep) :
  0 <= positiveRatio (analyzeSteps l) <= 1.
Proof.
  unfold analyzeSteps. cbn [positiveRatio]. rewrite positive_steps_filter.
  destruct (0 <? length l)%nat eqn:E; [|split; [apply Qle_refl|discriminate]].
  apply Nat.ltb_lt in E. unfold Qlen.
  assert (Hp := positive_steps_le l).
  assert (Hpos : 0 < inject_Z (Z.of_nat (length l))).
  { change 0 with (inject_Z 0). rewrite <- Zlt_Qlt. lia. }
  split.
  - apply Qle_shift_div_l; [exact Hpos|]. rewrite Qmult_0_l.
    change 0 with (inject_Z 0). rewrite <- Zle_Qle. lia.
  - apply Qle_shift_div_r; [exact Hpos|]. rewrite Qmult_1_l.
    rewrite <- Zle_Qle. lia.
Qed.

(** X7: for a complete trajectory whose [qualityScore] lies in [0, 1],
    the confidence of the verdict of [judge] lies in [0, 1]. *)
Theorem judge_confidence_bounds `{MathLib} (cfg : ReasoningBankConfig) (now : Z)
    (t : Trajectory) :
  isComplete t = true ->
  0 <= qualityScore t <= 1 ->
  exists v, judge cfg now t = Ok (v, set_verdict t v) /\ 0 <= confidence v <= 1.
Proof.
  intros Hc [Hq0 Hq1]. unfold judge. rewrite Hc. cbn [negb].
  eexists. split; [reflexivity|]. cbn [confidence]. unfold computeConfidence. cbv zeta.
  assert (Hr := positiveRatio_bounds (steps t)).
  set (ratio := positiveRatio (analyzeSteps (steps t))) in *.
  set (n := inject_Z (Z.of_nat (totalSteps (analyzeSteps (steps t)))) / 10).
  assert (Hn : 0 <= n).
  { unfold n. apply Qle_shift_div_l; [reflexivity|]. rewrite Qmult_0_l.
    change 0 with (inject_Z 0). rewrite <- Zle_Qle. lia. }
  assert (Hmin : 0 <= Qmin n 1 <= 1).
  { split; [apply Q.min_glb; [exact Hn|discriminate]|apply Q.le_min_r]. }
  assert (Habs : 0 <= Qabs (qualityScore t - 0.5) <= 0.5).
  { split; [apply Qabs_nonneg|]. apply Qabs_Qle_condition. split; lra. }
  lra.
Qed.

Lemma judge_confidence_bounds_witness :
  isComplete scenario_trajectory = true
  /\ 0 <= qualityScore scenario_trajectory <= 1
  /\ exists v,
       @judge exact_math DEFAULT_CONFIG 0 scenario_trajectory
       = Ok (v, set_verdict scenario_trajectory v)
       /\ 0 <= confidence v <= 1.
Proof.
  assert (Hq : 0 <= qualityScore scenario_trajectory <= 1)
    by (split; vm_compute; discriminate).
  split; [reflexivity|]. split; [exact Hq|].
  exact (@judge_confidence_bounds exact_math DEFAULT_CONFIG 0 scenario_trajectory
           eq_refl Hq).
Defined.

(** X8: the verdict of [judge] carries exactly one improvement for each
    weakness. *)
Theorem judge_improvements_per_weakness `{MathLib} (cfg : ReasoningBankConfig) (now : Z)
    (t : Trajectory) (v : TrajectoryVerdict) (t' : Trajectory) :
  judge cfg now t = Ok (v, t') ->
  length (improvements v) = length (weaknesses v).
Proof.
  unfold judge. destruct (negb (isComplete t)); [discriminate|].
  intro Hj. injection Hj as <- _. cbn [improvements weaknesses].
  unfold identifyWeaknesses.
  destruct (Qltb (avgReward _) 0.4), (Qltb (sa_trajectory _) (-0.1)),
    (Qltb (positiveRatio _) 0.5), ((10 <? totalSteps _)%nat && Qltb (qualityScore t) 0.7);
    reflexivity.
Qed.

Lemma judge_improvements_per_weakness_witness :
  exists v t',
    @judge exact_math DEFAULT_CONFIG 0 weak_trajectory = Ok (v, t')
    /\ length (improvements v) = 3%nat.
Proof.
  destruct (@judge exact_math DEFAULT_CONFIG 0 weak_trajectory) as [[v t']|] eqn:Hj;
    [|exfalso; vm_compute in Hj; discriminate Hj].
  exists v, t'. split; [reflexivity|].
  rewrite (@judge_improvements_per_weakness exact_math DEFAULT_CONFIG 0 _ _ _ Hj).
  vm_compute in Hj. injection Hj as <- _. reflexivity.
Defined.

(** X9: a verdict of [judge] with [success = true] never lists the
    weakness of many negative or neutral steps, and its trajectory has
    [qualityScore >= distillationThreshold]. *)
Theorem judge_success_excludes_negative_steps `{MathLib} (cfg : ReasoningBankConfig)
    (now : Z) (t : Trajectory) (v : TrajectoryVerdict) (t' : Trajectory) :
  judge cfg now t = Ok (v, t') ->
  success v = true ->
  ~ In "Many negative/neutral steps" (weaknesses v)
  /\ distillationThreshold cfg <= qualityScore t.
Proof.
  unfold judge. destruct (negb (isComplete t)); [discriminate|].
  intro Hj. injection Hj as <- _. cbn [success weaknesses].
  intro Hs. apply andb_true_iff in Hs as [Hq Hr].
  apply Qle_bool_iff in Hq. apply Qltb_lt in Hr. split; [|exact Hq].
  assert (Hno : Qltb (positiveRatio (analyzeSteps (steps t))) 0.5 = false).
  { apply Qltb_ge. apply Qlt_le_weak. eapply Qlt_trans; [|exact Hr]. reflexivity. }
  unfold identifyWeaknesses. rewrite Hno.
  destruct (Qltb (avgReward _) 0.4), (Qltb (sa_trajectory _) (-0.1)),
    ((10 <? totalSteps _)%nat && Qltb (qualityScore t) 0.7);
    cbn [app In]; intuition discriminate.
Qed.

Lemma judge_success_excludes_negative_steps_witness :
  exists v t',
    @judge exact_math DEFAULT_CONFIG 0 scenario_trajectory = Ok (v, t')
    /\ success v = true
    /\ ~ In "Many negative/neutral steps" (weaknesses v).
Proof.
  destruct (@judge exact_math DEFAULT_CONFIG 0 scenario_trajectory) as [[v t']|] eqn:Hj;
    [|exfalso; vm_compute in Hj; discriminate Hj].
  assert (Hs : success v = true) by (vm_compute in Hj; injection Hj as <- _; reflexivity).
  exists v, t'. split; [reflexivity|]. split; [exact Hs|].
  exact (proj1 (@judge_success_excludes_negative_steps exact_math DEFAULT_CONFIG 0
                  scenario_trajectory v t' Hj Hs)).
Defined.

(** ** The aggregate embedding of [distill] *)

Lemma nth_error_proj_default (l : list Q) (j : nat) (x : Q) :
  nth_error l j = Some x -> nth j l 0 = x.
Proof. intro Hn. now apply nth_error_nth. Qed.


Lemma aggregate_length (t : Trajectory) :
  length (computeAggregateEmbedding t)
  = match steps t with
    | [] => 768%nat
    | first :: _ => length (stateAfter first)
    end.
Proof.
  unfold computeAggregateEmbedding.
  destruct (steps t) as [|first rest] eqn:Es; [apply repeat_length|].
  rewrite <- Es.
  pose (P := fun st : list Q * Q => length (fst st) = length (stateAfter first)).
  assert (HP : P (fold_left
                    (fun '(aggregate, totalWeight) '(i, step) =>
                       let weight := inject_Z (Z.of_nat i + 1) / Qlen (steps t) in
                       (map (fun j => nth j aggregate 0 + nth j (stateAfter step) 0 * weight)
                          (seq 0 (length (stateAfter first))),
                        totalWeight + weight))
                    (indexed (steps t)) (repeat 0 (length (stateAfter first)), 0))).
  { apply fold_left_preserves.
    - intros [agg tw] [i step] _. unfold P. cbn [fst]. now rewrite length_map, length_seq.
    - unfold P. cbn [fst]. apply repeat_length. }
  destruct (fold_left _ _ _) as [agg tw]. rewrite length_map. exact HP.
Qed.

Lemma judge_if_needed_steps `{MathLib} cfg now t t1 :
  judge_if_needed cfg now t = Ok t1 -> steps t1 = steps t.
Proof.
  unfold judge_if_needed, judge. destruct (verdict t).
  - intro Hj. now injection Hj as <-.
  - destruct (negb (isComplete t)); [discriminate|]. cbn [bind snd].
    intro Hj. now injection Hj as <-.
Qed.

(** X10: the embedding of a memory that [distill] returns has the
    dimension of the state of the trajectory's first step, and 768
    cells when the trajectory has no step. *)
Theorem distill_embedding_dimension `{MathLib} (now : Z) (rnd : string) (b b' : ReasoningBank)
    (t t' : Trajectory) (m : DistilledMemory) :
  distill now rnd b t = Ok (b', t', Some m) ->
  length (embedding m)
  = match steps t with
    | [] => 768%nat
    | first :: _ => length (stateAfter first)
    end.
Proof.
  intro Hd.
  destruct (distill_Some_inv _ _ _ _ _ _ _ Hd) as [t0 [v [Hj [_ [_ [_ [_ [Hm _]]]]]]]].
  rewrite Hm. cbn [distilled_entry memory embedding].
  rewrite aggregate_length, (judge_if_needed_steps _ _ _ _ Hj). reflexivity.
Qed.

Lemma distill_embedding_dimension_witness :
  exists b' t' m,
    @distill exact_math 0 "k3x9q2a" (createReasoningBank DEFAULT_CONFIG) scenario_trajectory
    = Ok (b', t', Some m)
    /\ length (embedding m) = 2%nat.
Proof.
  destruct (@distill exact_math 0 "k3x9q2a" (createReasoningBank DEFAULT_CONFIG)
              scenario_trajectory) as [[[b' t'] [m|]]|] eqn:Hd;
    try (exfalso; vm_compute in Hd; discriminate Hd).
  exists b', t', m. split; [reflexivity|].
  exact (@distill_embedding_dimension exact_math 0 "k3x9q2a" _ b' scenario_trajectory t' m Hd).
Defined.

Section ConstantStates.
Variable s : list Q.
Variable N : Q.
Hypothesis N_pos : 0 < N.



End ConstantStates.




(** ** The maps keep their keys distinct *)

Section MapInvariants.
Context {V : Type}.
Implicit Types (m : list (string * V)) (k : string) (v : V).

Lemma map_get_set_other m k k' v : k' <> k -> map_get k' (map_set k v m) = map_get k' m.
Proof.
  intro Hk. induction m as [|[k0 v0] t IH]; simpl.
  - apply String.eqb_neq in Hk. now rewrite Hk.
  - destruct (String.eqb k k0) eqn:E; simpl.
    + apply String.eqb_eq in E. subst k0.
      apply String.eqb_neq in Hk. now rewrite Hk.
    + destruct (String.eqb k' k0); [reflexivity|exact IH].
Qed.

(** [set] on a present key keeps the keys; on an absent one it appends
    it. *)
Lemma map_set_keys m k v :
  map_keys (map_set k v m)
  = if existsb (String.eqb k) (map_keys m) then map_keys m else map_keys m ++ [k].
Proof.
  unfold map_keys. induction m as [|[k0 v0] t IH]; simpl; [reflexivity|].
  destruct (String.eqb k k0) eqn:E; simpl.
  - apply String.eqb_eq in E. now subst.
  - rewrite IH. now destruct (existsb (String.eqb k) (map fst t)).
Qed.

Lemma map_set_NoDup m k v : NoDup (map_keys m) -> NoDup (map_keys (map_set k v m)).
Proof.
  intro Hnd. rewrite map_set_keys.
  destruct (existsb (String.eqb k) (map_keys m)) eqn:E; [exact Hnd|].
  apply NoDup_app_remove_l with (l := []). simpl.
  apply Permutation_NoDup with (l := k :: map_keys m).
  - apply Permutation_cons_append.
  - constructor; [|exact Hnd]. intro Hin. apply existsb_eqb_In in Hin. congruence.
Qed.

Lemma map_set_length m k v :
  (length m <= length (map_set k v m) <= S (length m))%nat.
Proof.
  assert (H := f_equal (@length _) (map_set_keys m k v)).
  unfold map_keys in H. rewrite length_map in H.
  destruct (existsb _ _); [|rewrite length_app in H; simpl in H];
    rewrite length_map in H; lia.
Qed.

Lemma filter_keys_NoDup (p : string * V -> bool) m :
  NoDup (map_keys m) -> NoDup (map_keys (filter p m)).
Proof.
  unfold map_keys. induction m as [|kv t IH]; simpl; intro Hnd; [constructor|].
  inversion Hnd as [|? ? Hn Hnd']; subst.
  destruct (p kv); simpl; [|now apply IH].
  constructor; [|now apply IH].
  intro Hin. apply Hn. apply in_map_iff in Hin as [x [Hx Hin]].
  apply filter_In in Hin as [Hin _]. rewrite <- Hx. now apply in_map.
Qed.

Lemma map_delete_NoDup m k : NoDup (map_keys m) -> NoDup (map_keys (map_delete k m)).
Proof. apply filter_keys_NoDup. Qed.
End MapInvariants.

(** ** The trajectory store *)

(** What [pruneTrajectories] leaves: the trajectories above the
    [toRemove] of lowest quality. *)
Lemma pruneTrajectories_keeps (b : ReasoningBank) :
  NoDup (map_keys (trajectories b)) ->
  let entries :=
    js_sort (fun a b => qualityScore (snd a) - qualityScore (snd b)) (trajectories b) in
  let toRemove :=
    (Z.of_nat (length entries) - Qfloor (inject_Z (maxTrajectories (config b)) * 0.8))%Z in
  Permutation (trajectories (pruneTrajectories b)) (skipn (Z.to_nat toRemove) entries).
Proof.
  intros Hnd entries toRemove. unfold pruneTrajectories. cbn [trajectories set_trajectories].
  fold entries. fold toRemove.
  apply delete_part; [exact Hnd|].
  rewrite firstn_skipn. symmetry. apply js_sort_perm.
Qed.

(** X12: [storeTrajectory] keeps the store within capacity.  With
    [maxTrajectories >= 0], a store of distinct ids that holds at most
    [maxTrajectories] trajectories still does after [storeTrajectory],
    whatever is stored. *)
Theorem storeTrajectory_within_capacity (b : ReasoningBank) (t : Trajectory) :
  (0 <= maxTrajectories (config b))%Z ->
  NoDup (map_keys (trajectories b)) ->
  (Z.of_nat (length (trajectories b)) <= maxTrajectories (config b))%Z ->
  NoDup (map_keys (trajectories (storeTrajectory b t)))
  /\ (Z.of_nat (length (trajectories (storeTrajectory b t))) <= maxTrajectories (config b))%Z.
Proof.
  intros Hmax Hnd Hlen. unfold storeTrajectory.
  set (b1 := set_trajectories b (map_set (trajectoryId t) t (trajectories b))).
  assert (Hnd1 : NoDup (map_keys (trajectories b1))) by now apply map_set_NoDup.
  assert (Hl1 := map_set_length (trajectories b) (trajectoryId t) t).
  change (map_set (trajectoryId t) t (trajectories b)) with (trajectories b1) in Hl1.
  change (config b1) with (config b).
  destruct (maxTrajectories (config b) <? Z.of_nat (length (trajectories b1)))%Z eqn:E.
  - apply Z.ltb_lt in E.
    assert (Hp := pruneTrajectories_keeps b1 Hnd1). cbv zeta in Hp.
    change (config b1) with (config b) in Hp.
    split.
    + unfold pruneTrajectories. cbn [trajectories set_trajectories].
      rewrite fold_delete_filter. now apply filter_keys_NoDup.
    + rewrite (Permutation_length Hp), length_skipn, js_sort_length.
      assert (Hfl := floor_08_bounds (maxTrajectories (config b)) Hmax). lia.
  - apply Z.ltb_ge in E. now split.
Qed.

Lemma storeTrajectory_within_capacity_witness :
  (0 <= maxTrajectories (config full_bank))%Z
  /\ NoDup (map_keys (trajectories full_bank))
  /\ (Z.of_nat (length (trajectories full_bank)) <= maxTrajectories (config full_bank))%Z
  /\ (Z.of_nat (length (trajectories (storeTrajectory full_bank new_trajectory))) <= 2)%Z.
Proof.
  assert (H0 : (0 <= maxTrajectories (config full_bank))%Z) by (vm_compute; discriminate).
  assert (Hnd : NoDup (map_keys (trajectories full_bank))).
  { vm_compute. repeat constructor; simpl; intuition discriminate. }
  assert (Hl : (Z.of_nat (length (trajectories full_bank))
                <= maxTrajectories (config full_bank))%Z) by (vm_compute; discriminate).
  split; [exact H0|]. split; [exact Hnd|]. split; [exact Hl|].
  exact (proj2 (storeTrajectory_within_capacity full_bank new_trajectory H0 Hnd Hl)).
Defined.

(** X13: below capacity, [storeTrajectory] then [getTrajectory] returns
    the stored trajectory, and the trajectory of every other id is as
    before. *)
Theorem storeTrajectory_getTrajectory (b : ReasoningBank) (t : Trajectory) :
  (Z.of_nat (length (map_set (trajectoryId t) t (trajectories b)))
   <= maxTrajectories (config b))%Z ->
  getTrajectory (storeTrajectory b t) (trajectoryId t) = Some t
  /\ (forall id', id' <> trajectoryId t ->
      getTrajectory (storeTrajectory b t) id' = getTrajectory b id').
Proof.
  intro Hlen. unfold storeTrajectory, getTrajectory.
  cbn [trajectories set_trajectories config].
  assert (E : (maxTrajectories (config b)
               <? Z.of_nat (length (map_set (trajectoryId t) t (trajectories b))))%Z = false)
    by (apply Z.ltb_ge; exact Hlen).
  rewrite E. cbn [trajectories set_trajectories]. split.
  - apply map_get_set_same.
  - intros id' Hid. now apply map_get_set_other.
Qed.

Lemma storeTrajectory_getTrajectory_witness :
  (Z.of_nat (length (map_set (trajectoryId new_trajectory) new_trajectory
                       (trajectories (createReasoningBank DEFAULT_CONFIG))))
   <= maxTrajectories (config (createReasoningBank DEFAULT_CONFIG)))%Z
  /\ getTrajectory (storeTrajectory (createReasoningBank DEFAULT_CONFIG) new_trajectory) "t-c"
     = Some new_trajectory.
Proof.
  assert (Hl : (Z.of_nat (length (map_set (trajectoryId new_trajectory) new_trajectory
                                    (trajectories (createReasoningBank DEFAULT_CONFIG))))
                <= maxTrajectories (config (createReasoningBank DEFAULT_CONFIG)))%Z)
    by (vm_compute; discriminate).
  split; [exact Hl|].
  exact (proj1 (storeTrajectory_getTrajectory (createReasoningBank DEFAULT_CONFIG)
                  new_trajectory Hl)).
Defined.

(** ** What deduplication leaves and removes *)

Lemma pairs_nth {A : Type} (l : list A) (i j : nat) (x y : A) :
  (i < j)%nat -> nth_error l i = Some x -> nth_error l j = Some y -> In (x, y) (pairs l).
Proof.
  revert i j. induction l as [|a t IH]; intros i j Hij Hi Hj;
    [destruct i; discriminate Hi|].
  cbn [pairs]. apply in_or_app. destruct i as [|i].
  - injection Hi as ->. left. destruct j as [|j]; [lia|].
    apply in_map. simpl in Hj. now apply nth_error_In in Hj.
  - right. destruct j as [|j]; [lia|]. apply (IH i j); [lia|exact Hi|exact Hj].
Qed.


Lemma flat_map_nil_inv {A B : Type} (f : A -> list B) (l : list A) (x : A) :
  flat_map f l = [] -> In x l -> f x = [].
Proof.
  induction l as [|a t IH]; cbn [flat_map]; [intros _ []|].
  intros Hnil [->|Hin]; apply app_eq_nil in Hnil as [Ha Ht]; auto.
Qed.

Lemma consolidate_losers_nil `{MathLib} (now : Z) (b b' : ReasoningBank)
    (r : ConsolidationResult) :
  consolidate now b = Ok (b', r) ->
  dedup_losers (config b) (pairs (memories b')) = [].
Proof.
  intro Hc. destruct (consolidate_memories _ _ _ _ Hc) as [_ [_ Hv]].
  rewrite deduplicateMemories_spec in Hv. cbn [fst memories set_memories] in Hv.
  rewrite (losers_view (config b) _ _ Hv). apply losers_after_dedup.
Qed.

(** X14: after [consolidate] no two stored memories are duplicates: of any
    two of them, the cosine similarity of the earlier to the later is at
    most [dedupThreshold]. *)
Theorem consolidate_no_duplicates `{MathLib} (now : Z) (b b' : ReasoningBank)
    (r : ConsolidationResult) (i j : nat) (kvi kvj : string * MemoryEntry) :
  consolidate now b = Ok (b', r) ->
  (i < j)%nat ->
  nth_error (memories b') i = Some kvi -> nth_error (memories b') j = Some kvj ->
  cosineSimilarity (embedding (memory (snd kvi))) (embedding (memory (snd kvj)))
  <= dedupThreshold (config b).
Proof.
  intros Hc Hij Hi Hj.
  assert (Hnil := consolidate_losers_nil now b b' r Hc).
  assert (Hin := pairs_nth _ _ _ _ _ Hij Hi Hj).
  unfold dedup_losers in Hnil.
  assert (Hp := flat_map_nil_inv _ _ (kvi, kvj) Hnil Hin).
  cbn [fst snd dedup_view dedup_loser] in Hp.
  destruct (Qltb (dedupThreshold (config b)) _) eqn:E; [discriminate Hp|].
  now apply Qltb_ge in E.
Qed.

Lemma consolidate_no_duplicates_witness :
  exists b' r kvi kvj,
    @consolidate exact_math 2 contradiction_bank = Ok (b', r)
    /\ (0 < 1)%nat
    /\ nth_error (memories b') 0 = Some kvi
    /\ nth_error (memories b') 1 = Some kvj
    /\ @cosineSimilarity exact_math (embedding (memory (snd kvi)))
         (embedding (memory (snd kvj)))
       <= dedupThreshold (config contradiction_bank).
Proof.
  destruct (@consolidate exact_math 2 contradiction_bank) as [[b' r]|] eqn:Hc;
    [|exfalso; vm_compute in Hc; discriminate Hc].
  destruct (nth_error (memories b') 0) as [kvi|] eqn:Hi;
    [|exfalso; vm_compute in Hc; injection Hc as <- _; discriminate Hi].
  destruct (nth_error (memories b') 1) as [kvj|] eqn:Hj;
    [|exfalso; vm_compute in Hc; injection Hc as <- _; discriminate Hj].
  exists b', r, kvi, kvj.
  split; [reflexivity|]. split; [exact Nat.lt_0_1|].
  split; [exact Hi|]. split; [exact Hj|].
  exact (@consolidate_no_duplicates exact_math 2 contradiction_bank b' r 0 1 kvi kvj
           Hc Nat.lt_0_1 Hi Hj).
Defined.

Lemma filter_keys_bound {V : Type} (ks : list string) (m : list (string * V)) :
  NoDup (map_keys m) ->
  (length m
   <= length (filter (fun kv => negb (existsb (String.eqb (fst kv)) ks)) m) + length ks)%nat.
Proof.
  unfold map_keys. revert ks. induction m as [|[k v] t IH]; intros ks Hnd; [simpl; lia|].
  cbn [map fst] in Hnd. inversion Hnd as [|? ? Hnk Hnd']; subst.
  cbn [filter fst]. destruct (existsb (String.eqb k) ks) eqn:E; cbn [negb length].
  - apply existsb_eqb_In in E.
    assert (Hsame :
      filter (fun kv => negb (existsb (String.eqb (fst kv)) ks)) t
      = filter (fun kv => negb (existsb (String.eqb (fst kv)) (remove string_dec k ks))) t).
    { apply filter_ext_in. intros kv Hin. f_equal.
      assert (Hne : fst kv <> k).
      { intro Heq. apply Hnk. rewrite <- Heq. now apply in_map. }
      destruct (existsb (String.eqb (fst kv)) ks) eqn:E1.
      - symmetry. apply existsb_eqb_In. apply existsb_eqb_In in E1.
        now apply in_in_remove.
      - symmetry. destruct (existsb _ (remove _ _ _)) eqn:E2; [|reflexivity].
        apply existsb_eqb_In, in_remove in E2 as [E2 _].
        apply existsb_eqb_In in E2. congruence. }
    rewrite Hsame.
    assert (Hlt := remove_length_lt string_dec ks k E).
    specialize (IH (remove string_dec k ks) Hnd'). lia.
  - specialize (IH ks Hnd'). lia.
Qed.

Lemma consolidate_memories_shape `{MathLib} (now : Z) (b b' : ReasoningBank)
    (r : ConsolidationResult) :
  consolidate now b = Ok (b', r) ->
  removedDuplicates r = Z.of_nat (length (dedup_losers (config b) (pairs (memories b))))
  /\ map dedup_view (memories b')
     = map dedup_view
         (filter
            (fun kv =>
               negb (existsb (String.eqb (fst kv))
                       (dedup_losers (config b) (pairs (memories b)))))
            (memories b)).
Proof.
  intro Hc. destruct (consolidate_memories _ _ _ _ Hc) as [Hr [_ Hv]].
  rewrite deduplicateMemories_spec in Hr, Hv. split; [exact Hr|exact Hv].
Qed.

(** X15: [removedDuplicates] bounds what [consolidate] removes: in a store
    of distinct ids, no memory is added, and the number of memories that
    disappear is at most the reported [removedDuplicates]. *)
Theorem consolidate_removed_bound `{MathLib} (now : Z) (b b' : ReasoningBank)
    (r : ConsolidationResult) :
  NoDup (map_keys (memories b)) ->
  consolidate now b = Ok (b', r) ->
  (length (memories b') <= length (memories b))%nat
  /\ (Z.of_nat (length (memories b)) - Z.of_nat (length (memories b'))
      <= removedDuplicates r)%Z.
Proof.
  intros Hnd Hc. destruct (consolidate_memories_shape _ _ _ _ Hc) as [Hr Hv].
  apply (f_equal (@length _)) in Hv. rewrite !length_map in Hv. rewrite Hv, Hr.
  split; [apply filter_length_le|].
  assert (Hb := filter_keys_bound (dedup_losers (config b) (pairs (memories b)))
                  (memories b) Hnd).
  lia.
Qed.

Lemma consolidate_removed_bound_witness :
  NoDup (map_keys (memories triple_bank))
  /\ exists b' r,
       @consolidate exact_math 1 triple_bank = Ok (b', r)
       /\ (Z.of_nat (length (memories triple_bank)) - Z.of_nat (length (memories b'))
           <= removedDuplicates r)%Z.
Proof.
  assert (Hnd : NoDup (map_keys (memories triple_bank))).
  { vm_compute. repeat constructor; simpl; intuition discriminate. }
  split; [exact Hnd|].
  destruct (@consolidate exact_math 1 triple_bank) as [[b' r]|] eqn:Hc;
    [|exfalso; vm_compute in Hc; discriminate Hc].
  exists b', r. split; [reflexivity|].
  exact (proj2 (@consolidate_removed_bound exact_math 1 triple_bank b' r Hnd Hc)).
Defined.

(** The bound is not always met: of three mutual duplicates two are
    removed and three removals are reported. *)
Example consolidate_reports_more_than_removed :
  match @consolidate exact_math 1 triple_bank with
  | Ok (b', r) => (map_keys (memories b'), removedDuplicates r)
  | Throw _ => ([], 0%Z)
  end = (["mem_0_r0"], 3%Z).
Proof. vm_compute. reflexivity. Qed.




(** ** Which memories contradiction detection marks *)

Lemma fold_left_preserves_in {S X : Type} (P : S -> Prop) (f : S -> X -> S) (l : list X)
    (s : S) :
  (forall s x, In x l -> P s -> P (f s x)) -> P s -> P (fold_left f l s).
Proof.
  revert s. induction l as [|x t IH]; intros s Hf Hs; [exact Hs|].
  cbn [fold_left]. apply IH.
  - intros s' y Hy. apply Hf. now right.
  - apply Hf; [now left|exact Hs].
Qed.

Lemma in_combine_seq_inv {A : Type} (l : list A) (s i : nat) (x : A) :
  In (i, x) (combine (seq s (length l)) l) ->
  (s <= i)%nat /\ nth_error l (i - s) = Some x.
Proof.
  revert s. induction l as [|a t IH]; intros s Hin; [contradiction|].
  cbn [length seq combine] in Hin. destruct Hin as [Heq|Hin].
  - injection Heq as <- <-. split; [lia|]. now rewrite Nat.sub_diag.
  - destruct (IH (S s) Hin) as [Hs Hn]. split; [lia|].
    replace (i - s)%nat with (S (i - S s)) by lia. exact Hn.
Qed.

Lemma pairs_combine_seq_inv {A : Type} (l : list A) (s i j : nat) (x y : A) :
  In ((i, x), (j, y)) (pairs (combine (seq s (length l)) l)) ->
  (s <= i < j)%nat /\ nth_error l (i - s) = Some x /\ nth_error l (j - s) = Some y.
Proof.
  revert s. induction l as [|a t IH]; intros s Hin; [contradiction|].
  cbn [length seq combine pairs] in Hin. apply in_app_or in Hin as [Hin|Hin].
  - apply in_map_iff in Hin as [[j' y'] [Heq Hin]]. injection Heq as <- <- <- <-.
    destruct (in_combine_seq_inv t (S s) j' y' Hin) as [Hs Hn].
    split; [lia|]. rewrite Nat.sub_diag. split; [reflexivity|].
    replace (j' - s)%nat with (S (j' - S s)) by lia. exact Hn.
  - destruct (IH (S s) Hin) as [Hs [Hi Hj]]. split; [lia|].
    replace (i - s)%nat with (S (i - S s)) by lia.
    replace (j - s)%nat with (S (j - S s)) by lia. now split.
Qed.

Lemma flag_at_update_inv (mems : list (string * MemoryEntry)) (i x : nat) :
  flag_at (update_nth i set_consolidated mems) x = true -> x = i \/ flag_at mems x = true.
Proof.
  destruct (Nat.eq_dec x i) as [->|Hx]; [now left|].
  unfold flag_at. rewrite nth_error_update_nth_other by exact Hx. now right.
Qed.

Lemma detect_flags_justified `{MathLib} (b : ReasoningBank) (x : nat) :
  flag_at (memories (fst (detectContradictions b))) x = true ->
  flag_at (memories b) x = true \/ contradicted (memories b) x.
Proof.
  unfold detectContradictions.
  pose (P := fun st : list (string * MemoryEntry) * Z =>
               forall x, flag_at (fst st) x = true ->
                         flag_at (memories b) x = true \/ contradicted (memories b) x).
  assert (HP : P (fold_left contradiction_step
                    (pairs (indexed (map_values (memories b)))) (memories b, 0%Z))).
  { apply fold_left_preserves_in; [|intros x0 H0; now left].
    intros [mems c] [[i ei] [j ej]] Hin Hs. unfold P in *. cbn [fst] in *.
    unfold indexed, map_values in Hin.
    apply pairs_combine_seq_inv in Hin as [Hij [Hi Hj]].
    rewrite Nat.sub_0_r, nth_error_map in Hi, Hj.
    destruct (nth_error (memories b) i) as [ki|] eqn:Eki; [|discriminate Hi].
    destruct (nth_error (memories b) j) as [kj|] eqn:Ekj; [|discriminate Hj].
    cbn [option_map] in Hi, Hj. injection Hi as <-. injection Hj as <-.
    cbn [contradiction_step].
    destruct (Qltb 0.8 _) eqn:Esim; [|exact Hs].
    destruct (Qltb 0.4 _) eqn:Ediff; [|exact Hs].
    apply Qltb_lt in Esim, Ediff.
    destruct (Qltb (quality (memory (snd ki))) (quality (memory (snd kj)))) eqn:Elt;
      cbn [fst]; intros x0 Hx0; apply flag_at_update_inv in Hx0 as [->|Hx0]; auto; right.
    - apply Qltb_lt in Elt. exists j, ki, kj.
      split; [exact Eki|]. split; [exact Ekj|]. split; [exact Elt|]. split; [|exact Esim].
      rewrite Qabs_neg in Ediff by lra. lra.
    - apply Qltb_ge in Elt. exists i, kj, ki.
      rewrite Qabs_pos in Ediff by lra.
      split; [exact Ekj|]. split; [exact Eki|]. split; [lra|]. split; [lra|].
      now rewrite cosineSimilarity_comm. }
  intro Hx. destruct (fold_left contradiction_step _ _) as [mems c]. exact (HP x Hx).
Qed.

Lemma consolidate_memories_exact `{MathLib} (now : Z) (b b' : ReasoningBank)
    (r : ConsolidationResult) :
  consolidate now b = Ok (b', r) ->
  memories b'
  = memories (fst (if enableContradictionDetection (config b)
                   then detectContradictions (fst (deduplicateMemories b))
                   else (fst (deduplicateMemories b), 0%Z))).
Proof.
  unfold consolidate.
  destruct (deduplicateMemories b) as [b1 n1] eqn:E1. cbn [fst].
  assert (Hc1 : config b1 = config b).
  { rewrite deduplicateMemories_spec in E1. injection E1 as <- _. reflexivity. }
  rewrite Hc1.
  destruct (if enableContradictionDetection (config b) then detectContradictions b1
            else (b1, 0%Z)) as [b2 n2].
  unfold pruneOldPatterns.
  match goal with
  | |- context [mergePatterns now ?b3] =>
      destruct (mergePatterns_memories now b3) as [Hm4 _];
      destruct (mergePatterns now b3) as [b4 n4]
  end.
  rewrite emitEvent_ok. cbn [bind fst] in *. intro Hok. injection Hok as <- _.
  cbn [memories set_console]. exact Hm4.
Qed.

(** X17: [consolidate] sets the [consolidated] flag only where it is due
    and clears none.  Of the memories that deduplication leaves, one is
    flagged afterwards only if it was flagged before or is the
    lower-quality member of a pair with similarity above 0.8 and
    qualities more than 0.4 apart; one that was flagged stays flagged. *)
Theorem consolidate_flags_justified `{MathLib} (now : Z) (b b' : ReasoningBank)
    (r : ConsolidationResult) (x : nat) :
  consolidate now b = Ok (b', r) ->
  let deduplicated := memories (fst (deduplicateMemories b)) in
  (flag_at (memories b') x = true ->
   flag_at deduplicated x = true \/ contradicted deduplicated x)
  /\ (flag_at deduplicated x = true -> flag_at (memories b') x = true).
Proof.
  intros Hc deduplicated. rewrite (consolidate_memories_exact now b b' r Hc).
  destruct (enableContradictionDetection (config b)); cbn [fst].
  - split; [apply detect_flags_justified|].
    unfold detectContradictions. intro Hx.
    assert (Hm := contradiction_fold_mono
                    (pairs (indexed (map_values (memories (fst (deduplicateMemories b))))))
                    (memories (fst (deduplicateMemories b)), 0%Z) x Hx).
    destruct (fold_left contradiction_step _ _) as [mems c]. exact Hm.
  - split; auto.
Qed.

Lemma consolidate_flags_justified_witness :
  exists b' r,
    @consolidate exact_math 2 contradiction_bank = Ok (b', r)
    /\ flag_at (memories b') 1 = true
    /\ @contradicted exact_math
         (memories (fst (@deduplicateMemories exact_math contradiction_bank))) 1.
Proof.
  destruct (@consolidate exact_math 2 contradiction_bank) as [[b' r]|] eqn:Hc;
    [|exfalso; vm_compute in Hc; discriminate Hc].
  assert (Hflag : flag_at (memories b') 1 = true)
    by (vm_compute in Hc; injection Hc as <- _; reflexivity).
  exists b', r. split; [reflexivity|]. split; [exact Hflag|].
  destruct (proj1 (@consolidate_flags_justified exact_math 2 contradiction_bank b' r 1 Hc)
              Hflag) as [Hold|Hj]; [|exact Hj].
  exfalso. vm_compute in Hold. discriminate Hold.
Defined.

(** ** What [consolidate] does to the patterns *)

Lemma pattern_extends_refl (p : Pattern) : pattern_extends p p.
Proof.
  unfold pattern_extends. repeat split; try reflexivity; exists []; now rewrite app_nil_r.
Qed.

Lemma pattern_extends_merge (now : Z) (old p remove : Pattern) (removeId : string) :
  pattern_extends old p -> pattern_extends old (merge_into now p remove removeId).
Proof.
  unfold pattern_extends. cbn [merge_into patternId name p_domain p_embedding p_strategy
    successRate createdAt updatedAt qualityHistory evolutionHistory].
  intros [H1 [H2 [H3 [H4 [H5 [H6 [H7 [H8 [[q Hq] [e He]]]]]]]]]].
  repeat split; try assumption.
  - exists (q ++ qualityHistory remove). now rewrite Hq, app_assoc.
  - eexists. rewrite He, <- app_assoc. reflexivity.
Qed.

Lemma Forall2_update_nth_r {A : Type} (R : A -> A -> Prop) (g : A -> A) (i : nat)
    (l0 l : list A) :
  (forall a b, R a b -> R a (g b)) -> Forall2 R l0 l -> Forall2 R l0 (update_nth i g l).
Proof.
  intros Hg Hf. revert i. induction Hf as [|a b l0 l Hab Hf IH]; intros [|i]; cbn [update_nth];
    constructor; auto.
Qed.

Lemma Forall2_refl {A : Type} (R : A -> A -> Prop) (l : list A) :
  (forall a, R a a) -> Forall2 R l l.
Proof. intro Hr. induction l; constructor; auto. Qed.

Lemma Forall2_in_r {A : Type} (R : A -> A -> Prop) (l0 l : list A) (b : A) :
  Forall2 R l0 l -> In b l -> exists a, In a l0 /\ R a b.
Proof.
  induction 1 as [|a0 b0 l0 l Hab Hf IH]; [intros []|].
  intros [<-|Hin].
  - exists a0. split; [now left|exact Hab].
  - destruct (IH Hin) as [a [Ha HR]]. exists a. split; [now right|exact HR].
Qed.

Lemma mergePatterns_extends `{MathLib} (now : Z) (b : ReasoningBank) (id : string)
    (p' : Pattern) :
  In (id, p') (patterns (fst (mergePatterns now b))) ->
  exists p, In (id, p) (patterns b) /\ pattern_extends p p'.
Proof.
  unfold mergePatterns.
  pose (R := fun old new : string * Pattern =>
               fst new = fst old /\ pattern_extends (snd old) (snd new)).
  pose (P := fun st : list (string * Pattern) * list string * Z =>
               Forall2 R (patterns b) (fst (fst st))).
  assert (HP : P (fold_left (merge_step now) (pairs (seq 0 (length (patterns b))))
                    (patterns b, [], 0%Z))).
  { apply fold_left_preserves.
    - intros [[arr deleted] merged] [i j] Hs. unfold P in *. cbn [fst] in *.
      cbn [merge_step].
      destruct (nth_error arr i) as [[idi pi]|]; [|exact Hs].
      destruct (nth_error arr j) as [[idj pj]|]; [|exact Hs].
      destruct (Qltb 0.9 _ && String.eqb _ _); [|exact Hs].
      destruct (Qltb (successRate pi) (successRate pj)); cbn [fst];
        (apply Forall2_update_nth_r; [|exact Hs]);
        intros a c [Hk He]; split; cbn [fst snd]; auto using pattern_extends_merge.
    - unfold P. cbn [fst]. apply Forall2_refl. intro a. split; [reflexivity|].
      apply pattern_extends_refl. }
  destruct (fold_left _ _ _) as [[arr deleted] merged]. unfold P in HP. cbn [fst] in *.
  cbn [patterns set_patterns]. intro Hin. apply filter_In in Hin as [Hin _].
  destruct (Forall2_in_r R _ _ _ HP Hin) as [[id0 p] [Hp [Hk He]]].
  cbn [fst snd] in Hk, He. subst id0. exists p. now split.
Qed.

Lemma detectContradictions_patterns `{MathLib} (b : ReasoningBank) :
  patterns (fst (detectContradictions b)) = patterns b.
Proof.
  unfold detectContradictions. destruct (fold_left _ _ _) as [mems c]. reflexivity.
Qed.

Lemma consolidate_patterns_exact `{MathLib} (now : Z) (b b' : ReasoningBank)
    (r : ConsolidationResult) :
  consolidate now b = Ok (b', r) ->
  exists b3,
    patterns b' = patterns (fst (mergePatterns now b3))
    /\ incl (patterns b3) (patterns b)
    /\ (NoDup (map_keys (patterns b)) -> NoDup (map_keys (patterns b3))).
Proof.
  unfold consolidate.
  destruct (deduplicateMemories b) as [b1 n1] eqn:E1.
  assert (Hp1 : patterns b1 = patterns b).
  { rewrite deduplicateMemories_spec in E1. injection E1 as <- _. reflexivity. }
  destruct (if enableContradictionDetection (config b1) then detectContradictions b1
            else (b1, 0%Z)) as [b2 n2] eqn:E2.
  assert (Hp2 : patterns b2 = patterns b1).
  { destruct (enableContradictionDetection (config b1)).
    - replace b2 with (fst (detectContradictions b1)) by now rewrite E2.
      apply detectContradictions_patterns.
    - now injection E2 as <- _. }
  unfold pruneOldPatterns.
  match goal with
  | |- context [mergePatterns now ?b3] =>
      intro Hok; exists b3; revert Hok;
      destruct (mergePatterns now b3) as [b4 n4]
  end.
  rewrite emitEvent_ok. cbn [bind fst]. intro Hok. injection Hok as <- _.
  cbn [patterns set_console set_patterns]. split; [reflexivity|].
  rewrite Hp2, Hp1. split; [apply incl_filter|apply filter_keys_NoDup].
Qed.

(** X18: [consolidate] never rewrites a pattern.  Every pattern of the
    bank after [consolidate] was there before under the same id, with
    the same name, domain, embedding, strategy, success rate and
    timestamps; its quality history and its evolution history are the
    old ones, possibly with entries appended. *)
Theorem consolidate_patterns_extend `{MathLib} (now : Z) (b b' : ReasoningBank)
    (r : ConsolidationResult) (id : string) (p' : Pattern) :
  consolidate now b = Ok (b', r) ->
  In (id, p') (patterns b') ->
  exists p, In (id, p) (patterns b) /\ pattern_extends p p'.
Proof.
  intros Hc Hin.
  destruct (consolidate_patterns_exact now b b' r Hc) as [b3 [Hp [Hincl _]]].
  rewrite Hp in Hin.
  destruct (mergePatterns_extends now b3 id p' Hin) as [p [Hp3 He]].
  exists p. split; [now apply Hincl|exact He].
Qed.

Lemma consolidate_patterns_extend_witness :
  exists b' r p',
    @consolidate exact_math 3 pattern_bank = Ok (b', r)
    /\ In ("pat_mem_0_r0", p') (patterns b')
    /\ exists p, In ("pat_mem_0_r0", p) (patterns pattern_bank) /\ pattern_extends p p'.
Proof.
  destruct (@consolidate exact_math 3 pattern_bank) as [[b' r]|] eqn:Hc;
    [|exfalso; vm_compute in Hc; discriminate Hc].
  destruct (map_get "pat_mem_0_r0" (patterns b')) as [p'|] eqn:Hg;
    [|exfalso; vm_compute in Hc; injection Hc as <- _; discriminate Hg].
  apply map_get_In in Hg.
  exists b', r, p'. split; [reflexivity|]. split; [exact Hg|].
  exact (@consolidate_patterns_extend exact_math 3 pattern_bank b' r _ p' Hc Hg).
Defined.

(** ** Pattern evolution *)

Lemma map_set_present_keys {V : Type} (m : list (string * V)) (k : string) (v v' : V) :
  map_get k m = Some v -> map_keys (map_set k v' m) = map_keys m.
Proof.
  unfold map_keys. induction m as [|[k0 v0] t IH]; simpl; [discriminate|].
  destruct (String.eqb k k0) eqn:E; simpl.
  - apply String.eqb_eq in E. now subst.
  - intro Hg. now rewrite IH.
Qed.

Lemma evolved_history (now : Z) (p : Pattern) (t : Trajectory) :
  qualityHistory (evolved now p t)
  = skipn (length (qualityHistory p) - 99) (qualityHistory p) ++ [qualityScore t].
Proof.
  cbn [evolved qualityHistory]. set (h := qualityHistory p).
  destruct (100 <? length (h ++ [qualityScore t]))%nat eqn:E.
  - apply Nat.ltb_lt in E. rewrite length_app in E. cbn [length] in E.
    unfold slice_last. rewrite length_app. cbn [length].
    rewrite skipn_app.
    replace (length h + 1 - 100)%nat with (length h - 99)%nat by lia.
    replace (length h - 99 - length h)%nat with 0%nat by lia. reflexivity.
  - apply Nat.ltb_ge in E. rewrite length_app in E. cbn [length] in E.
    replace (length h - 99)%nat with 0%nat by lia. reflexivity.
Qed.

(** X19: [evolvePattern] keeps a sliding window of quality samples.  On
    a stored pattern the new history is the old one without its oldest
    entries beyond 99, followed by the trajectory's quality score; it
    has [min (n + 1) 100] entries, and the usage count goes up by
    one. *)
Theorem evolvePattern_history_window `{MathLib} (now : Z) (b : ReasoningBank) (id : string)
    (newExperience : Trajectory) (pattern : Pattern) :
  map_get id (patterns b) = Some pattern ->
  exists b' pattern',
    evolvePattern now b id newExperience = Ok b'
    /\ map_get id (patterns b') = Some pattern'
    /\ qualityHistory pattern'
       = skipn (length (qualityHistory pattern) - 99) (qualityHistory pattern)
         ++ [qualityScore newExperience]
    /\ length (qualityHistory pattern')
       = Nat.min (S (length (qualityHistory pattern))) 100
    /\ p_usageCount pattern' = (p_usageCount pattern + 1)%Z.
Proof.
  intro Hget. unfold evolvePattern. rewrite Hget, emitEvent_ok.
  eexists. exists (evolved now pattern newExperience).
  split; [reflexivity|]. cbn [patterns set_console set_patterns].
  split; [apply map_get_set_same|].
  split; [apply evolved_history|].
  split; [|reflexivity].
  rewrite evolved_history, length_app, length_skipn. cbn [length]. lia.
Qed.

Lemma evolvePattern_history_window_witness :
  exists b' pattern',
    evolvePattern 5 pattern_bank "pat_mem_0_r0" (one_step "t-3" 0.5 [5; 0]) = Ok b'
    /\ map_get "pat_mem_0_r0" (patterns b') = Some pattern'
    /\ qualityHistory pattern' = [0.9; 0.5]
    /\ length (qualityHistory pattern') = 2%nat
    /\ p_usageCount pattern' = 1%Z.
Proof.
  destruct (map_get "pat_mem_0_r0" (patterns pattern_bank)) as [p|] eqn:Hg;
    [|exfalso; vm_compute in Hg; discriminate Hg].
  destruct (@evolvePattern_history_window exact_math 5 pattern_bank "pat_mem_0_r0"
              (one_step "t-3" 0.5 [5; 0]) p Hg) as [b' [p' [He [Hg' [Hh [Hl Hu]]]]]].
  exists b', p'. split; [exact He|]. split; [exact Hg'|].
  vm_compute in Hg. injection Hg as <-.
  split; [exact Hh|]. split; [exact Hl|exact Hu].
Defined.

Lemma Qsum_bounds (l : list Q) (a : Q) :
  Forall (fun x => 0 <= x <= 1) l ->
  a <= fold_left Qplus l a <= a + Qlen l.
Proof.
  unfold Qlen. intro Hf. revert a. induction Hf as [|x l [Hx0 Hx1] Hf IH]; intro a.
  - cbn [fold_left length]. change (inject_Z (Z.of_nat 0)) with 0. split; lra.
  - cbn [fold_left]. rewrite length_cons, Nat2Z.inj_succ, <- Z.add_1_r, inject_Z_plus.
    destruct (IH (a + x)) as [Hlo Hhi]. change (inject_Z 1) with 1. split; lra.
Qed.

Lemma mean_bounds (l : list Q) :
  l <> [] -> Forall (fun x => 0 <= x <= 1) l -> 0 <= Qsum l / Qlen l <= 1.
Proof.
  intros Hne Hf. destruct (Qsum_bounds l 0 Hf) as [Hlo Hhi].
  assert (Hn : 0 < Qlen l).
  { unfold Qlen. destruct l; [contradiction|]. rewrite length_cons, Nat2Z.inj_succ.
    change 0 with (inject_Z 0). rewrite <- Zlt_Qlt. lia. }
  unfold Qsum. split.
  - apply Qle_shift_div_l; [exact Hn|]. lra.
  - apply Qle_shift_div_r; [exact Hn|]. lra.
Qed.

(** X20: [evolvePattern] keeps the success rate a proportion.  If the
    quality samples of a stored pattern and the quality score of the
    new trajectory lie in [0, 1], then so do the samples and the
    success rate of the evolved pattern. *)
Theorem evolvePattern_rate_bounds `{MathLib} (now : Z) (b : ReasoningBank) (id : string)
    (newExperience : Trajectory) (pattern : Pattern) :
  map_get id (patterns b) = Some pattern ->
  Forall (fun x => 0 <= x <= 1) (qualityHistory pattern) ->
  0 <= qualityScore newExperience <= 1 ->
  exists b' pattern',
    evolvePattern now b id newExperience = Ok b'
    /\ map_get id (patterns b') = Some pattern'
    /\ Forall (fun x => 0 <= x <= 1) (qualityHistory pattern')
    /\ 0 <= successRate pattern' <= 1.
Proof.
  intros Hget Hh Hq. unfold evolvePattern. rewrite Hget, emitEvent_ok.
  eexists. exists (evolved now pattern newExperience).
  split; [reflexivity|]. cbn [patterns set_console set_patterns].
  split; [apply map_get_set_same|].
  assert (Hf : Forall (fun x => 0 <= x <= 1) (qualityHistory (evolved now pattern newExperience))).
  { rewrite evolved_history. apply Forall_app. split.
    - apply Forall_forall. intros x Hx. rewrite Forall_forall in Hh. apply Hh.
      rewrite <- (firstn_skipn (length (qualityHistory pattern) - 99)).
      apply in_or_app. now right.
    - constructor; [exact Hq|constructor]. }
  split; [exact Hf|].
  change (successRate (evolved now pattern newExperience))
    with (Qsum (qualityHistory (evolved now pattern newExperience))
          / Qlen (qualityHistory (evolved now pattern newExperience))).
  apply mean_bounds; [|exact Hf].
  rewrite evolved_history. intro Hnil. apply app_eq_nil in Hnil as [_ Hnil]. discriminate Hnil.
Qed.

Lemma evolvePattern_rate_bounds_witness :
  exists b' pattern',
    evolvePattern 5 pattern_bank "pat_mem_0_r0" (one_step "t-3" 0.5 [5; 0]) = Ok b'
    /\ map_get "pat_mem_0_r0" (patterns b') = Some pattern'
    /\ Forall (fun x => 0 <= x <= 1) (qualityHistory pattern')
    /\ 0 <= successRate pattern' <= 1.
Proof.
  destruct (map_get "pat_mem_0_r0" (patterns pattern_bank)) as [p|] eqn:Hg;
    [|exfalso; vm_compute in Hg; discriminate Hg].
  apply (@evolvePattern_rate_bounds exact_math 5 pattern_bank "pat_mem_0_r0"
           (one_step "t-3" 0.5 [5; 0]) p Hg).
  - vm_compute in Hg. injection Hg as <-. cbn [qualityHistory].
    constructor; [|constructor]. split; discriminate.
  - cbn. split; discriminate.
Defined.

(** X21: the evolution entry that [evolvePattern] appends.  The entry
    records the success rate before and after the update; its type is
    [prune] exactly when the rate fell by more than 0.1, and
    [improvement] in every other case, a smaller fall included. *)
Theorem evolvePattern_records_type `{MathLib} (now : Z) (b : ReasoningBank) (id : string)
    (newExperience : Trajectory) (pattern : Pattern) :
  map_get id (patterns b) = Some pattern ->
  exists b' pattern' entry,
    evolvePattern now b id newExperience = Ok b'
    /\ map_get id (patterns b') = Some pattern'
    /\ evolutionHistory pattern' = evolutionHistory pattern ++ [entry]
    /\ previousQuality entry = successRate pattern
    /\ newQuality entry = successRate pattern'
    /\ ((ev_type entry = prune /\ successRate pattern' - successRate pattern < -(0.1))
        \/ (ev_type entry = improvement
            /\ -(0.1) <= successRate pattern' - successRate pattern)).
Proof.
  intro Hget. unfold evolvePattern. rewrite Hget, emitEvent_ok.
  eexists. exists (evolved now pattern newExperience). eexists.
  split; [reflexivity|]. cbn [patterns set_console set_patterns].
  split; [apply map_get_set_same|].
  split; [reflexivity|]. cbn [previousQuality newQuality ev_type].
  split; [reflexivity|]. split; [reflexivity|].
  cbn [evolved successRate]. unfold determineEvolutionType.
  set (d := _ - successRate pattern).
  destruct (Qltb 0.05 d) eqn:E1.
  - right. split; [reflexivity|]. apply Qltb_lt in E1. lra.
  - destruct (Qltb d (-0.1)) eqn:E2.
    + left. split; [reflexivity|]. now apply Qltb_lt in E2.
    + right. split; [reflexivity|]. now apply Qltb_ge in E2.
Qed.

Lemma evolvePattern_records_type_witness :
  exists b' pattern' entry,
    evolvePattern 5 pattern_bank "pat_mem_0_r0" (one_step "t-3" 0.5 [5; 0]) = Ok b'
    /\ map_get "pat_mem_0_r0" (patterns b') = Some pattern'
    /\ evolutionHistory pattern' = [entry]
    /\ ev_type entry = prune.
Proof.
  destruct (map_get "pat_mem_0_r0" (patterns pattern_bank)) as [p|] eqn:Hg;
    [|exfalso; vm_compute in Hg; discriminate Hg].
  destruct (@evolvePattern_records_type exact_math 5 pattern_bank "pat_mem_0_r0"
              (one_step "t-3" 0.5 [5; 0]) p Hg)
    as [b' [p' [e [He [Hg' [Hh [Hp [Hn Ht]]]]]]]].
  exists b', p', e. split; [exact He|]. split; [exact Hg'|].
  vm_compute in Hg. injection Hg as <-.
  split; [exact Hh|].
  destruct Ht as [[Ht _]|[_ Hd]]; [exact Ht|].
  exfalso. unfold evolvePattern in He.
  vm_compute in He. injection He as <-. vm_compute in Hg'. injection Hg' as <-.
  vm_compute in Hd. apply Hd. reflexivity.
Defined.

(** X22: [evolvePattern] touches one pattern only.  It always returns;
    afterwards the pattern keys are the same, in the same order, every
    pattern under another id is the one stored before, the memories are
    untouched, and an id that is not stored changes no pattern at
    all. *)
Theorem evolvePattern_frame `{MathLib} (now : Z) (b : ReasoningBank) (id : string)
    (newExperience : Trajectory) :
  exists b',
    evolvePattern now b id newExperience = Ok b'
    /\ map_keys (patterns b') = map_keys (patterns b)
    /\ (forall id', id' <> id -> map_get id' (patterns b') = map_get id' (patterns b))
    /\ memories b' = memories b
    /\ (map_get id (patterns b) = None -> patterns b' = patterns b).
Proof.
  unfold evolvePattern. destruct (map_get id (patterns b)) as [pattern|] eqn:Hget.
  - rewrite emitEvent_ok. eexists. split; [reflexivity|].
    cbn [patterns memories set_console set_patterns].
    split; [now apply map_set_present_keys with (v := pattern)|].
    split; [intros id' Hne; now apply map_get_set_other|].
    split; [reflexivity|discriminate].
  - exists b. repeat split; reflexivity.
Qed.

(** X23: promoting a memory and evolving the new pattern once.  After
    [memoryToPattern] on a memory and one [evolvePattern] with a
    trajectory, the pattern stored under [pat_<memoryId>] has the two
    quality samples, their average as success rate, one evolution
    entry, and the memory's usage count plus one. *)
Theorem memoryToPattern_then_evolve `{MathLib} (now now' : Z) (b : ReasoningBank)
    (m : DistilledMemory) (newExperience : Trajectory) :
  exists b' pattern',
    evolvePattern now' (fst (memoryToPattern now b m))
      (patternId (snd (memoryToPattern now b m))) newExperience = Ok b'
    /\ map_get (String.append "pat_" (memoryId m)) (patterns b') = Some pattern'
    /\ qualityHistory pattern' = [quality m; qualityScore newExperience]
    /\ successRate pattern' == (quality m + qualityScore newExperience) / 2
    /\ length (evolutionHistory pattern') = 1%nat
    /\ p_usageCount pattern' = (usageCount m + 1)%Z
    /\ createdAt pattern' = now /\ updatedAt pattern' = now'.
Proof.
  cbn [memoryToPattern fst snd patternId]. unfold evolvePattern.
  cbn [patterns set_patterns]. rewrite map_get_set_same, emitEvent_ok.
  eexists. eexists. split; [reflexivity|].
  cbn [patterns set_console set_patterns].
  split; [apply map_get_set_same|].
  cbn [evolved qualityHistory successRate evolutionHistory p_usageCount createdAt updatedAt
       app length Nat.ltb Nat.leb].
  split; [reflexivity|].
  split; [|repeat split; reflexivity].
  unfold Qsum, Qlen. cbn [fold_left length]. change (inject_Z (Z.of_nat 2)) with 2. field.
Qed.

(** ** Counting the patterns that [consolidate] drops *)

Lemma filter_split_length {A : Type} (f : A -> bool) (l : list A) :
  (length (filter f l) + length (filter (fun x => negb (f x)) l) = length l)%nat.
Proof.
  induction l as [|x t IH]; [reflexivity|]. simpl. destruct (f x); simpl; lia.
Qed.

Lemma mergePatterns_count `{MathLib} (now : Z) (b : ReasoningBank) :
  NoDup (map_keys (patterns b)) ->
  (0 <= snd (mergePatterns now b)
   /\ Z.of_nat (length (patterns (fst (mergePatterns now b)))) <= Z.of_nat (length (patterns b))
   /\ Z.of_nat (length (patterns b))
      <= Z.of_nat (length (patterns (fst (mergePatterns now b)))) + snd (mergePatterns now b))%Z.
Proof.
  intro Hnd. unfold mergePatterns.
  pose (P := fun st : list (string * Pattern) * list string * Z =>
               map fst (fst (fst st)) = map fst (patterns b)
               /\ snd st = Z.of_nat (length (snd (fst st)))).
  assert (HP : P (fold_left (merge_step now) (pairs (seq 0 (length (patterns b))))
                    (patterns b, [], 0%Z))).
  { apply fold_left_preserves; [|split; reflexivity].
    intros [[arr deleted] merged] [i j] [Hk Hm]. unfold P in *. cbn [fst snd] in *.
    cbn [merge_step].
    destruct (nth_error arr i) as [[idi pi]|]; [|now split].
    destruct (nth_error arr j) as [[idj pj]|]; [|now split].
    destruct (Qltb 0.9 _ && String.eqb _ _); [|now split].
    destruct (Qltb (successRate pi) (successRate pj)); cbn [fst snd];
      (split; [rewrite update_nth_map; [exact Hk|reflexivity]
              |rewrite length_cons, Nat2Z.inj_succ; lia]). }
  destruct (fold_left _ _ _) as [[arr deleted] merged]. destruct HP as [Hk Hm].
  cbn [fst snd] in *. cbn [patterns set_patterns].
  assert (Hlen : length arr = length (patterns b)).
  { rewrite <- (length_map fst arr), Hk. apply length_map. }
  assert (Hb := filter_keys_bound deleted arr).
  unfold map_keys in Hb, Hnd. rewrite Hk in Hb. specialize (Hb Hnd).
  assert (Hf := filter_length_le (fun kv : string * Pattern =>
                                    negb (existsb (String.eqb (fst kv)) deleted)) arr).
  subst merged. lia.
Qed.

Lemma consolidate_pattern_counts `{MathLib} (now : Z) (b b' : ReasoningBank)
    (r : ConsolidationResult) :
  consolidate now b = Ok (b', r) ->
  exists b2,
    patterns b2 = patterns b /\ config b2 = config b
    /\ prunedPatterns r = snd (pruneOldPatterns now b2)
    /\ mergedPatterns r = snd (mergePatterns now (fst (pruneOldPatterns now b2)))
    /\ patterns b' = patterns (fst (mergePatterns now (fst (pruneOldPatterns now b2)))).
Proof.
  unfold consolidate.
  destruct (deduplicateMemories b) as [b1 n1] eqn:E1.
  assert (Hp1 : patterns b1 = patterns b /\ config b1 = config b).
  { rewrite deduplicateMemories_spec in E1. injection E1 as <- _. split; reflexivity. }
  destruct (if enableContradictionDetection (config b1) then detectContradictions b1
            else (b1, 0%Z)) as [b2 n2] eqn:E2.
  assert (Hp2 : patterns b2 = patterns b1 /\ config b2 = config b1).
  { destruct (enableContradictionDetection (config b1)).
    - replace b2 with (fst (detectContradictions b1)) by now rewrite E2.
      split; [apply detectContradictions_patterns|apply detectContradictions_view].
    - injection E2 as <- _. split; reflexivity. }
  intro Hok. exists b2. revert Hok.
  destruct (pruneOldPatterns now b2) as [b3 n3]. cbn [fst snd].
  destruct (mergePatterns now b3) as [b4 n4]. cbn [fst snd].
  rewrite emitEvent_ok. cbn [bind]. intro Hok. injection Hok as <- <-.
  cbn [patterns set_console prunedPatterns mergedPatterns].
  destruct Hp1 as [Hp1 Hc1]. destruct Hp2 as [Hp2 Hc2].
  split; [congruence|]. split; [congruence|]. repeat split; reflexivity.
Qed.

(** X24: the pattern counts that [consolidate] reports.
    [prunedPatterns] is the number of stale patterns of the bank (last
    updated more than [maxPatternAgeDays] ago, used fewer than five
    times), and all of them are dropped.  [mergedPatterns] bounds the
    further loss: with distinct pattern keys the bank keeps at least
    [before - prunedPatterns - mergedPatterns] patterns. *)
Theorem consolidate_pattern_accounting `{MathLib} (now : Z) (b b' : ReasoningBank)
    (r : ConsolidationResult) :
  NoDup (map_keys (patterns b)) ->
  consolidate now b = Ok (b', r) ->
  (prunedPatterns r = Z.of_nat (length (filter (stale_pattern (config b) now) (patterns b)))
   /\ 0 <= mergedPatterns r
   /\ Z.of_nat (length (patterns b)) - prunedPatterns r - mergedPatterns r
      <= Z.of_nat (length (patterns b'))
      <= Z.of_nat (length (patterns b)) - prunedPatterns r)%Z.
Proof.
  intros Hnd Hc.
  destruct (consolidate_pattern_counts now b b' r Hc) as [b2 [Hp [Hcfg [Hpr [Hm Hb']]]]].
  rewrite Hpr, Hm, Hb'. clear Hpr Hm Hb' Hc.
  unfold pruneOldPatterns. cbn [fst snd]. rewrite Hp, Hcfg.
  change (fun kv : string * Pattern =>
            Qltb (maxPatternAgeDays (config b) * 24 * 60 * 60 * 1000)
              (inject_Z (now - updatedAt (snd kv))) && (p_usageCount (snd kv) <? 5)%Z)
    with (stale_pattern (config b) now).
  set (b3 := set_patterns b2 _).
  assert (Hnd3 : NoDup (map_keys (patterns b3))).
  { unfold b3. cbn [patterns set_patterns]. now apply filter_keys_NoDup. }
  destruct (mergePatterns_count now b3 Hnd3) as [Hm0 [Hle Hge]].
  assert (Hs := filter_split_length (stale_pattern (config b) now) (patterns b)).
  assert (Hl3 : length (patterns b3)
                = length (filter (fun kv => negb (stale_pattern (config b) now kv)) (patterns b)))
    by reflexivity.
  split; [reflexivity|]. split; [exact Hm0|]. lia.
Qed.

Lemma consolidate_pattern_accounting_witness :
  exists b' r,
    @consolidate exact_math 3 pattern_bank = Ok (b', r)
    /\ prunedPatterns r = 0%Z /\ mergedPatterns r = 1%Z
    /\ length (patterns b') = 1%nat.
Proof.
  destruct (@consolidate exact_math 3 pattern_bank) as [[b' r]|] eqn:Hc;
    [|exfalso; vm_compute in Hc; discriminate Hc].
  exists b', r. split; [reflexivity|].
  assert (Hnd : NoDup (map_keys (patterns pattern_bank))).
  { vm_compute. constructor; [|constructor; [|constructor]]; simpl; intuition discriminate. }
  destruct (@consolidate_pattern_accounting exact_math 3 pattern_bank b' r Hnd Hc)
    as [Hp [Hm Hb]].
  vm_compute in Hc. injection Hc as <- <-.
  split; [reflexivity|]. split; reflexivity.
Defined.

(** ** The memory that [distill] builds *)

Lemma judge_if_needed_fields `{MathLib} cfg now t t1 :
  judge_if_needed cfg now t = Ok t1 ->
  domain t1 = domain t /\ qualityScore t1 = qualityScore t.
Proof.
  unfold judge_if_needed, judge. destruct (verdict t).
  - intro Hj. injection Hj as <-. split; reflexivity.
  - destruct (negb (isComplete t)); [discriminate|]. cbn [bind snd].
    intro Hj. injection Hj as <-. split; reflexivity.
Qed.

(** X25: the fields of a memory that [distill] returns.  It is new
    (usage count 0, last used now), carries the trajectory's id and
    quality score, which is at least [distillationThreshold], and is
    linked from the trajectory.  Its key learnings are those of a
    success: the sentence naming the trajectory's domain, followed by
    at most two strengths; the refinement branch of
    [extractKeyLearnings] is never stored. *)
Theorem distill_memory_fields `{MathLib} (now : Z) (rnd : string) (b b' : ReasoningBank)
    (t t' : Trajectory) (m : DistilledMemory) :
  distill now rnd b t = Ok (b', t', Some m) ->
  memoryId m = new_memoryId now rnd
  /\ m_trajectoryId m = trajectoryId t
  /\ usageCount m = 0%Z /\ lastUsed m = now
  /\ quality m = qualityScore t
  /\ distillationThreshold (config b) <= quality m
  /\ distilledMemory t' = Some m
  /\ distillationCount b' = (distillationCount b + 1)%Z
  /\ exists strengths,
       keyLearnings m
       = String.append (String.append "Successful approach for " (domain t)) " domain"
         :: map (String.append "Strength: ") strengths
       /\ (length strengths <= 2)%nat.
Proof.
  intro Hd.
  destruct (distill_Some_inv _ _ _ _ _ _ _ Hd) as [t0 [v [Hj [Hv [Hg [Hb [Ht [Hm Hid]]]]]]]].
  destruct (judge_if_needed_fields _ _ _ _ Hj) as [Hdom Hq].
  apply orb_false_iff in Hg as [Hs Hthr].
  apply negb_false_iff in Hs. apply Qltb_ge in Hthr.
  subst m b' t'. cbn [distilled_entry memory memoryId m_trajectoryId usageCount lastUsed
                      quality keyLearnings set_distilledMemory distilledMemory].
  split; [reflexivity|]. split; [exact Hid|]. split; [reflexivity|]. split; [reflexivity|].
  split; [exact Hq|]. split; [exact Hthr|]. split; [reflexivity|]. split; [reflexivity|].
  exists (firstn 2 (strengths v)). unfold extractKeyLearnings. rewrite Hv, Hs, Hdom.
  split; [reflexivity|]. apply firstn_le_length.
Qed.

Lemma distill_memory_fields_witness :
  exists b' t' m,
    @distill exact_math 0 "k3x9q2a" (createReasoningBank DEFAULT_CONFIG) scenario_trajectory
    = Ok (b', t', Some m)
    /\ usageCount m = 0%Z
    /\ distillationThreshold DEFAULT_CONFIG <= quality m.
Proof.
  destruct (@distill exact_math 0 "k3x9q2a" (createReasoningBank DEFAULT_CONFIG)
              scenario_trajectory) as [[[b' t'] [m|]]|] eqn:Hd;
    try (exfalso; vm_compute in Hd; discriminate Hd).
  exists b', t', m. split; [reflexivity|].
  destruct (@distill_memory_fields exact_math 0 "k3x9q2a" _ b' scenario_trajectory t' m Hd)
    as [_ [_ [Hu [_ [_ [Hq _]]]]]].
  split; [exact Hu|exact Hq].
Defined.

(** ** Invariants of the bank *)

Lemma map_set_In {V : Type} (m : list (string * V)) (k : string) (v : V) (kv : string * V) :
  In kv (map_set k v m) -> kv = (k, v) \/ In kv m.
Proof.
  induction m as [|[k0 v0] t IH]; simpl.
  - intros [<-|[]]. now left.
  - destruct (String.eqb k k0); simpl.
    + intros [<-|Hin]; [now left|right; now right].
    + intros [<-|Hin]; [right; now left|].
      destruct (IH Hin) as [->|Hin']; [now left|right; now right].
Qed.

Lemma Forall_map_set {V : Type} (P : string * V -> Prop) (m : list (string * V))
    (k : string) (v : V) :
  P (k, v) -> Forall P m -> Forall P (map_set k v m).
Proof.
  intros Hkv Hm. apply Forall_forall. intros kv Hin.
  destruct (map_set_In _ _ _ _ Hin) as [->|Hin']; [exact Hkv|].
  rewrite Forall_forall in Hm. now apply Hm.
Qed.

Lemma Forall_filter {A : Type} (P : A -> Prop) (f : A -> bool) (l : list A) :
  Forall P l -> Forall P (filter f l).
Proof.
  intro Hl. apply Forall_forall. intros x Hx. apply filter_In in Hx as [Hx _].
  rewrite Forall_forall in Hl. now apply Hl.
Qed.

Lemma storeTrajectory_frame (b : ReasoningBank) (t : Trajectory) :
  config (storeTrajectory b t) = config b
  /\ memories (storeTrajectory b t) = memories b
  /\ patterns (storeTrajectory b t) = patterns b.
Proof.
  unfold storeTrajectory. cbv zeta. destruct (_ <? _)%Z; repeat split; reflexivity.
Qed.

Lemma retrieve_frame `{MathLib} (b : ReasoningBank) (q : list Q) (k : option Z) :
  config (fst (retrieve b q k)) = config b
  /\ memories (fst (retrieve b q k)) = memories b
  /\ patterns (fst (retrieve b q k)) = patterns b.
Proof.
  unfold retrieve. destruct (memories b) eqn:E; cbn [fst]; rewrite <- ?E;
    repeat split; try reflexivity; now rewrite E.
Qed.

Lemma distill_bank `{MathLib} (now : Z) (rnd : string) (b b' : ReasoningBank)
    (t t' : Trajectory) (om : option DistilledMemory) :
  distill now rnd b t = Ok (b', t', om) ->
  b' = b
  \/ exists t0 v,
       b' = incr_distillationCount
              (set_memories b
                 (map_set (new_memoryId now rnd) (distilled_entry now rnd t0 v) (memories b)))
       /\ success v = true
       /\ distillationThreshold (config b) <= qualityScore t0.
Proof.
  unfold distill. destruct (judge_if_needed (config b) now t) as [t0|]; [|discriminate].
  cbn [bind]. destruct (verdict t0) as [v|]; [|discriminate].
  destruct (negb (success v) || Qltb (qualityScore t0) (distillationThreshold (config b)))
    eqn:Hg.
  - intro Hok. injection Hok as <- _ _. now left.
  - intro Hok. injection Hok as <- _ _. right. exists t0, v.
    apply orb_false_iff in Hg as [Hs Hthr].
    apply negb_false_iff in Hs. apply Qltb_ge in Hthr.
    split; [reflexivity|]. split; assumption.
Qed.

Lemma detectContradictions_entries `{MathLib} (b : ReasoningBank) :
  Forall2 same_memory (memories b) (memories (fst (detectContradictions b))).
Proof.
  unfold detectContradictions.
  pose (P := fun st : list (string * MemoryEntry) * Z =>
               Forall2 same_memory (memories b) (fst st)).
  assert (HP : P (fold_left contradiction_step
                    (pairs (indexed (map_values (memories b)))) (memories b, 0%Z))).
  { apply fold_left_preserves.
    - intros [mems c] [[i ei] [j ej]] Hs. unfold P in *. cbn [contradiction_step fst] in *.
      destruct (Qltb 0.8 _); [|exact Hs].
      destruct (Qltb 0.4 _); [|exact Hs].
      destruct (Qltb _ _); cbn [fst]; (apply Forall2_update_nth_r; [|exact Hs]);
        intros a c0 [Hk [Hm Hv]]; repeat split; assumption.
    - unfold P. cbn [fst]. apply Forall2_refl. intro a. repeat split; reflexivity. }
  destruct (fold_left contradiction_step _ _) as [mems c]. exact HP.
Qed.

Lemma consolidate_config `{MathLib} (now : Z) (b b' : ReasoningBank)
    (r : ConsolidationResult) :
  consolidate now b = Ok (b', r) -> config b' = config b.
Proof.
  unfold consolidate.
  destruct (deduplicateMemories b) as [b1 n1] eqn:E1.
  assert (Hc1 : config b1 = config b).
  { rewrite deduplicateMemories_spec in E1. injection E1 as <- _. reflexivity. }
  destruct (if enableContradictionDetection (config b1) then detectContradictions b1
            else (b1, 0%Z)) as [b2 n2] eqn:E2.
  assert (Hc2 : config b2 = config b1).
  { destruct (enableContradictionDetection (config b1)).
    - replace b2 with (fst (detectContradictions b1)) by now rewrite E2.
      apply detectContradictions_view.
    - now injection E2 as <- _. }
  unfold pruneOldPatterns, mergePatterns. cbn [patterns set_patterns].
  destruct (fold_left _ _ _) as [[arr deleted] merged].
  rewrite emitEvent_ok. cbn [bind]. intro Hok. injection Hok as <- _.
  cbn [config set_console set_patterns]. congruence.
Qed.

Lemma consolidate_memory_entries `{MathLib} (now : Z) (b b' : ReasoningBank)
    (r : ConsolidationResult) :
  consolidate now b = Ok (b', r) ->
  exists f, Forall2 same_memory (filter f (memories b)) (memories b').
Proof.
  intro Hc. rewrite (consolidate_memories_exact _ _ _ _ Hc).
  rewrite deduplicateMemories_spec. cbn [fst].
  eexists.
  destruct (enableContradictionDetection (config b)); cbn [fst].
  - match goal with
    | |- Forall2 _ _ (memories (fst (detectContradictions ?b1))) =>
        exact (detectContradictions_entries b1)
    end.
  - cbn [memories set_memories]. apply Forall2_refl. intro a. repeat split; reflexivity.
Qed.

Lemma Forall2_map_eq {A B : Type} (R : A -> A -> Prop) (g : A -> B) (l l' : list A) :
  (forall a a', R a a' -> g a' = g a) -> Forall2 R l l' -> map g l' = map g l.
Proof.
  intros Hg Hf. induction Hf as [|a a' l l' Ha Hf IH]; [reflexivity|].
  simpl. now rewrite IH, (Hg _ _ Ha).
Qed.

Lemma Forall2_Forall_r {A : Type} (R : A -> A -> Prop) (P Q' : A -> Prop) (l l' : list A) :
  (forall a a', R a a' -> P a -> Q' a') -> Forall2 R l l' -> Forall P l -> Forall Q' l'.
Proof.
  intros Hr Hf. induction Hf as [|a a' l l' Ha Hf IH]; intro Hl; constructor.
  - inversion Hl; subst. eauto.
  - inversion Hl; subst. auto.
Qed.

(** X26: an invariant of the memory store.  In every bank that the
    operations build from a new one (storing trajectories, retrieving,
    distilling, consolidating, promoting and evolving patterns, adding
    listeners) the configuration is the initial one, the memory keys are
    distinct, and every stored memory is filed under its own id, has a
    successful verdict and a quality of at least
    [distillationThreshold], and a usage count of 0: no operation ever
    counts a use of a memory. *)
Theorem reachable_memories_invariant `{MathLib} (cfg : ReasoningBankConfig)
    (b : ReasoningBank) :
  reachable cfg b ->
  config b = cfg
  /\ NoDup (map_keys (memories b))
  /\ Forall (memory_entry_ok cfg) (memories b).
Proof.
  induction 1 as [|b t Hr IH|b q k Hr IH|b now rnd t b' t' om Hr IH Hd
                  |b now b' r Hr IH Hc|b now m Hr IH|b now id t b' Hr IH He
                  |b listener Hr IH].
  - split; [reflexivity|]. split; constructor.
  - destruct (storeTrajectory_frame b t) as [-> [-> _]]. exact IH.
  - destruct (retrieve_frame b q k) as [-> [-> _]]. exact IH.
  - destruct IH as [Hcfg [Hnd Hall]].
    destruct (distill_bank _ _ _ _ _ _ _ Hd) as [->|[t0 [v [-> [Hs Hq]]]]];
      [now repeat split|].
    cbn [config memories incr_distillationCount set_memories].
    split; [exact Hcfg|]. split; [now apply map_set_NoDup|].
    apply Forall_map_set; [|exact Hall].
    unfold memory_entry_ok. cbn [fst snd distilled_entry memory memoryId usageCount
                                   e_verdict quality].
    rewrite <- Hcfg. repeat split; assumption.
  - destruct IH as [Hcfg [Hnd Hall]].
    destruct (consolidate_memory_entries _ _ _ _ Hc) as [f Hf].
    split; [rewrite (consolidate_config _ _ _ _ Hc); exact Hcfg|]. split.
    + unfold map_keys.
      rewrite (Forall2_map_eq same_memory fst _ _ (fun a a' Ha => proj1 Ha) Hf).
      now apply filter_keys_NoDup.
    + apply (Forall2_Forall_r same_memory (memory_entry_ok cfg) (memory_entry_ok cfg) _ _)
        with (2 := Hf); [|now apply Forall_filter].
      intros a a' [Hk [Hm Hv]] [H1 [H2 [H3 H4]]]. unfold memory_entry_ok.
      rewrite Hk, Hm, Hv. repeat split; assumption.
  - exact IH.
  - unfold evolvePattern in He. destruct (map_get id (patterns b)).
    + rewrite emitEvent_ok in He. injection He as <-. exact IH.
    + injection He as <-. exact IH.
  - exact IH.
Qed.

Lemma reachable_memories_invariant_witness :
  exists b' t' m,
    @distill exact_math 0 "k3x9q2a" (createReasoningBank DEFAULT_CONFIG) scenario_trajectory
    = Ok (b', t', Some m)
    /\ memories b' <> []
    /\ Forall (memory_entry_ok DEFAULT_CONFIG) (memories b').
Proof.
  destruct (@distill exact_math 0 "k3x9q2a" (createReasoningBank DEFAULT_CONFIG)
              scenario_trajectory) as [[[b' t'] [m|]]|] eqn:Hd;
    try (exfalso; vm_compute in Hd; discriminate Hd).
  exists b', t', m. split; [reflexivity|]. split.
  - vm_compute in Hd. injection Hd as <- _ _. discriminate.
  - apply (@reachable_memories_invariant exact_math DEFAULT_CONFIG b').
    exact (@reach_distill exact_math DEFAULT_CONFIG _ _ _ _ _ _ _
             (@reach_new exact_math DEFAULT_CONFIG) Hd).
Defined.

Lemma mergePatterns_keys `{MathLib} (now : Z) (b : ReasoningBank) :
  exists arr f,
    map fst arr = map fst (patterns b)
    /\ patterns (fst (mergePatterns now b)) = filter f arr.
Proof.
  unfold mergePatterns.
  pose (P := fun st : list (string * Pattern) * list string * Z =>
               map fst (fst (fst st)) = map fst (patterns b)).
  assert (HP : P (fold_left (merge_step now) (pairs (seq 0 (length (patterns b))))
                    (patterns b, [], 0%Z))).
  { apply fold_left_preserves; [|reflexivity].
    intros [[arr deleted] merged] [i j] Hk. unfold P in *. cbn [fst] in *.
    cbn [merge_step].
    destruct (nth_error arr i) as [[idi pi]|]; [|exact Hk].
    destruct (nth_error arr j) as [[idj pj]|]; [|exact Hk].
    destruct (Qltb 0.9 _ && String.eqb _ _); [|exact Hk].
    destruct (Qltb (successRate pi) (successRate pj)); cbn [fst];
      (rewrite update_nth_map; [exact Hk|reflexivity]). }
  destruct (fold_left _ _ _) as [[arr deleted] merged]. unfold P in HP. cbn [fst] in *.
  exists arr. eexists. split; [exact HP|reflexivity].
Qed.

(** X27: an invariant of the pattern store.  In every bank that the
    operations build from a new one the pattern keys are distinct and
    every pattern is filed under its own [patternId] and has at least
    one quality sample, so that the mean that [evolvePattern] takes is
    over a non-empty history. *)
Theorem reachable_patterns_invariant `{MathLib} (cfg : ReasoningBankConfig)
    (b : ReasoningBank) :
  reachable cfg b ->
  NoDup (map_keys (patterns b)) /\ Forall pattern_entry_ok (patterns b).
Proof.
  induction 1 as [|b t Hr IH|b q k Hr IH|b now rnd t b' t' om Hr IH Hd
                  |b now b' r Hr IH Hc|b now m Hr IH|b now id t b' Hr IH He
                  |b listener Hr IH].
  - split; constructor.
  - destruct (storeTrajectory_frame b t) as [_ [_ ->]]. exact IH.
  - destruct (retrieve_frame b q k) as [_ [_ ->]]. exact IH.
  - destruct (distill_bank _ _ _ _ _ _ _ Hd) as [->|[t0 [v [-> _]]]]; exact IH.
  - destruct IH as [Hnd Hall].
    destruct (consolidate_patterns_exact _ _ _ _ Hc) as [b3 [Hp [Hincl Hnd3]]].
    rewrite Hp. split.
    + destruct (mergePatterns_keys now b3) as [arr [f [Hk ->]]].
      apply filter_keys_NoDup. unfold map_keys. rewrite Hk. now apply Hnd3.
    + apply Forall_forall. intros [id p'] Hin.
      destruct (mergePatterns_extends now b3 id p' Hin) as [p [Hp3 He]].
      rewrite Forall_forall in Hall. destruct (Hall _ (Hincl _ Hp3)) as [Hid Hq].
      cbn [fst snd] in Hid, Hq.
      destruct He as [Hpid [_ [_ [_ [_ [_ [_ [_ [[q Hqh] _]]]]]]]]].
      split; cbn [fst snd]; [congruence|].
      rewrite Hqh. intro Hnil. apply app_eq_nil in Hnil as [Hnil _]. contradiction.
  - destruct IH as [Hnd Hall]. cbn [memoryToPattern fst patterns set_patterns patternId].
    split; [now apply map_set_NoDup|].
    apply Forall_map_set; [|exact Hall]. split; cbn [fst snd patternId qualityHistory];
      [reflexivity|discriminate].
  - destruct IH as [Hnd Hall]. unfold evolvePattern in He.
    destruct (map_get id (patterns b)) as [pattern|] eqn:Hget.
    + rewrite emitEvent_ok in He. injection He as <-.
      cbn [patterns set_console set_patterns].
      split; [now apply map_set_NoDup|].
      apply Forall_map_set; [|exact Hall].
      apply map_get_In in Hget. rewrite Forall_forall in Hall.
      destruct (Hall _ Hget) as [Hid _]. cbn [fst snd] in Hid.
      split; cbn [fst snd]; [exact Hid|].
      rewrite evolved_history. intro Hnil. apply app_eq_nil in Hnil as [_ Hnil].
      discriminate Hnil.
    + injection He as <-. now split.
  - exact IH.
Qed.

Lemma reachable_patterns_invariant_witness :
  exists b' t' m,
    @distill exact_math 0 "k3x9q2a" (createReasoningBank DEFAULT_CONFIG) scenario_trajectory
    = Ok (b', t', Some m)
    /\ Forall pattern_entry_ok (patterns (fst (memoryToPattern 1 b' m)))
    /\ patterns (fst (memoryToPattern 1 b' m)) <> [].
Proof.
  destruct (@distill exact_math 0 "k3x9q2a" (createReasoningBank DEFAULT_CONFIG)
              scenario_trajectory) as [[[b' t'] [m|]]|] eqn:Hd;
    try (exfalso; vm_compute in Hd; discriminate Hd).
  exists b', t', m. split; [reflexivity|]. split.
  - apply (@reachable_patterns_invariant exact_math DEFAULT_CONFIG).
    apply (@reach_memoryToPattern exact_math DEFAULT_CONFIG).
    exact (@reach_distill exact_math DEFAULT_CONFIG _ _ _ _ _ _ _
             (@reach_new exact_math DEFAULT_CONFIG) Hd).
  - intro Hnil. apply (f_equal (map_get (String.append "pat_" (memoryId m)))) in Hnil.
    cbn [memoryToPattern fst patterns set_patterns patternId] in Hnil.
    rewrite map_get_set_same in Hnil. discriminate Hnil.
Defined.

(** ** Pattern names *)

Lemma string_filter_chars (f : ascii -> bool) (s : string) :
  Forall (fun c => f c = true) (list_ascii_of_string (string_filter f s)).
Proof.
  induction s as [|c t IH]; [constructor|].
  cbn [string_filter]. destruct (f c) eqn:E; [|exact IH].
  cbn [list_ascii_of_string]. constructor; assumption.
Qed.

(** X28: the name that [memoryToPattern] gives a pattern consists of
    lower-case letters, digits and underscores only, whatever the
    memory's strategy. *)
Theorem pattern_name_chars (now : Z) (b : ReasoningBank) (m : DistilledMemory) :
  Forall (fun c => is_name_char c = true)
    (list_ascii_of_string (name (snd (memoryToPattern now b m)))).
Proof.
  cbn [memoryToPattern snd name]. unfold generatePatternName. apply string_filter_chars.
Qed.
